(** * lwan request reader, parser and dispatch driver

    A shallow embedding of [src/common/lwan-request.c].

    The request buffer is one byte array; every [char *] of the C code that
    points into it is an offset from [buffer->value], and [NULL] is [None].
    The parser works in place: it writes NUL bytes over delimiters and
    percent-decodes over the text it has already read, so every function
    below takes the buffer and gives the changed buffer back. *)

From Stdlib Require Import Ascii String.
From Stdlib Require Import ZArith List Bool Arith Lia.
From Stdlib Require Import Permutation Sorted.
Import ListNotations.

Local Open Scope Z_scope.

(** ** Bytes and the buffer *)

(** A byte of the buffer, as its unsigned value 0..255. *)
Definition mem := list Z.
Definition ptr := nat.
Bind Scope nat_scope with ptr.

(** The value a [char] holding byte [b] has in an expression: [char] is
    signed on the platforms lwan builds for. *)
Definition schar (b : Z) : Z := (b + 128) mod 256 - 128.

(** The byte a [char]-typed result is stored as. *)
Definition to_byte (v : Z) : Z := v mod 256.

Definition chr (a : ascii) : Z := Z.of_N (N_of_ascii a).

Definition NUL : Z := 0.
Definition CR : Z := 13.
Definition LF : Z := 10.
Definition SP : Z := Eval cbv in chr " ".

Definition bytes (s : string) : list Z :=
  List.map chr (list_ascii_of_string s).

(** [*p]. The buffer is followed by storage the model does not track; a read
    past the modelled bytes gives NUL, a write past them is dropped. *)
Definition load (m : mem) (p : ptr) : Z := nth p m NUL.

Fixpoint store (m : mem) (p : ptr) (b : Z) : mem :=
  match m, p with
  | [], _ => []
  | _ :: t, O => b :: t
  | h :: t, S p' => h :: store t p' b
  end.

Fixpoint store_bytes (m : mem) (p : ptr) (l : list Z) : mem :=
  match l with
  | [] => m
  | b :: l' => store_bytes (store m p b) (S p) l'
  end.

(** ** libc string functions, on the buffer *)

(** The C string that starts a list of bytes: everything before the first NUL. *)
Fixpoint until_nul (l : list Z) : list Z :=
  match l with
  | [] => []
  | b :: t => if b =? NUL then [] else b :: until_nul t
  end.

Definition cstr (m : mem) (p : ptr) : list Z := until_nul (skipn p m).

Definition strlen (m : mem) (p : ptr) : nat := length (cstr m p).

(** Index of the first [c] in a list of bytes. *)
Fixpoint index_of (c : Z) (l : list Z) : option nat :=
  match l with
  | [] => None
  | b :: t => if b =? c then Some O else option_map S (index_of c t)
  end.

(** Index of the last [c] in a list of bytes. *)
Fixpoint rindex_of (c : Z) (l : list Z) : option nat :=
  match l with
  | [] => None
  | b :: t =>
      match rindex_of c t with
      | Some i => Some (S i)
      | None => if b =? c then Some O else None
      end
  end.

(** [strchr(p, c)] for a [c] other than NUL. *)
Definition strchr (m : mem) (p : ptr) (c : Z) : option ptr :=
  option_map (fun i => (p + i)%nat) (index_of c (cstr m p)).

(** [strrchr(p, c)] for a [c] other than NUL. *)
Definition strrchr (m : mem) (p : ptr) (c : Z) : option ptr :=
  option_map (fun i => (p + i)%nat) (rindex_of c (cstr m p)).

Definition memchr (m : mem) (p : ptr) (c : Z) (n : nat) : option ptr :=
  option_map (fun i => (p + i)%nat) (index_of c (firstn n (skipn p m))).

Definition memrchr (m : mem) (p : ptr) (c : Z) (n : nat) : option ptr :=
  option_map (fun i => (p + i)%nat) (rindex_of c (firstn n (skipn p m))).

(** [size_t] and [long] are 64 bits wide. *)
Definition size_t_of (v : Z) : Z := v mod 2 ^ 64.

(** [memchr(p, c, n)] with the count as the [size_t] the caller computed. A
    count that wrapped around is far larger than the buffer: the scan then
    runs to the end of the modelled bytes, and the bytes behind them read
    as NUL, so that no [c] other than NUL is found there. *)
Definition memchr_size_t (m : mem) (p : ptr) (c : Z) (n : Z) : option ptr :=
  memchr m p c (Z.to_nat (Z.min n (Z.of_nat (length m)))).

(** [memcmp(p, lit, n) == 0] against a literal of [n] bytes. *)
Definition mem_equal (m : mem) (p : ptr) (lit : list Z) : bool :=
  forallb (fun ib => load m (p + fst ib)%nat =? snd ib)
          (combine (seq 0 (length lit)) lit).

(** [strcmp] on two C strings: the difference of the first bytes that
    differ, compared as unsigned bytes; the end of a string counts as NUL. *)
Fixpoint strcmp_l (a b : list Z) : Z :=
  match a, b with
  | [], [] => 0
  | [], y :: _ => NUL - y
  | x :: _, [] => x - NUL
  | x :: a', y :: b' => if x =? y then strcmp_l a' b' else x - y
  end.

(** [strncmp(a, b, n)]. *)
Fixpoint strncmp_l (a b : list Z) (n : nat) {struct n} : Z :=
  match n with
  | O => 0
  | S n' =>
      match a, b with
      | [], [] => 0
      | [], y :: _ => NUL - y
      | x :: _, [] => x - NUL
      | x :: a', y :: b' => if x =? y then strncmp_l a' b' n' else x - y
      end
  end.

Definition strcmp (m : mem) (p q : ptr) : Z := strcmp_l (cstr m p) (cstr m q).

(** ** Byte utilities *)

Definition decode_hex_digit (b : Z) : Z :=
  let ch := schar b in
  schar (if ch <=? chr "9" then ch - chr "0" else Z.land ch 7 + 9).

Definition is_hex_digit (b : Z) : bool :=
  let ch := schar b in
  ((chr "0" <=? ch) && (ch <=? chr "9"))
  || ((chr "a" <=? ch) && (ch <=? chr "f"))
  || ((chr "A" <=? ch) && (ch <=? chr "F")).

(** The loop of [url_decode]: [ch] reads, [decoded] writes behind it. The
    fuel bounds the number of iterations; [url_decode] gives enough. *)
Fixpoint url_decode_loop (fuel : nat) (m : mem) (str ch decoded : ptr)
  : option (mem * nat) :=
  match fuel with
  | O => None
  | S fuel' =>
      let c := load m ch in
      if c =? NUL then Some (store m decoded NUL, (decoded - str)%nat)
      else if (c =? chr "%")
              && (is_hex_digit (load m (ch + 1)%nat)
                  && is_hex_digit (load m (ch + 2)%nat))
      then
        let tmp := schar (Z.lor (Z.shiftl (decode_hex_digit (load m (ch + 1)%nat)) 4)
                                (decode_hex_digit (load m (ch + 2)%nat))) in
        if tmp =? 0 then Some (m, O)
        else url_decode_loop fuel' (store m decoded (to_byte tmp))
                             str (ch + 3)%nat (S decoded)
      else if c =? chr "+"
      then url_decode_loop fuel' (store m decoded SP) str (S ch) (S decoded)
      else url_decode_loop fuel' (store m decoded c) str (S ch) (S decoded)
  end.

(** [url_decode(str)]: the changed buffer and the returned length. The loop
    never runs out of the fuel given here ([url_decode_loop_returns]). *)
Definition url_decode (m : mem) (str : option ptr) : mem * nat :=
  match str with
  | None => (m, O)
  | Some s =>
      match url_decode_loop (S (length m)) m s s s with
      | Some r => r
      | None => (m, O)
      end
  end.

(** ** Data model *)

(** [lwan_value_t]: a borrowed slice of the buffer. *)
Record lwan_value_t := mk_value {
  value : option ptr;
  len : nat
}.

Definition no_value : lwan_value_t := mk_value None O.

(** [lwan_key_value_t]: two borrowed C strings. *)
Record lwan_key_value_t := mk_kv {
  key : option ptr;
  kv_value : option ptr
}.

Definition kv_sentinel : lwan_key_value_t := mk_kv None None.

(** The [{ base, len }] pair a request holds for each parsed list. [base]
    is the block of [lwan_key_value_t] it points to. *)
Record kv_list := mk_kv_list {
  base : option (list lwan_key_value_t);
  kv_len : nat
}.

Definition no_kv_list : kv_list := mk_kv_list None O.

(** How a piece of the driver ends: it returns, or the coroutine is aborted
    ([coro_yield(..., CONN_CORO_ABORT)] does not come back), or it stores
    outside a block it allocated, which C leaves undefined. *)
Inductive outcome (A : Type) : Type :=
| Returns (a : A)
| Coro_abort
| Out_of_bounds.
Arguments Returns {A} a.
Arguments Coro_abort {A}.
Arguments Out_of_bounds {A}.

(** ** Key-value list *)

Definition strsep_char (m : mem) (strp : option ptr) (delim : Z)
  : mem * option ptr :=
  match strp with
  | None => (m, None)
  | Some s =>
      match strchr m s delim with
      | None => (m, None)
      | Some p => (store m p NUL, Some (S p))
      end
  end.

(** [n_elements] in [parse_key_values]. *)
Definition n_elements : nat := 32.

(** [coro_malloc(coro, n * sizeof(lwan_key_value_t))]: NULL, or a fresh block
    of exactly [n] elements holding whatever the allocator left there. *)
Definition coro_malloc (junk : option (nat -> lwan_key_value_t)) (n : nat)
  : option (list lwan_key_value_t) :=
  option_map (fun f => List.map f (seq 0 n)) junk.

(** [kvs[i] = e], inside the block only. *)
Fixpoint kv_update (kvs : list lwan_key_value_t) (i : nat) (e : lwan_key_value_t)
  : option (list lwan_key_value_t) :=
  match kvs, i with
  | [], _ => None
  | _ :: t, O => Some (e :: t)
  | h :: t, S i' => option_map (cons h) (kv_update t i' e)
  end.

(** The C string a key points to; the comparison functions are only ever
    handed the keys of collected pairs, which are never NULL. *)
Definition key_str (m : mem) (e : lwan_key_value_t) : list Z :=
  match key e with
  | Some p => cstr m p
  | None => []
  end.

Definition key_value_compare_qsort_key (m : mem) (a b : lwan_key_value_t) : Z :=
  strcmp_l (key_str m a) (key_str m b).

(** [while ( *ptr == ' ' || *ptr == separator) ptr++]: how many bytes it skips. *)
Fixpoint skip_run (separator : Z) (l : list Z) : nat :=
  match l with
  | [] => O
  | b :: t => if (b =? SP) || (b =? separator) then S (skip_run separator t) else O
  end.

(** The four [return]s of [parse_key_values] that leave [*base] and [*len]
    as they were. *)
Inductive kv_return :=
| Empty_slice       (* helper_value->len == 0 *)
| End_of_input      (* *ptr == '\0' after the skipped run *)
| No_equals_sign    (* strsep_char(ptr, '=') found nothing *)
| Decode_failed.    (* decode_value returned 0 for the key or the value *)

(** What [parse_key_values] did. [Unassigned] carries the pairs already in
    the block when the function returned; the caller never sees them. *)
Inductive kv_result :=
| Unassigned (why : kv_return) (m : mem) (kvs : list lwan_key_value_t) (values : nat)
| Assigned (m : mem) (kvs : list lwan_key_value_t) (values : nat)
| Alloc_failed
| Overrun (m : mem).

Section KeyValues.

(** [qsort] of libc: the order it gives to equal keys is its own business. *)
Variable qsort :
  (lwan_key_value_t -> lwan_key_value_t -> Z) ->
  list lwan_key_value_t -> list lwan_key_value_t.

(** The per-value decoder: the changed buffer and the returned [size_t]. *)
Variable decode_value : mem -> option ptr -> mem * nat.

Variable separator : Z.

(** After the loop: the sentinel, the sort of the first [values] elements,
    and the two assignments. *)
Definition parse_key_values_finish (m : mem) (kvs : list lwan_key_value_t)
           (values : nat) : kv_result :=
  match kv_update kvs values kv_sentinel with
  | None => Overrun m
  | Some kvs' =>
      Assigned m
               (qsort (key_value_compare_qsort_key m) (firstn values kvs')
                ++ skipn values kvs')
               values
  end.

(** The [do ... while (ptr && values < n_elements)] loop; every pass adds
    a pair, so [n_elements] passes are all it can make. *)
Fixpoint parse_key_values_loop (fuel : nat) (m : mem) (p : ptr)
         (kvs : list lwan_key_value_t) (values : nat) : option kv_result :=
  match fuel with
  | O => None
  | S fuel' =>
      let p := (p + skip_run separator (skipn p m))%nat in
      if load m p =? NUL then Some (Unassigned End_of_input m kvs values)
      else
        let k := p in
        let '(m1, v) := strsep_char m (Some p) (chr "=") in
        match v with
        | None => Some (Unassigned No_equals_sign m1 kvs values)
        | Some v =>
            let '(m2, next) := strsep_char m1 (Some v) separator in
            let '(m3, klen) := decode_value m2 (Some k) in
            if Nat.eqb klen O then Some (Unassigned Decode_failed m3 kvs values)
            else
              let '(m4, vlen) := decode_value m3 (Some v) in
              if Nat.eqb vlen O then Some (Unassigned Decode_failed m4 kvs values)
              else
                match kv_update kvs values (mk_kv (Some k) (Some v)) with
                | None => Some (Overrun m4)
                | Some kvs' =>
                    let values' := S values in
                    match next with
                    | Some p' =>
                        if (values' <? n_elements)%nat
                        then parse_key_values_loop fuel' m4 p' kvs' values'
                        else Some (parse_key_values_finish m4 kvs' values')
                    | None => Some (parse_key_values_finish m4 kvs' values')
                    end
                end
        end
  end.

(** [parse_key_values(request, helper_value, base, len, decode_value,
    separator)]. A slice with a length has a value, and the loop never runs
    out of its [n_elements] passes ([parse_key_values_loop_returns]), so the
    two branches that say so are never taken. *)
Definition parse_key_values (junk : option (nat -> lwan_key_value_t))
           (m : mem) (helper_value : lwan_value_t) : kv_result :=
  if Nat.eqb (len helper_value) O then Unassigned Empty_slice m [] O
  else
    match coro_malloc junk n_elements with
    | None => Alloc_failed
    | Some kvs =>
        match value helper_value with
        | None => Unassigned End_of_input m kvs O
        | Some p =>
            match parse_key_values_loop n_elements m p kvs O with
            | Some r => r
            | None => Unassigned End_of_input m kvs O
            end
        end
    end.

End KeyValues.

Definition identity_decode (m : mem) (input : option ptr) : mem * nat := (m, 1%nat).

(** ** Requests and the parser helper *)

(** [lwan_request_flags_t]: one field per bit. *)
Record request_flags := mk_flags {
  REQUEST_METHOD_GET : bool;
  REQUEST_METHOD_HEAD : bool;
  REQUEST_METHOD_POST : bool;
  REQUEST_ACCEPT_DEFLATE : bool;
  REQUEST_ACCEPT_GZIP : bool;
  REQUEST_IS_HTTP_1_0 : bool;
  RESPONSE_URL_REWRITTEN : bool;
  REQUEST_ALLOW_PROXY_REQS : bool;
  REQUEST_PROXIED : bool
}.

Definition no_flags : request_flags :=
  mk_flags false false false false false false false false false.

(** [lwan_request_t], with the two connection flags the reader and the
    parser touch ([request->conn->flags]). *)
Record lwan_request_t := mk_request {
  flags : request_flags;
  url : lwan_value_t;
  original_url : lwan_value_t;
  query_params : kv_list;
  request_post_data : kv_list;
  cookies : kv_list;
  header_if_modified_since : Z;
  header_range_from : Z;
  header_range_to : Z;
  CONN_KEEP_ALIVE : bool;
  CONN_MUST_READ : bool
}.

Definition set_flags (f : request_flags) (r : lwan_request_t) : lwan_request_t :=
  mk_request f (url r) (original_url r) (query_params r) (request_post_data r)
             (cookies r) (header_if_modified_since r) (header_range_from r)
             (header_range_to r) (CONN_KEEP_ALIVE r) (CONN_MUST_READ r).
Definition set_url (v : lwan_value_t) (r : lwan_request_t) : lwan_request_t :=
  mk_request (flags r) v (original_url r) (query_params r) (request_post_data r)
             (cookies r) (header_if_modified_since r) (header_range_from r)
             (header_range_to r) (CONN_KEEP_ALIVE r) (CONN_MUST_READ r).
Definition set_original_url (v : lwan_value_t) (r : lwan_request_t) : lwan_request_t :=
  mk_request (flags r) (url r) v (query_params r) (request_post_data r)
             (cookies r) (header_if_modified_since r) (header_range_from r)
             (header_range_to r) (CONN_KEEP_ALIVE r) (CONN_MUST_READ r).
Definition set_query_params (l : kv_list) (r : lwan_request_t) : lwan_request_t :=
  mk_request (flags r) (url r) (original_url r) l (request_post_data r)
             (cookies r) (header_if_modified_since r) (header_range_from r)
             (header_range_to r) (CONN_KEEP_ALIVE r) (CONN_MUST_READ r).
Definition set_request_post_data (l : kv_list) (r : lwan_request_t) : lwan_request_t :=
  mk_request (flags r) (url r) (original_url r) (query_params r) l
             (cookies r) (header_if_modified_since r) (header_range_from r)
             (header_range_to r) (CONN_KEEP_ALIVE r) (CONN_MUST_READ r).
Definition set_cookies (l : kv_list) (r : lwan_request_t) : lwan_request_t :=
  mk_request (flags r) (url r) (original_url r) (query_params r)
             (request_post_data r) l (header_if_modified_since r)
             (header_range_from r) (header_range_to r) (CONN_KEEP_ALIVE r)
             (CONN_MUST_READ r).
Definition set_header_if_modified_since (t : Z) (r : lwan_request_t) : lwan_request_t :=
  mk_request (flags r) (url r) (original_url r) (query_params r)
             (request_post_data r) (cookies r) t (header_range_from r)
             (header_range_to r) (CONN_KEEP_ALIVE r) (CONN_MUST_READ r).
Definition set_header_range (from to : Z) (r : lwan_request_t) : lwan_request_t :=
  mk_request (flags r) (url r) (original_url r) (query_params r)
             (request_post_data r) (cookies r) (header_if_modified_since r)
             from to (CONN_KEEP_ALIVE r) (CONN_MUST_READ r).
Definition set_CONN_KEEP_ALIVE (b : bool) (r : lwan_request_t) : lwan_request_t :=
  mk_request (flags r) (url r) (original_url r) (query_params r)
             (request_post_data r) (cookies r) (header_if_modified_since r)
             (header_range_from r) (header_range_to r) b (CONN_MUST_READ r).
Definition set_CONN_MUST_READ (b : bool) (r : lwan_request_t) : lwan_request_t :=
  mk_request (flags r) (url r) (original_url r) (query_params r)
             (request_post_data r) (cookies r) (header_if_modified_since r)
             (header_range_from r) (header_range_to r) (CONN_KEEP_ALIVE r) b.

(** [struct request_parser_helper]. [helper->buffer] points to the caller's
    [lwan_value_t]; its [value] is offset 0 of the buffer and its [len] is
    [buffer_len] here. *)
Record request_parser_helper := mk_helper {
  buffer_len : nat;
  next_request : option ptr;
  accept_encoding : lwan_value_t;
  if_modified_since : lwan_value_t;
  range : lwan_value_t;
  cookie : lwan_value_t;
  query_string : lwan_value_t;
  fragment : lwan_value_t;
  content_length : lwan_value_t;
  post_data : lwan_value_t;
  content_type : lwan_value_t;
  authorization : lwan_value_t;
  urls_rewritten : Z;
  connection : Z
}.

Definition set_buffer_len (n : nat) (h : request_parser_helper) :=
  mk_helper n (next_request h) (accept_encoding h) (if_modified_since h) (range h)
            (cookie h) (query_string h) (fragment h) (content_length h)
            (post_data h) (content_type h) (authorization h) (urls_rewritten h)
            (connection h).
Definition set_next_request (p : option ptr) (h : request_parser_helper) :=
  mk_helper (buffer_len h) p (accept_encoding h) (if_modified_since h) (range h)
            (cookie h) (query_string h) (fragment h) (content_length h)
            (post_data h) (content_type h) (authorization h) (urls_rewritten h)
            (connection h).
Definition set_accept_encoding (v : lwan_value_t) (h : request_parser_helper) :=
  mk_helper (buffer_len h) (next_request h) v (if_modified_since h) (range h)
            (cookie h) (query_string h) (fragment h) (content_length h)
            (post_data h) (content_type h) (authorization h) (urls_rewritten h)
            (connection h).
Definition set_if_modified_since (v : lwan_value_t) (h : request_parser_helper) :=
  mk_helper (buffer_len h) (next_request h) (accept_encoding h) v (range h)
            (cookie h) (query_string h) (fragment h) (content_length h)
            (post_data h) (content_type h) (authorization h) (urls_rewritten h)
            (connection h).
Definition set_range (v : lwan_value_t) (h : request_parser_helper) :=
  mk_helper (buffer_len h) (next_request h) (accept_encoding h)
            (if_modified_since h) v (cookie h) (query_string h) (fragment h)
            (content_length h) (post_data h) (content_type h) (authorization h)
            (urls_rewritten h) (connection h).
Definition set_cookie (v : lwan_value_t) (h : request_parser_helper) :=
  mk_helper (buffer_len h) (next_request h) (accept_encoding h)
            (if_modified_since h) (range h) v (query_string h) (fragment h)
            (content_length h) (post_data h) (content_type h) (authorization h)
            (urls_rewritten h) (connection h).
Definition set_query_string (v : lwan_value_t) (h : request_parser_helper) :=
  mk_helper (buffer_len h) (next_request h) (accept_encoding h)
            (if_modified_since h) (range h) (cookie h) v (fragment h)
            (content_length h) (post_data h) (content_type h) (authorization h)
            (urls_rewritten h) (connection h).
Definition set_fragment (v : lwan_value_t) (h : request_parser_helper) :=
  mk_helper (buffer_len h) (next_request h) (accept_encoding h)
            (if_modified_since h) (range h) (cookie h) (query_string h) v
            (content_length h) (post_data h) (content_type h) (authorization h)
            (urls_rewritten h) (connection h).
Definition set_content_length (v : lwan_value_t) (h : request_parser_helper) :=
  mk_helper (buffer_len h) (next_request h) (accept_encoding h)
            (if_modified_since h) (range h) (cookie h) (query_string h)
            (fragment h) v (post_data h) (content_type h) (authorization h)
            (urls_rewritten h) (connection h).
Definition set_post_data (v : lwan_value_t) (h : request_parser_helper) :=
  mk_helper (buffer_len h) (next_request h) (accept_encoding h)
            (if_modified_since h) (range h) (cookie h) (query_string h)
            (fragment h) (content_length h) v (content_type h) (authorization h)
            (urls_rewritten h) (connection h).
Definition set_content_type (v : lwan_value_t) (h : request_parser_helper) :=
  mk_helper (buffer_len h) (next_request h) (accept_encoding h)
            (if_modified_since h) (range h) (cookie h) (query_string h)
            (fragment h) (content_length h) (post_data h) v (authorization h)
            (urls_rewritten h) (connection h).
Definition set_authorization (v : lwan_value_t) (h : request_parser_helper) :=
  mk_helper (buffer_len h) (next_request h) (accept_encoding h)
            (if_modified_since h) (range h) (cookie h) (query_string h)
            (fragment h) (content_length h) (post_data h) (content_type h) v
            (urls_rewritten h) (connection h).
Definition set_urls_rewritten (n : Z) (h : request_parser_helper) :=
  mk_helper (buffer_len h) (next_request h) (accept_encoding h)
            (if_modified_since h) (range h) (cookie h) (query_string h)
            (fragment h) (content_length h) (post_data h) (content_type h)
            (authorization h) n (connection h).
Definition set_connection (c : Z) (h : request_parser_helper) :=
  mk_helper (buffer_len h) (next_request h) (accept_encoding h)
            (if_modified_since h) (range h) (cookie h) (query_string h)
            (fragment h) (content_length h) (post_data h) (content_type h)
            (authorization h) (urls_rewritten h) c.

(** The helper [lwan_process_request] starts from: [buffer] and
    [next_request] given, every other field zero. *)
Definition new_helper (buffer_len : nat) (next_request : option ptr)
  : request_parser_helper :=
  mk_helper buffer_len next_request no_value no_value no_value no_value no_value
            no_value no_value no_value no_value no_value 0 NUL.

(** [lwan_http_status_t]. *)
Inductive lwan_http_status_t :=
| HTTP_OK
| HTTP_BAD_REQUEST
| HTTP_NOT_AUTHORIZED
| HTTP_NOT_FOUND
| HTTP_NOT_ALLOWED
| HTTP_TIMEOUT
| HTTP_TOO_LARGE
| HTTP_INTERNAL_ERROR
| HTTP_NOT_IMPLEMENTED
| HTTP_OTHER (code : Z).

Definition status_eqb (a b : lwan_http_status_t) : bool :=
  match a, b with
  | HTTP_OK, HTTP_OK | HTTP_BAD_REQUEST, HTTP_BAD_REQUEST
  | HTTP_NOT_AUTHORIZED, HTTP_NOT_AUTHORIZED | HTTP_NOT_FOUND, HTTP_NOT_FOUND
  | HTTP_NOT_ALLOWED, HTTP_NOT_ALLOWED | HTTP_TIMEOUT, HTTP_TIMEOUT
  | HTTP_TOO_LARGE, HTTP_TOO_LARGE | HTTP_INTERNAL_ERROR, HTTP_INTERNAL_ERROR
  | HTTP_NOT_IMPLEMENTED, HTTP_NOT_IMPLEMENTED => true
  | HTTP_OTHER x, HTTP_OTHER y => x =? y
  | _, _ => false
  end.

(** ** Method and request line *)

(** Modelled from the spec: [STRING_SWITCH], [STRING_SWITCH_L] and
    [STRING_SWITCH_SMALL] with their [MULTICHAR_CONSTANT]s come from lwan.h,
    which is not under src/. The spec gives them as one operation: compare
    the four (for the small one, two) bytes at [p] to the bytes of the tag. *)
Definition match_tag (m : mem) (p : ptr) (tag : string) : bool :=
  mem_equal m p (bytes tag).

Inductive http_method := GET | HEAD | POST.

(** The flag [get_http_method] returns; [None] is 0. *)
Definition get_http_method (m : mem) (buffer : ptr) : option http_method :=
  if match_tag m buffer "GET " then Some GET
  else if match_tag m buffer "HEAD" then Some HEAD
  else if match_tag m buffer "POST" then Some POST
  else None.

(** [request->flags |= flags]. *)
Definition or_method (f : request_flags) (meth : option http_method) : request_flags :=
  mk_flags (REQUEST_METHOD_GET f || match meth with Some GET => true | _ => false end)
           (REQUEST_METHOD_HEAD f || match meth with Some HEAD => true | _ => false end)
           (REQUEST_METHOD_POST f || match meth with Some POST => true | _ => false end)
           (REQUEST_ACCEPT_DEFLATE f) (REQUEST_ACCEPT_GZIP f) (REQUEST_IS_HTTP_1_0 f)
           (RESPONSE_URL_REWRITTEN f) (REQUEST_ALLOW_PROXY_REQS f) (REQUEST_PROXIED f).

(** The [sizes] table of [identify_http_method]. *)
Definition sizes (meth : option http_method) : nat :=
  match meth with
  | None => 0
  | Some GET => 4
  | Some HEAD => 5
  | Some POST => 5
  end.

Definition identify_http_method (request : lwan_request_t) (m : mem) (buffer : ptr)
  : lwan_request_t * ptr :=
  let meth := get_http_method m buffer in
  (set_flags (or_method (flags request) meth) request, (buffer + sizes meth)%nat).

Definition set_REQUEST_IS_HTTP_1_0 (f : request_flags) : request_flags :=
  mk_flags (REQUEST_METHOD_GET f) (REQUEST_METHOD_HEAD f) (REQUEST_METHOD_POST f)
           (REQUEST_ACCEPT_DEFLATE f) (REQUEST_ACCEPT_GZIP f) true
           (RESPONSE_URL_REWRITTEN f) (REQUEST_ALLOW_PROXY_REQS f) (REQUEST_PROXIED f).

(** [space] is the [const char *] the caller hands in: one past the URL. *)
Definition parse_fragment_and_query (request : lwan_request_t)
           (helper : request_parser_helper) (m : mem) (space : ptr)
  : lwan_request_t * request_parser_helper * mem :=
  match value (url request) with
  | None => (request, helper, m)
  | Some u =>
      let frag := memrchr m u (chr "#") (len (url request)) in
      let '(request, helper, m) :=
        match frag with
        | Some f =>
            let flen := (space - f - 1)%nat in
            (set_url (mk_value (Some u) (len (url request) - (flen + 1))%nat) request,
             set_fragment (mk_value (Some (S f)) flen) helper,
             store m f NUL)
        | None => (request, helper, m)
        end in
      match memchr m u (chr "?") (len (url request)) with
      | Some q =>
          let qlen := ((match frag with Some f => f | None => space end) - q - 1)%nat in
          (set_url (mk_value (Some u) (len (url request) - (qlen + 1))%nat) request,
           set_query_string (mk_value (Some (S q)) qlen) helper,
           store m q NUL)
      | None => (request, helper, m)
      end
  end.

(** [sizeof("/ HTTP/1.0") - 1]. *)
Definition minimal_request_line_len : nat := 10.

(** [sizeof("HTTP/X.X")]: eight characters and the terminating NUL. *)
Definition sizeof_HTTP_X_X : nat := 9.

(** [identify_http_path]. The request and the buffer are given back also when
    the result is NULL: the stores made before the failing test stay. The
    count handed to [memchr] is [buffer->len] minus the offset of the cursor,
    subtracted in [size_t]: with the cursor behind the bytes read it wraps
    around, and the scan goes on into what lies behind them. *)
Definition identify_http_path (request : lwan_request_t) (m : mem) (buffer : ptr)
           (helper : request_parser_helper)
  : lwan_request_t * request_parser_helper * mem * option ptr :=
  match memchr_size_t m buffer CR
                      (size_t_of (Z.of_nat (buffer_len helper) - Z.of_nat buffer)) with
  | None => (request, helper, m, None)
  | Some end_of_line =>
      if (end_of_line - buffer <? minimal_request_line_len)%nat
      then (request, helper, m, None)
      else
        let m := store m end_of_line NUL in
        let space := (end_of_line - sizeof_HTTP_X_X)%nat in
        if negb (load m (space + 1)%nat =? chr "H") then (request, helper, m, None)
        else
          let m := store m space NUL in
          if negb (load m (space + 6)%nat =? chr "1") then (request, helper, m, None)
          else
            let request :=
              if load m (space + 8)%nat =? chr "0"
              then set_flags (set_REQUEST_IS_HTTP_1_0 (flags request)) request
              else request in
            if negb (load m buffer =? chr "/") then (request, helper, m, None)
            else
              let request :=
                set_url (mk_value (Some buffer) (space - buffer)%nat) request in
              let '(request, helper, m) :=
                parse_fragment_and_query request helper m space in
              (set_original_url (url request) request, helper, m,
               Some (S end_of_line))
  end.

(** ** Header block *)

(** How the [MATCH_HEADER] macro leaves: [return NULL], [goto did_not_match],
    or falling into the case body with [value] and [length] set. *)
Inductive match_header_result :=
| Match_return_null
| Match_did_not_match (m : mem) (p : ptr)
| Matched (m : mem) (p : ptr) (value : ptr) (length : nat).

Definition MATCH_HEADER (m : mem) (p buffer_end : ptr) (hdr : string)
  : match_header_result :=
  let p := (p + String.length hdr)%nat in
  if (buffer_end <=? p)%nat then Match_return_null
  else if negb (match_tag m p ": ") then Match_did_not_match m p
  else
    let p := (p + 2)%nat in
    match strchr m p CR with
    | None => Match_did_not_match m p
    | Some e =>
        let m := store m e NUL in
        let p' := S e in
        if negb (load m p' =? LF) then Match_did_not_match m p'
        else Matched m p' p (e - p)%nat
    end.

(** The cases of the [STRING_SWITCH_L] in [parse_headers]. *)
Inductive header_case :=
| HTTP_HDR_ENCODING
| HTTP_HDR_TYPE
| HTTP_HDR_LENGTH
| HTTP_HDR_ACCEPT
| HTTP_HDR_AUTHORIZATION
| HTTP_HDR_CONNECTION
| HTTP_HDR_CONTENT
| HTTP_HDR_COOKIE
| HTTP_HDR_IF_MODIFIED_SINCE
| HTTP_HDR_RANGE.

Definition header_switch (m : mem) (p : ptr) : option header_case :=
  if match_tag m p "-Enc" then Some HTTP_HDR_ENCODING
  else if match_tag m p "-Len" then Some HTTP_HDR_LENGTH
  else if match_tag m p "-Typ" then Some HTTP_HDR_TYPE
  else if match_tag m p "Acce" then Some HTTP_HDR_ACCEPT
  else if match_tag m p "Auth" then Some HTTP_HDR_AUTHORIZATION
  else if match_tag m p "Conn" then Some HTTP_HDR_CONNECTION
  else if match_tag m p "Cont" then Some HTTP_HDR_CONTENT
  else if match_tag m p "Cook" then Some HTTP_HDR_COOKIE
  else if match_tag m p "If-M" then Some HTTP_HDR_IF_MODIFIED_SINCE
  else if match_tag m p "Rang" then Some HTTP_HDR_RANGE
  else None.

(** The header name a [CASE_HEADER] case hands to [MATCH_HEADER]. *)
Definition header_name (c : header_case) : string :=
  match c with
  | HTTP_HDR_ENCODING => "-Encoding"
  | HTTP_HDR_TYPE => "-Type"
  | HTTP_HDR_LENGTH => "-Length"
  | HTTP_HDR_ACCEPT => "Accept"
  | HTTP_HDR_AUTHORIZATION => "Authorization"
  | HTTP_HDR_CONNECTION => "Connection"
  | HTTP_HDR_CONTENT => "Content"
  | HTTP_HDR_COOKIE => "Cookie"
  | HTTP_HDR_IF_MODIFIED_SINCE => "If-Modified-Since"
  | HTTP_HDR_RANGE => "Range"
  end.

(** The body of a [CASE_HEADER] case, run once the header matched. *)
Definition header_assign (c : header_case) (m : mem) (v : ptr) (length : nat)
           (helper : request_parser_helper) : request_parser_helper :=
  let slice := mk_value (Some v) length in
  match c with
  | HTTP_HDR_ENCODING => set_accept_encoding slice helper
  | HTTP_HDR_TYPE => set_content_type slice helper
  | HTTP_HDR_LENGTH => set_content_length slice helper
  | HTTP_HDR_AUTHORIZATION => set_authorization slice helper
  | HTTP_HDR_CONNECTION => set_connection (Z.lor (load m v) 32) helper
  | HTTP_HDR_COOKIE => set_cookie slice helper
  | HTTP_HDR_IF_MODIFIED_SINCE => set_if_modified_since slice helper
  | HTTP_HDR_RANGE => set_range slice helper
  | HTTP_HDR_ACCEPT | HTTP_HDR_CONTENT => helper
  end.

(** [parse_headers] from its [retry] label on, with [buffer] the start of the
    line being looked at. A pass either moves [p] forward or leaves the
    function, so the distance to [buffer_end] bounds the passes. The count
    of the [memchr] at [did_not_match] is the [size_t] it is in the code. *)
Fixpoint parse_headers_retry (fuel : nat) (helper : request_parser_helper)
         (m : mem) (buffer p buffer_end : ptr)
  : option (request_parser_helper * mem * option ptr) :=
  match fuel with
  | O => None
  | S fuel' =>
      (* did_not_match: and the loop's increment and test *)
      let did_not_match helper m p :=
        match memchr_size_t m p LF (size_t_of (Z.of_nat buffer_end - Z.of_nat p)) with
        | None => Some (helper, m, Some buffer)
        | Some q =>
            let p := S q in
            if load m p =? NUL then Some (helper, m, Some p)
            else parse_headers_retry fuel' helper m p p buffer_end
        end in
      if (buffer_end <=? p + 4)%nat then Some (helper, m, Some buffer)
      else if match_tag m p (String "013" (String "010" EmptyString))
      then Some (set_next_request (Some (p + 2)%nat) helper, store m p NUL, Some p)
      else
        match header_switch m p with
        | None => did_not_match helper m p
        | Some HTTP_HDR_ACCEPT =>
            parse_headers_retry fuel' helper m buffer
                                (p + String.length (header_name HTTP_HDR_ACCEPT))%nat
                                buffer_end
        | Some HTTP_HDR_CONTENT =>
            parse_headers_retry fuel' helper m buffer
                                (p + String.length (header_name HTTP_HDR_CONTENT))%nat
                                buffer_end
        | Some c =>
            match MATCH_HEADER m p buffer_end (header_name c) with
            | Match_return_null => Some (helper, m, None)
            | Match_did_not_match m p => did_not_match helper m p
            | Matched m p v length =>
                did_not_match (header_assign c m v length helper) m p
            end
        end
  end.

(** [parse_headers(helper, buffer, buffer_end)]: the [for] loop's first test
    of [*p], then the loop, which never runs out of the fuel given here
    ([parse_headers_retry_returns]). *)
Definition parse_headers (helper : request_parser_helper) (m : mem)
           (buffer buffer_end : ptr)
  : request_parser_helper * mem * option ptr :=
  if load m buffer =? NUL then (helper, m, Some buffer)
  else
    match parse_headers_retry (S (S buffer_end)) helper m buffer buffer buffer_end with
    | Some r => r
    | None => (helper, m, Some buffer)
    end.

(** ** Whitespace and keep-alive *)

Definition uint32 (v : Z) : Z := v mod 2 ^ 32.

Definition has_zero_byte (n : Z) : Z :=
  Z.land (Z.land (uint32 (n - 16843009)) (uint32 (Z.lnot n))) 2155905152.

Definition is_space (b : Z) : Z :=
  has_zero_byte (Z.lxor (uint32 (16843009 * uint32 (schar b))) 151653664).

Fixpoint leading_whitespace (l : list Z) : nat :=
  match l with
  | [] => O
  | b :: t =>
      if negb (b =? NUL) && negb (is_space b =? 0) then S (leading_whitespace t)
      else O
  end.

Definition ignore_leading_whitespace (m : mem) (buffer : ptr) : ptr :=
  (buffer + leading_whitespace (skipn buffer m))%nat.

Definition compute_keep_alive_flag (request : lwan_request_t)
           (helper : request_parser_helper) : lwan_request_t :=
  let is_keep_alive :=
    if REQUEST_IS_HTTP_1_0 (flags request)
    then connection helper =? chr "k"
    else negb (connection helper =? chr "c") in
  set_CONN_KEEP_ALIVE is_keep_alive request.

(** ** Socket reader *)

(** Modelled from the spec: [DEFAULT_BUFFER_SIZE] is defined in lwan.h, which
    is not under src/; the spec gives the buffer as typically 4 KiB. *)
Definition DEFAULT_BUFFER_SIZE : nat := 4096.

Inductive lwan_read_finalizer_t :=
| FINALIZER_DONE
| FINALIZER_TRY_AGAIN
| FINALIZER_YIELD_TRY_AGAIN
| FINALIZER_ERROR_TOO_LARGE.

Definition CRLFCRLF : list Z := [CR; LF; CR; LF].
Definition CRLFCR : list Z := [CR; LF; CR].

Definition is_POST (meth : option http_method) : bool :=
  match meth with Some POST => true | _ => false end.

Definition read_request_finalizer (total_read buffer_size : nat)
           (helper : request_parser_helper) (m : mem)
  : request_parser_helper * lwan_read_finalizer_t :=
  if (total_read <? 4)%nat then (helper, FINALIZER_YIELD_TRY_AGAIN)
  else if (total_read =? buffer_size)%nat then (helper, FINALIZER_ERROR_TOO_LARGE)
  else
    match next_request helper with
    | Some _ => (set_next_request None helper, FINALIZER_DONE)
    | None =>
        if mem_equal m (total_read - 4)%nat CRLFCRLF then (helper, FINALIZER_DONE)
        else if is_POST (get_http_method m 0%nat)
        then
          match strrchr m 0%nat LF with
          | Some post_data_separator =>
              if mem_equal m (post_data_separator - 3)%nat CRLFCR
              then (helper, FINALIZER_DONE)
              else (helper, FINALIZER_TRY_AGAIN)
          | None => (helper, FINALIZER_TRY_AGAIN)
          end
        else (helper, FINALIZER_TRY_AGAIN)
    end.

(** What one [read(fd, ...)] finds on the socket. *)
Inductive read_result :=
| Read_data (bs : list Z)   (* bytes waiting; [n] is how many of them fit *)
| Read_shutdown             (* n == 0 *)
| Read_again                (* n < 0, errno EAGAIN or EINTR *)
| Read_error.               (* n < 0, any other errno *)

(** What the driver does that the outside can see. *)
Inductive event :=
| Ev_yield                                  (* coro_yield(..., CONN_CORO_MAY_RESUME) *)
| Ev_default_response (s : lwan_http_status_t) (* lwan_default_response *)
| Ev_response (s : lwan_http_status_t)       (* lwan_response *)
| Ev_lookup (url_value : option ptr)        (* lwan_trie_lookup_prefix *)
| Ev_handler.                               (* url_map->handler(...) *)

(** The state the reader threads: the request, the helper, the buffer, what
    is still to come from the socket, and the events so far (newest first). *)
Record reader_state := mk_reader {
  rd_request : lwan_request_t;
  rd_helper : request_parser_helper;
  rd_mem : mem;
  rd_socket : list read_result;
  rd_events : list event
}.

Section Reader.

Variable finalizer :
  nat -> nat -> request_parser_helper -> mem ->
  request_parser_helper * lwan_read_finalizer_t.

Variable buffer_size : nat.

(** From [try_to_finalize:] to the end of the loop body; [continue] is the
    rest of the [for] loop after its [packets_remaining--]. *)
Definition try_to_finalize
           (continue : reader_state -> nat -> outcome (reader_state * lwan_http_status_t))
           (s : reader_state) (total_read : nat)
  : outcome (reader_state * lwan_http_status_t) :=
  let '(helper, verdict) := finalizer total_read buffer_size (rd_helper s) (rd_mem s) in
  match verdict with
  | FINALIZER_DONE =>
      Returns (mk_reader (set_CONN_MUST_READ false (rd_request s)) helper
                         (store (rd_mem s) (buffer_len helper) NUL)
                         (rd_socket s) (rd_events s),
               HTTP_OK)
  | FINALIZER_TRY_AGAIN =>
      continue (mk_reader (rd_request s) helper (rd_mem s) (rd_socket s)
                          (rd_events s)) total_read
  | FINALIZER_YIELD_TRY_AGAIN =>
      continue (mk_reader (set_CONN_MUST_READ true (rd_request s)) helper
                          (rd_mem s) (rd_socket s) (Ev_yield :: rd_events s))
               total_read
  | FINALIZER_ERROR_TOO_LARGE =>
      Returns (mk_reader (rd_request s) helper (rd_mem s) (rd_socket s)
                         (rd_events s),
               HTTP_TOO_LARGE)
  end.

(** The [for (; packets_remaining > 0; packets_remaining--)] loop. A socket
    with nothing more to say has been shut down. *)
Fixpoint read_loop (packets_remaining : nat) (s : reader_state) (total_read : nat)
  : outcome (reader_state * lwan_http_status_t) :=
  match packets_remaining with
  | O => Returns (s, HTTP_TIMEOUT)
  | S packets_remaining' =>
      let continue := read_loop packets_remaining' in
      let room := (buffer_size - total_read)%nat in
      match rd_socket s with
      | [] | Read_shutdown :: _ => Coro_abort
      | Read_again :: rest =>
          continue (mk_reader (set_CONN_MUST_READ true (rd_request s))
                              (rd_helper s) (rd_mem s) rest
                              (Ev_yield :: rd_events s))
                   total_read
      | Read_error :: rest =>
          if (total_read =? 0)%nat
          then Returns (mk_reader (rd_request s) (rd_helper s) (rd_mem s) rest
                                  (rd_events s),
                        HTTP_BAD_REQUEST)
          else Coro_abort
      | Read_data bs :: rest =>
          let got := firstn room bs in
          match got with
          | [] => Coro_abort
          | _ :: _ =>
              let rest :=
                match skipn room bs with
                | [] => rest
                | more => Read_data more :: rest
                end in
              let total_read' := (total_read + length got)%nat in
              try_to_finalize continue
                (mk_reader (rd_request s)
                           (set_buffer_len total_read' (rd_helper s))
                           (store_bytes (rd_mem s) total_read got)
                           rest (rd_events s))
                total_read'
          end
      end
  end.

Definition read_from_request_socket (s : reader_state)
  : outcome (reader_state * lwan_http_status_t) :=
  match next_request (rd_helper s) with
  | Some nr =>
      let blen := (buffer_len (rd_helper s) - nr)%nat in
      let s := mk_reader (rd_request s) (set_buffer_len blen (rd_helper s))
                         (store_bytes (rd_mem s) 0%nat (firstn blen (skipn nr (rd_mem s))))
                         (rd_socket s) (rd_events s) in
      try_to_finalize (read_loop 15) s blen
  | None => read_loop 16 s 0
  end.

End Reader.

Definition read_request (s : reader_state) : outcome (reader_state * lwan_http_status_t) :=
  read_from_request_socket read_request_finalizer DEFAULT_BUFFER_SIZE s.

(** ** Body reader *)

Section Body.

(** [parse_long(value, default)] of lwan-config.c, which is not under
    src/: handed the C string at [value]. *)
Variable parse_long : list Z -> Z -> Z.

(** [have] in [read_post_data]. *)
Definition post_data_have (helper : request_parser_helper) (nr : ptr) : Z :=
  size_t_of (Z.of_nat (buffer_len helper) - Z.of_nat nr).

Definition read_post_data (helper : request_parser_helper) (m : mem)
  : request_parser_helper * lwan_http_status_t :=
  match next_request helper with
  | None => (helper, HTTP_BAD_REQUEST)
  | Some nr =>
      match value (content_length helper) with
      | None => (helper, HTTP_BAD_REQUEST)
      | Some cl =>
          let parsed_length :=
            parse_long (cstr m cl) (Z.of_nat DEFAULT_BUFFER_SIZE) in
          if parsed_length >? Z.of_nat DEFAULT_BUFFER_SIZE
          then (helper, HTTP_TOO_LARGE)
          else if parsed_length <? 0 then (helper, HTTP_BAD_REQUEST)
          else
            let post_data_size := size_t_of parsed_length in
            let have := post_data_have helper nr in
            if have =? post_data_size
            then (set_next_request (Some (nr + Z.to_nat post_data_size)%nat)
                    (set_post_data (mk_value (Some nr) (Z.to_nat post_data_size))
                                   helper),
                  HTTP_OK)
            else if post_data_size >? have then (helper, HTTP_TOO_LARGE)
            else (helper, HTTP_NOT_IMPLEMENTED)
      end
  end.

(** [parse_proxy_protocol] with its v1 and v2 readers: they fill
    [request->proxy] through [inet_pton] and the wire layout of the
    preamble, which no property below looks at; the parser only needs the
    cursor they give back (NULL for a bad preamble) and the request. *)
Variable parse_proxy_protocol :
  lwan_request_t -> mem -> ptr -> lwan_request_t * mem * option ptr.

Definition parse_http_request (request : lwan_request_t)
           (helper : request_parser_helper) (m : mem)
  : lwan_request_t * request_parser_helper * mem * lwan_http_status_t :=
  let buffer := 0%nat in
  let '(request, m, buffer) :=
    if REQUEST_ALLOW_PROXY_REQS (flags request)
    then parse_proxy_protocol request m buffer
    else (request, m, Some buffer) in
  match buffer with
  | None => (request, helper, m, HTTP_BAD_REQUEST)
  | Some buffer =>
      let buffer := ignore_leading_whitespace m buffer in
      let '(request, path) := identify_http_method request m buffer in
      if (buffer =? path)%nat
      then
        if load m buffer =? NUL then (request, helper, m, HTTP_BAD_REQUEST)
        else (request, helper, m, HTTP_NOT_ALLOWED)
      else
        let '(request, helper, m, buffer) := identify_http_path request m path helper in
        match buffer with
        | None => (request, helper, m, HTTP_BAD_REQUEST)
        | Some buffer =>
            let '(helper, m, buffer) :=
              parse_headers helper m buffer (buffer_len helper) in
            match buffer with
            | None => (request, helper, m, HTTP_BAD_REQUEST)
            | Some _ =>
                let '(m, decoded_len) := url_decode m (value (url request)) in
                if (decoded_len =? 0)%nat
                then (request, helper, m, HTTP_BAD_REQUEST)
                else
                  let request :=
                    set_url (mk_value (value (url request)) decoded_len) request in
                  let request :=
                    set_original_url
                      (mk_value (value (original_url request)) decoded_len) request in
                  let request := compute_keep_alive_flag request helper in
                  if REQUEST_METHOD_POST (flags request)
                  then
                    let '(helper, status) := read_post_data helper m in
                    (request, helper, m, status)
                  else (request, helper, m, HTTP_OK)
            end
        end
  end.

End Body.

(** ** Semantic post-parsers *)

(** [lwan_handler_flags_t]: one field per bit. *)
Record handler_flags := mk_handler_flags {
  HANDLER_PARSE_QUERY_STRING : bool;
  HANDLER_PARSE_IF_MODIFIED_SINCE : bool;
  HANDLER_PARSE_RANGE : bool;
  HANDLER_PARSE_ACCEPT_ENCODING : bool;
  HANDLER_PARSE_COOKIES : bool;
  HANDLER_PARSE_POST_DATA : bool;
  HANDLER_MUST_AUTHORIZE : bool;
  HANDLER_REMOVE_LEADING_SLASH : bool;
  HANDLER_CAN_REWRITE_URL : bool
}.

(** [lwan_url_map_t]. A handler is handed the request and may change it and
    the bytes it points to; it answers with a status. [map_id] stands for the
    fields only the handler and the authorizer read ([data], [authorization]). *)
Record lwan_url_map_t := mk_url_map {
  handler : lwan_request_t -> mem -> lwan_http_status_t * lwan_request_t * mem;
  prefix_len : nat;
  map_flags : handler_flags;
  map_id : nat
}.

Definition set_accept (deflate gzip : bool) (f : request_flags) : request_flags :=
  mk_flags (REQUEST_METHOD_GET f) (REQUEST_METHOD_HEAD f) (REQUEST_METHOD_POST f)
           (REQUEST_ACCEPT_DEFLATE f || deflate) (REQUEST_ACCEPT_GZIP f || gzip)
           (REQUEST_IS_HTTP_1_0 f) (RESPONSE_URL_REWRITTEN f)
           (REQUEST_ALLOW_PROXY_REQS f) (REQUEST_PROXIED f).

Definition set_RESPONSE_URL_REWRITTEN (b : bool) (f : request_flags) : request_flags :=
  mk_flags (REQUEST_METHOD_GET f) (REQUEST_METHOD_HEAD f) (REQUEST_METHOD_POST f)
           (REQUEST_ACCEPT_DEFLATE f) (REQUEST_ACCEPT_GZIP f) (REQUEST_IS_HTTP_1_0 f)
           b (REQUEST_ALLOW_PROXY_REQS f) (REQUEST_PROXIED f).

Fixpoint parse_accept_encoding_loop (fuel : nat) (f : request_flags) (m : mem) (p : ptr)
  : request_flags :=
  match fuel with
  | O => f
  | S fuel' =>
      if load m p =? NUL then f
      else
        let f :=
          if match_tag m p "defl" || match_tag m p " def" then set_accept true false f
          else if match_tag m p "gzip" || match_tag m p " gzi" then set_accept false true f
          else f in
        match strchr m p (chr ",") with
        | None => f
        | Some q => parse_accept_encoding_loop fuel' f m (S q)
        end
  end.

Definition parse_accept_encoding (request : lwan_request_t)
           (helper : request_parser_helper) (m : mem) : lwan_request_t :=
  if (len (accept_encoding helper) =? 0)%nat then request
  else
    match value (accept_encoding helper) with
    | None => request
    | Some p =>
        set_flags (parse_accept_encoding_loop (S (length m)) (flags request) m p) request
    end.

(** [while ( *url.value == '/' && url.len > 0)]: how many passes it makes. *)
Fixpoint leading_slashes (l : list Z) (n : nat) : nat :=
  match l, n with
  | b :: t, S n' => if b =? chr "/" then S (leading_slashes t n') else O
  | _, _ => O
  end.

(** A stable insertion sort: one [qsort] to run the model with. *)
Fixpoint sort_insert (cmp : lwan_key_value_t -> lwan_key_value_t -> Z)
         (e : lwan_key_value_t) (l : list lwan_key_value_t) : list lwan_key_value_t :=
  match l with
  | [] => [e]
  | h :: t => if cmp e h <? 0 then e :: l else h :: sort_insert cmp e t
  end.

Definition insertion_sort (cmp : lwan_key_value_t -> lwan_key_value_t -> Z)
           (l : list lwan_key_value_t) : list lwan_key_value_t :=
  fold_right (sort_insert cmp) [] l.

(** How [lwan_process_request] ends: it returns a pointer, or the coroutine
    is aborted (after [lwan_default_response] with the given status, when
    there is one), or a block was overrun. *)
Inductive process_result :=
| Process_returns (s : reader_state) (next : option ptr)
| Process_aborts (responded : option lwan_http_status_t)
| Process_undefined.

Section Driver.

Variable qsort :
  (lwan_key_value_t -> lwan_key_value_t -> Z) ->
  list lwan_key_value_t -> list lwan_key_value_t.

(** What the allocator leaves in a block it hands out; [None] when
    [coro_malloc] gives NULL. *)
Variable junk : option (nat -> lwan_key_value_t).

Variable parse_long : list Z -> Z -> Z.

Variable parse_proxy_protocol :
  lwan_request_t -> mem -> ptr -> lwan_request_t * mem * option ptr.

(** [strptime(s, "%a, %d %b %Y %H:%M:%S GMT", &t)]: NULL, or the number of
    bytes it processed with [timegm(&t)]. *)
Variable strptime_timegm : list Z -> option (nat * Z).

(** The three [sscanf] calls of [parse_range], when they convert every
    field of their format. *)
Variable sscanf_from_to : list Z -> option (Z * Z).
Variable sscanf_to : list Z -> option Z.
Variable sscanf_from : list Z -> option Z.

(** [lwan_http_authorize] of lwan-http-authorize.c. *)
Variable lwan_http_authorize :
  lwan_request_t -> lwan_value_t -> mem -> lwan_url_map_t -> bool.

(** [lwan_trie_lookup_prefix(&l->url_map_trie, key)]. *)
Variable lwan_trie_lookup_prefix : mem -> option ptr -> option lwan_url_map_t.

(** The tail every caller of [parse_key_values] shares: the two
    assignments through [base] and [len], made only on the last path. *)
Definition assign_kv_list (set : kv_list -> lwan_request_t -> lwan_request_t)
           (request : lwan_request_t) (r : kv_result)
  : outcome (lwan_request_t * mem) :=
  match r with
  | Unassigned _ m _ _ => Returns (request, m)
  | Assigned m kvs values => Returns (set (mk_kv_list (Some kvs) values) request, m)
  | Alloc_failed => Coro_abort
  | Overrun _ => Out_of_bounds
  end.

Definition parse_cookies (request : lwan_request_t) (helper : request_parser_helper)
           (m : mem) : outcome (lwan_request_t * mem) :=
  assign_kv_list set_cookies request
    (parse_key_values qsort identity_decode (chr ";") junk m (cookie helper)).

Definition parse_query_string (request : lwan_request_t)
           (helper : request_parser_helper) (m : mem)
  : outcome (lwan_request_t * mem) :=
  assign_kv_list set_query_params request
    (parse_key_values qsort url_decode (chr "&") junk m (query_string helper)).

Definition form_content_type : string := "application/x-www-form-urlencoded".

Definition parse_post_data (request : lwan_request_t)
           (helper : request_parser_helper) (m : mem)
  : outcome (lwan_request_t * mem) :=
  if negb (len (content_type helper) =? String.length form_content_type)%nat
  then Returns (request, m)
  else
    match value (content_type helper) with
    | None => Returns (request, m)
    | Some ct =>
        if negb (strcmp_l (cstr m ct) (bytes form_content_type) =? 0)
        then Returns (request, m)
        else
          assign_kv_list set_request_post_data request
            (parse_key_values qsort url_decode (chr "&") junk m (post_data helper))
    end.

Definition parse_if_modified_since (request : lwan_request_t)
           (helper : request_parser_helper) (m : mem) : lwan_request_t :=
  if (len (if_modified_since helper) =? 0)%nat then request
  else
    match value (if_modified_since helper) with
    | None => request
    | Some p =>
        match strptime_timegm (cstr m p) with
        | None => request
        | Some (processed, t) =>
            if negb (load m (p + processed)%nat =? NUL) then request
            else set_header_if_modified_since t request
        end
    end.

Definition parse_range (request : lwan_request_t) (helper : request_parser_helper)
           (m : mem) : lwan_request_t :=
  if (len (range helper) <=? String.length "bytes=")%nat then request
  else
    match value (range helper) with
    | None => request
    | Some p =>
        if negb (strncmp_l (cstr m p) (bytes "bytes=") (String.length "bytes=") =? 0)
        then request
        else
          let r := cstr m (p + String.length "bytes=")%nat in
          match sscanf_from_to r with
          | Some (from, to) => set_header_range from to request
          | None =>
              match sscanf_to r with
              | Some to => set_header_range 0 to request
              | None =>
                  match sscanf_from r with
                  | Some from => set_header_range from (-1) request
                  | None => set_header_range (-1) (-1) request
                  end
              end
          end
    end.

Definition prepare_for_response (url_map : lwan_url_map_t) (request : lwan_request_t)
           (helper : request_parser_helper) (m : mem)
  : outcome (lwan_request_t * mem * lwan_http_status_t) :=
  let f := map_flags url_map in
  let request :=
    set_url (mk_value (option_map (fun p => (p + prefix_len url_map)%nat)
                                  (value (url request)))
                      (len (url request) - prefix_len url_map)%nat)
            request in
  match (if HANDLER_PARSE_QUERY_STRING f then parse_query_string request helper m
         else Returns (request, m)) with
  | Coro_abort => Coro_abort
  | Out_of_bounds => Out_of_bounds
  | Returns (request, m) =>
      let request :=
        if HANDLER_PARSE_IF_MODIFIED_SINCE f
        then parse_if_modified_since request helper m else request in
      let request :=
        if HANDLER_PARSE_RANGE f then parse_range request helper m else request in
      let request :=
        if HANDLER_PARSE_ACCEPT_ENCODING f
        then parse_accept_encoding request helper m else request in
      match (if HANDLER_PARSE_COOKIES f then parse_cookies request helper m
             else Returns (request, m)) with
      | Coro_abort => Coro_abort
      | Out_of_bounds => Out_of_bounds
      | Returns (request, m) =>
          let after_post :=
            if REQUEST_METHOD_POST (flags request)
            then
              if HANDLER_PARSE_POST_DATA f
              then
                match parse_post_data request helper m with
                | Returns rm => Returns (rm, true)
                | Coro_abort => Coro_abort
                | Out_of_bounds => Out_of_bounds
                end
              else Returns ((request, m), false)
            else Returns ((request, m), true) in
          match after_post with
          | Coro_abort => Coro_abort
          | Out_of_bounds => Out_of_bounds
          | Returns ((request, m), false) => Returns (request, m, HTTP_NOT_ALLOWED)
          | Returns ((request, m), true) =>
              if HANDLER_MUST_AUTHORIZE f
                 && negb (lwan_http_authorize request (authorization helper) m url_map)
              then Returns (request, m, HTTP_NOT_AUTHORIZED)
              else
                let request :=
                  if HANDLER_REMOVE_LEADING_SLASH f
                  then
                    match value (url request) with
                    | None => request
                    | Some u =>
                        let k := leading_slashes (skipn u m) (len (url request)) in
                        set_url (mk_value (Some (u + k)%nat) (len (url request) - k)%nat)
                                request
                    end
                  else request in
                Returns (request, m, HTTP_OK)
          end
      end
  end.

(** ** Dispatch driver *)

Definition handle_rewrite (s : reader_state) : reader_state * bool :=
  let request :=
    set_flags (set_RESPONSE_URL_REWRITTEN false (flags (rd_request s))) (rd_request s) in
  let space :=
    (match value (url request) with Some u => u | None => O end
     + len (url request))%nat in
  let '(request, helper, m) :=
    parse_fragment_and_query request (rd_helper s) (rd_mem s) space in
  let helper := set_urls_rewritten (urls_rewritten helper + 1) helper in
  if urls_rewritten helper >? 4
  then (mk_reader request helper m (rd_socket s)
                  (Ev_default_response HTTP_INTERNAL_ERROR :: rd_events s),
        false)
  else (mk_reader request helper m (rd_socket s) (rd_events s), true).

Definition emit (e : event) (s : reader_state) : reader_state :=
  mk_reader (rd_request s) (rd_helper s) (rd_mem s) (rd_socket s) (e :: rd_events s).

(** [lwan_process_request] from its [lookup_again:] label to [out:]. A pass
    ends at [out:] or in [handle_rewrite], which counts it. *)
Fixpoint lookup_again (fuel : nat) (s : reader_state) : option (outcome reader_state) :=
  match fuel with
  | O => None
  | S fuel' =>
      let s := emit (Ev_lookup (value (url (rd_request s)))) s in
      match lwan_trie_lookup_prefix (rd_mem s) (value (url (rd_request s))) with
      | None => Some (Returns (emit (Ev_default_response HTTP_NOT_FOUND) s))
      | Some url_map =>
          match prepare_for_response url_map (rd_request s) (rd_helper s) (rd_mem s) with
          | Coro_abort => Some Coro_abort
          | Out_of_bounds => Some Out_of_bounds
          | Returns (request, m, status) =>
              let s := mk_reader request (rd_helper s) m (rd_socket s) (rd_events s) in
              if negb (status_eqb status HTTP_OK)
              then Some (Returns (emit (Ev_default_response status) s))
              else
                let '(status, request, m) := handler url_map request m in
                let s := mk_reader request (rd_helper s) m (rd_socket s)
                                   (Ev_handler :: rd_events s) in
                if HANDLER_CAN_REWRITE_URL (map_flags url_map)
                   && RESPONSE_URL_REWRITTEN (flags request)
                then
                  let '(s, again) := handle_rewrite s in
                  if again then lookup_again fuel' s else Some (Returns s)
                else Some (Returns (emit (Ev_response status) s))
          end
      end
  end.

(** [lwan_process_request(l, request, buffer, next_request)]: the state it
    leaves and the pointer it returns. [buffer_length] is [buffer->len],
    [pipelined] the [next_request] argument and [socket] what the
    connection will deliver. The rewrite counter lets [lookup_again] make five passes
    at most. *)
Definition lwan_process_request (request : lwan_request_t) (m : mem)
           (buffer_length : nat) (pipelined : option ptr) (socket : list read_result)
  : option process_result :=
  let out s := Process_returns s (next_request (rd_helper s)) in
  let s := mk_reader request (new_helper buffer_length pipelined) m socket [] in
  match read_request s with
  | Coro_abort => Some (Process_aborts None)
  | Out_of_bounds => Some Process_undefined
  | Returns (s, status) =>
      if negb (status_eqb status HTTP_OK)
      then
        if status_eqb status HTTP_BAD_REQUEST
           && match next_request (rd_helper s) with Some _ => true | None => false end
        then Some (out s)
        else Some (Process_aborts (Some status))
      else
        let '(request, helper, m, status) :=
          parse_http_request parse_long parse_proxy_protocol
                             (rd_request s) (rd_helper s) (rd_mem s) in
        let s := mk_reader request helper m (rd_socket s) (rd_events s) in
        if negb (status_eqb status HTTP_OK)
        then Some (out (emit (Ev_default_response status) s))
        else
          match lookup_again 5 s with
          | None => None
          | Some (Returns s) => Some (out s)
          | Some Coro_abort => Some (Process_aborts None)
          | Some Out_of_bounds => Some Process_undefined
          end
  end.

(** ** Lookups *)

(** The [while (lower_bound < upper_bound)] loop; the interval shrinks on
    every pass. *)
Fixpoint value_array_bsearch_loop (fuel : nat) (m : mem)
         (base : list lwan_key_value_t) (k : list Z) (key_len : nat)
         (lower_bound upper_bound : nat) : option ptr :=
  match fuel with
  | O => None
  | S fuel' =>
      if (lower_bound <? upper_bound)%nat
      then
        let idx := ((lower_bound + upper_bound) / 2)%nat in
        let e := nth idx base kv_sentinel in
        let cmp := strncmp_l k (key_str m e) key_len in
        if cmp =? 0 then kv_value e
        else if cmp >? 0
             then value_array_bsearch_loop fuel' m base k key_len (S idx) upper_bound
             else value_array_bsearch_loop fuel' m base k key_len lower_bound idx
      else None
  end.

(** [value_array_bsearch(base, len, key)], [key] being the caller's C string. *)
Definition value_array_bsearch (m : mem) (l : kv_list) (k : list Z) : option ptr :=
  if (kv_len l =? 0)%nat then None
  else
    match base l with
    | None => None
    | Some b => value_array_bsearch_loop (S (kv_len l)) m b k (length k) 0 (kv_len l)
    end.

Definition lwan_request_get_query_param (request : lwan_request_t) (m : mem)
           (k : list Z) : option ptr :=
  value_array_bsearch m (query_params request) k.

Definition lwan_request_get_post_param (request : lwan_request_t) (m : mem)
           (k : list Z) : option ptr :=
  value_array_bsearch m (request_post_data request) k.

Definition lwan_request_get_cookie (request : lwan_request_t) (m : mem)
           (k : list Z) : option ptr :=
  value_array_bsearch m (cookies request) k.

End Driver.

(** ** Stand-ins for the collaborators, to run the model with *)

(** Modelled from the spec: [parse_long] is defined in lwan-config.c, which
    is not under src/; the spec has the body reader read Content-Length as
    a decimal. An optional minus sign and decimal digits; anything else
    gives the default. *)
Fixpoint decimal_digits (acc : Z) (s : list Z) : option Z :=
  match s with
  | [] => Some acc
  | c :: t =>
      if (chr "0" <=? c) && (c <=? chr "9")
      then decimal_digits (acc * 10 + (c - chr "0")) t
      else None
  end.

Definition parse_long_decimal (s : list Z) (default_value : Z) : Z :=
  match s with
  | [] => default_value
  | c :: t =>
      if c =? chr "-"
      then match t with
           | [] => default_value
           | _ => match decimal_digits 0 t with
                  | Some v => - v
                  | None => default_value
                  end
           end
      else match decimal_digits 0 s with
           | Some v => v
           | None => default_value
           end
  end.

(** A request as [lwan_process_request] receives it: zeroed. *)
Definition fresh_request : lwan_request_t :=
  mk_request no_flags no_value no_value no_kv_list no_kv_list no_kv_list
             0 0 0 false false.

(** A connection that does not take PROXY preambles never calls the reader. *)
Definition no_proxy_protocol (request : lwan_request_t) (m : mem) (p : ptr)
  : lwan_request_t * mem * option ptr := (request, m, Some p).

(** An allocator that hands out zeroed blocks. *)
Definition zeroed_block : option (nat -> lwan_key_value_t) :=
  Some (fun _ => kv_sentinel).

Definition CRLF : list Z := [CR; LF].

(** ** Words of the specification *)






(** The C string [s] sits at [p]: its bytes, none of them NUL, and the
    terminating NUL, all inside the buffer. *)
Definition cstring_at (m : mem) (p : ptr) (s : list Z) : Prop :=
  (exists rest, skipn p m = s ++ NUL :: rest)%list
  /\ Forall (fun b => b <> NUL) s
  /\ Forall (fun b => 0 <= b < 256) s.

(** The value of a hexadecimal digit. *)
Definition hex_value (c : Z) : Z :=
  if (chr "0" <=? c) && (c <=? chr "9") then c - chr "0"
  else if (chr "a" <=? c) && (c <=? chr "f") then c - chr "a" + 10
  else c - chr "A" + 10.

(** Percent- and plus-decoding as the specification words it, on the text
    alone: '+' gives a space, '%' with two hexadecimal digits gives the byte
    they spell, and decoding fails when that byte is NUL. A '%' that is not
    followed by two hexadecimal digits is copied like any other byte. *)
Fixpoint percent_decode (s : list Z) : option (list Z) :=
  match s with
  | [] => Some []
  | c :: t =>
      let copy (b : Z) := option_map (cons b) (percent_decode t) in
      if c =? chr "%"
      then
        match t with
        | h1 :: h2 :: rest =>
            if is_hex_digit h1 && is_hex_digit h2
            then
              let b := 16 * hex_value h1 + hex_value h2 in
              if b =? NUL then None
              else option_map (cons b) (percent_decode rest)
            else copy c
        | _ => copy c
        end
      else if c =? chr "+" then copy SP
      else copy c
  end.

(** The escape that spells NUL. *)
Definition percent_00 : list Z := bytes "%00".

(** The text [t] after a '%' starts with two hexadecimal digits. *)
Definition escape_at (t : list Z) : bool :=
  match t with
  | h1 :: h2 :: _ => is_hex_digit h1 && is_hex_digit h2
  | _ => false
  end.

(** The key-value walk of the specification, on the text alone. Step 1:
    the text behind a run of spaces and separators. *)
Fixpoint behind_run (separator : Z) (s : list Z) : list Z :=
  match s with
  | [] => []
  | b :: t => if (b =? SP) || (b =? separator) then behind_run separator t else s
  end.

(** Steps 2 and 3: the text before the first [c] and the text behind it. *)
Fixpoint cut_at (c : Z) (s : list Z) : option (list Z * list Z) :=
  match s with
  | [] => None
  | b :: t =>
      if b =? c then Some ([], t)
      else match cut_at c t with
           | Some (a, r) => Some (b :: a, r)
           | None => None
           end
  end.

(** Step 4 for the URL decoder: it returns 0 on a text with an escape that
    spells NUL, and on a text that decodes to nothing. *)
Definition url_decoder_returns_zero (s : list Z) : bool :=
  match percent_decode s with
  | None => true
  | Some out => Nat.eqb (length out) O
  end.

(** Steps 1 to 5 over a text: whether the walk, within [pairs] pairs and
    before the text or its '=' signs run out, comes to a key or a value on
    which the decoder returns 0. The value is decoded only when the key
    was taken. *)
Fixpoint decoder_refuses (returns_zero : list Z -> bool) (separator : Z)
         (pairs : nat) (s : list Z) : bool :=
  match pairs with
  | O => false
  | S pairs' =>
      match behind_run separator s with
      | [] => false
      | s1 =>
          match cut_at (chr "=") s1 with
          | None => false
          | Some (k, t) =>
              match cut_at separator t with
              | None => returns_zero k || returns_zero t
              | Some (v, rest) =>
                  returns_zero k || returns_zero v
                  || decoder_refuses returns_zero separator pairs' rest
              end
          end
      end
  end.

(** The bytes of a C string: none is NUL. *)
Definition text (s : list Z) : Prop := Forall (fun b => 0 < b < 256) s.

(** The order [qsort] is asked for: [strcmp] of the keys is not positive. *)
Definition key_le (m : mem) (a b : lwan_key_value_t) : Prop :=
  key_value_compare_qsort_key m a b <= 0.

(** The entry at [i] answers a lookup of [k]: [strncmp] over the length of
    [k] finds no difference. *)
Definition answers (m : mem) (b : list lwan_key_value_t) (k : list Z) (i : nat) : Prop :=
  strncmp_l k (key_str m (nth i b kv_sentinel)) (length k) = 0.

(** How many times the trie was consulted. *)
Definition lookups (evs : list event) : nat :=
  length (filter (fun e => match e with Ev_lookup _ => true | _ => false end) evs).

(** Whether an event is a response sent to the client. *)
Definition is_response (e : event) : bool :=
  match e with
  | Ev_default_response _ | Ev_response _ => true
  | _ => false
  end.

(** The reader changes the helper only through the finalizer and the
    buffer length, and what it emits are yields. *)
Definition reader_keeps (s s' : reader_state) : Prop :=
  urls_rewritten (rd_helper s') = urls_rewritten (rd_helper s)
  /\ exists ys, rd_events s' = (ys ++ rd_events s)%list
                /\ Forall (fun e => e = Ev_yield) ys.

(** The state [lwan_process_request] returned in, and the pointer it returned. *)
Definition returned_state (r : option process_result) : option reader_state :=
  match r with
  | Some (Process_returns s _) => Some s
  | _ => None
  end.

Definition returned_pointer (r : option process_result) : option (option ptr) :=
  match r with
  | Some (Process_returns _ next) => Some next
  | _ => None
  end.

(** The text a pointer of the returned state points to. *)
Definition text_at (s : reader_state) (p : option ptr) : option (list Z) :=
  option_map (cstr (rd_mem s)) p.

(** ** More stand-ins *)

(** Collaborators that are never reached, or say nothing. *)
Definition no_strptime (s : list Z) : option (nat * Z) := None.
Definition no_sscanf2 (s : list Z) : option (Z * Z) := None.
Definition no_sscanf1 (s : list Z) : option Z := None.
Definition authorize_all (request : lwan_request_t) (auth : lwan_value_t) (m : mem)
           (url_map : lwan_url_map_t) : bool := true.

(** A handler that rewrites the URL every time it is called, and a trie
    that sends every URL to it. *)
Definition rewriting_handler (request : lwan_request_t) (m : mem)
  : lwan_http_status_t * lwan_request_t * mem :=
  (HTTP_OK, set_flags (set_RESPONSE_URL_REWRITTEN true (flags request)) request, m).

Definition rewriting_map : lwan_url_map_t :=
  mk_url_map rewriting_handler 0
             (mk_handler_flags false false false false false false false false true) 0.

Definition rewriting_trie (m : mem) (key : option ptr) : option lwan_url_map_t :=
  Some rewriting_map.

(** A trie with no handler in it. *)
Definition empty_trie (m : mem) (key : option ptr) : option lwan_url_map_t := None.

(** A handler that answers 200, behind a trie entry that asks for every
    post-parser, and a trie that sends every URL to it. *)
Definition ok_handler (request : lwan_request_t) (m : mem)
  : lwan_http_status_t * lwan_request_t * mem := (HTTP_OK, request, m).

Definition parsing_map : lwan_url_map_t :=
  mk_url_map ok_handler 0
             (mk_handler_flags true true true true true true false false false) 0.

Definition parsing_trie (m : mem) (key : option ptr) : option lwan_url_map_t :=
  Some parsing_map.

(** [lwan_process_request] with the stand-ins above. *)
Definition process_with (trie : mem -> option ptr -> option lwan_url_map_t)
           (m : mem) (buffer_length : nat) (pipelined : option ptr)
           (socket : list read_result) : option process_result :=
  lwan_process_request insertion_sort zeroed_block parse_long_decimal no_proxy_protocol
                       no_strptime no_sscanf2 no_sscanf1 no_sscanf1 authorize_all trie
                       fresh_request m buffer_length pipelined socket.

(** ** Buffers and requests to run the model on *)

(** A small zeroed buffer, enough for the short requests above. *)
Definition small_buffer : mem := repeat NUL 64.







(** The query string "foo=1&foobar=2", as the parser receives it. *)
Definition foo_foobar : mem := (bytes "foo=1&foobar=2" ++ [NUL])%list.

(** What [parse_query_string] leaves of "foo=1&foobar=2": the buffer with
    its separators turned into NULs, and the sorted list. *)
Definition foo_foobar_parsed : mem :=
  (bytes "foo" ++ [NUL] ++ bytes "1" ++ [NUL] ++ bytes "foobar" ++ [NUL]
   ++ bytes "2" ++ [NUL])%list.

Definition foo_entry : lwan_key_value_t := mk_kv (Some 0%nat) (Some 4%nat).
Definition foobar_entry : lwan_key_value_t := mk_kv (Some 6%nat) (Some 13%nat).

Definition foo_foobar_list : kv_list :=
  mk_kv_list (Some (foo_entry :: foobar_entry :: repeat kv_sentinel 30)) 2.

(** A query string of exactly [n_elements] pairs: "a=1&a=1&...&a=1". *)
Definition thirty_two_pairs : mem :=
  (concat (repeat (bytes "a=1&") 31) ++ bytes "a=1" ++ [NUL])%list.

(** A query string whose second value holds the escape of NUL. *)
Definition second_value_bad : mem := (bytes "a=1&b=%00" ++ [NUL])%list.

(** Two pipelined requests in one read; the URL of the first holds the
    escape of NUL. *)
Definition bad_then_good : list Z :=
  (bytes "GET /%00 HTTP/1.1" ++ CRLF ++ CRLF
   ++ bytes "GET / HTTP/1.1" ++ CRLF ++ CRLF)%list.

(** The concrete scenarios 1, 3, 6 and 8 of the specification, and a GET
    whose query string is [thirty_two_pairs]. *)
Definition scenario_query : list Z :=
  (bytes "GET /hello?x=1&y=2 HTTP/1.1" ++ CRLF ++ bytes "Host: a" ++ CRLF ++ CRLF)%list.

Definition scenario_form : list Z :=
  (bytes "POST /f HTTP/1.1" ++ CRLF
   ++ bytes "Content-Type: application/x-www-form-urlencoded" ++ CRLF
   ++ bytes "Content-Length: 7" ++ CRLF ++ CRLF ++ bytes "a=1&b=2")%list.

Definition scenario_pipelined : list Z :=
  (bytes "GET /a HTTP/1.1" ++ CRLF ++ CRLF ++ bytes "GET /b HTTP/1.1" ++ CRLF ++ CRLF)%list.

Definition scenario_fragment : list Z :=
  (bytes "GET /#frag?notquery HTTP/1.1" ++ CRLF ++ CRLF)%list.

Definition scenario_thirty_two_pairs : list Z :=
  (bytes "GET /?" ++ removelast thirty_two_pairs ++ bytes " HTTP/1.1" ++ CRLF ++ CRLF)%list.


(** * Further parts of the file *)

(** ** Words for the byte utilities *)

Definition TAB : Z := 9.

(** The four bytes [is_space] is written for. *)
Definition whitespace (b : Z) : Prop := b = SP \/ b = TAB \/ b = LF \/ b = CR.

(** Every byte of the buffer is a byte. *)
Definition bytes_only (m : mem) : Prop := Forall (fun b => 0 <= b < 256) m.

(** ** Words for the socket reader *)



(** How many times the coroutine yielded. *)
Definition yields (evs : list event) : nat :=
  length (filter (fun e => match e with Ev_yield => true | _ => false end) evs).



(** Between [s] and [s'] the coroutine yielded at most [k] times and did
    nothing else the outside can see. *)
Definition yielded (k : nat) (s s' : reader_state) : Prop :=
  exists ys, rd_events s' = (ys ++ rd_events s)%list
             /\ Forall (fun e => e = Ev_yield) ys
             /\ (length ys <= k)%nat.

(** The request buffer of a connection: [DEFAULT_BUFFER_SIZE] bytes and the
    spare one, holding [content] from its start. *)
Definition buffer_with (content : list Z) : mem :=
  (content ++ repeat NUL (S DEFAULT_BUFFER_SIZE - length content))%list.

(** The statuses the reader has. *)
Definition reader_status (st : lwan_http_status_t) : Prop :=
  st = HTTP_OK \/ st = HTTP_BAD_REQUEST \/ st = HTTP_TOO_LARGE \/ st = HTTP_TIMEOUT.

(** ** Words for the parser *)

(** The statuses [parse_http_request] has. *)
Definition parser_status (st : lwan_http_status_t) : Prop :=
  st = HTTP_OK \/ st = HTTP_BAD_REQUEST \/ st = HTTP_NOT_ALLOWED
  \/ st = HTTP_TOO_LARGE \/ st = HTTP_NOT_IMPLEMENTED.

(** [h'] has the end of head [h] had, or one that [parse_headers] found:
    at [p], not before [from], where the buffer [m] it was handed holds
    CR LF, with more than two bytes of the buffer behind the pair; the CR
    is NUL in the buffer [m'] it leaves. *)
Definition end_of_head (buffer_end : ptr) (m m' : mem) (from : ptr)
           (h h' : request_parser_helper) (returned : option ptr) : Prop :=
  next_request h' = next_request h
  \/ exists p, returned = Some p
               /\ next_request h' = Some (p + 2)%nat
               /\ (from <= p)%nat
               /\ (p + 4 < buffer_end)%nat
               /\ load m p = CR
               /\ load m (p + 1) = LF
               /\ load m' p = NUL.

(** A request with a method the parser does not know. *)
Definition put_request : mem :=
  buffer_with (bytes "PUT / HTTP/1.1" ++ CRLF ++ CRLF).

(** ** Words for the URL *)

(** The text a value points at: [len] bytes from [value]. *)
Definition piece (m : mem) (v : lwan_value_t) : option (list Z) :=
  option_map (fun p => firstn (len v) (skipn p m)) (value v).

(** A part of the URL behind its delimiter, when the URL has the part. *)
Definition url_section (c : Z) (part : option (list Z)) : list Z :=
  match part with
  | Some t => c :: t
  | None => []
  end.

(** ** Words for the dispatch *)

(** How many responses were sent, and how many times a handler ran. *)
Definition responses (evs : list event) : nat := length (filter is_response evs).

Definition handler_runs (evs : list event) : nat :=
  length (filter (fun e => match e with Ev_handler => true | _ => false end) evs).

(** A request line whose URL has a query string and a fragment; the URL
    starts at 4 and is ten bytes long. *)
Definition url_with_parts : mem := bytes "GET /a?b=1#frg HTTP/1.1".

(** A handler mounted at "/static" that wants the leading slashes
    removed, and a request for "/static//a.css" whose URL starts at 4. *)
Definition static_map : lwan_url_map_t :=
  mk_url_map ok_handler 7
             (mk_handler_flags false false false false false false false true false) 0.

Definition static_request : mem := (bytes "GET /static//a.css" ++ [NUL])%list.

(** A form content type, NUL-terminated as [parse_headers] leaves it, and
    a body behind it. *)
Definition form_and_body : mem :=
  (bytes form_content_type ++ [NUL] ++ bytes "a=1" ++ [NUL])%list.

(** ** Words for the bit trick *)

(** Byte [i] of a 32-bit word, counted from the low end. *)
Definition byte_of (n : Z) (i : Z) : Z := (n / 2 ^ (8 * i)) mod 256.

(** * Properties *)

(** ** The buffer *)

Lemma store_length (m : mem) (p : ptr) (b : Z) : length (store m p b) = length m.
Proof.
  revert p; induction m as [|h t IH]; intros [|p]; simpl; auto.
Qed.

Lemma load_store_same (m : mem) (p : ptr) (b : Z) :
  (p < length m)%nat -> load (store m p b) p = b.
Proof.
  unfold load; revert p; induction m as [|h t IH]; intros [|p] H; simpl in *;
    try lia; auto.
  apply IH; lia.
Qed.

Lemma load_store_other (m : mem) (p q : ptr) (b : Z) :
  p <> q -> load (store m p b) q = load m q.
Proof.
  unfold load; revert p q; induction m as [|h t IH]; intros [|p] [|q] H; simpl;
    auto; try congruence.
Qed.

Lemma skipn_store_after (m : mem) (p q : ptr) (b : Z) :
  (p < q)%nat -> skipn q (store m p b) = skipn q m.
Proof.
  revert p q; induction m as [|h t IH]; intros [|p] [|q] H; simpl; auto; try lia.
  apply IH; lia.
Qed.

Lemma firstn_store_before (m : mem) (p q : ptr) (b : Z) :
  (q <= p)%nat -> firstn q (store m p b) = firstn q m.
Proof.
  revert p q; induction m as [|h t IH]; intros [|p] [|q] H; simpl; auto; try lia.
  f_equal; apply IH; lia.
Qed.

Lemma load_skipn (m : mem) (p i : nat) : nth i (skipn p m) NUL = load m (p + i).
Proof.
  unfold load; revert m; induction p as [|p IH]; intros m; simpl; auto.
  destruct m; simpl; auto. destruct i; reflexivity.
Qed.

(** ** C5 and C10: the body reader *)

Section BodyReader.

Variable parse_long : list Z -> Z -> Z.

(** C5. With the end of the head known ([next_request] set, inside the
    bytes read) and a Content-Length recorded, [len] being what
    [parse_long] makes of it and [have] the number of bytes read that lie
    behind the head, [buffer->len] less the offset of [next_request]: for
    [0 <= len <= DEFAULT_BUFFER_SIZE], [have = len] records the body as
    the slice of [len] bytes at [next_request], moves [next_request] past
    it and gives 200; [len > have] gives 413; [len < have] gives 501; and
    [len > DEFAULT_BUFFER_SIZE] gives 413. *)
Theorem read_post_data_by_content_length :
  forall (helper : request_parser_helper) (m : mem) (nr cl : ptr),
    next_request helper = Some nr ->
    value (content_length helper) = Some cl ->
    (nr <= buffer_len helper)%nat ->
    Z.of_nat (buffer_len helper) < 2 ^ 64 ->
    let len := parse_long (cstr m cl) (Z.of_nat DEFAULT_BUFFER_SIZE) in
    let have := Z.of_nat (buffer_len helper - nr) in
    let r := read_post_data parse_long helper m in
    (0 <= len <= Z.of_nat DEFAULT_BUFFER_SIZE ->
     (have = len ->
      snd r = HTTP_OK
      /\ post_data (fst r) = mk_value (Some nr) (Z.to_nat len)
      /\ next_request (fst r) = Some (nr + Z.to_nat len)%nat)
     /\ (len > have -> r = (helper, HTTP_TOO_LARGE))
     /\ (len < have -> r = (helper, HTTP_NOT_IMPLEMENTED)))
    /\ (len > Z.of_nat DEFAULT_BUFFER_SIZE -> r = (helper, HTTP_TOO_LARGE)).
Proof.
  intros helper m nr cl Hnr Hcl Hin Hsize len have r.
  subst r; unfold read_post_data; rewrite Hnr, Hcl.
  fold len.
  assert (Hbuf : Z.of_nat DEFAULT_BUFFER_SIZE = 4096) by reflexivity.
  assert (Hhave : post_data_have helper nr = have).
  { unfold post_data_have, size_t_of, have.
    rewrite Z.mod_small by lia. lia. }
  rewrite Hhave.
  split.
  - intros Hrange.
    assert (Hsz : size_t_of len = len).
    { unfold size_t_of. apply Z.mod_small.
      assert (2 ^ 64 = 18446744073709551616) by reflexivity. lia. }
    destruct (len >? Z.of_nat DEFAULT_BUFFER_SIZE) eqn:Hgt; [lia|].
    destruct (len <? 0) eqn:Hlt; [lia|].
    rewrite Hsz.
    split; [|split].
    + intros He. rewrite He, Z.eqb_refl. simpl. auto.
    + intros Hmore. destruct (have =? len) eqn:He; [lia|].
      destruct (len >? have) eqn:Hg; [reflexivity|lia].
    + intros Hless. destruct (have =? len) eqn:He; [lia|].
      destruct (len >? have) eqn:Hg; [lia|reflexivity].
  - intros Hbig. destruct (len >? Z.of_nat DEFAULT_BUFFER_SIZE) eqn:Hgt; [reflexivity|lia].
Qed.

(** C10. [read_post_data] answers 400 and leaves the helper, its
    [post_data] slice with it, as it was when no [next_request] is set,
    when no Content-Length was recorded, or when the Content-Length read
    by [parse_long] is negative. *)
Theorem read_post_data_bad_request :
  forall (helper : request_parser_helper) (m : mem),
    next_request helper = None
    \/ value (content_length helper) = None
    \/ (exists cl, value (content_length helper) = Some cl
                   /\ parse_long (cstr m cl) (Z.of_nat DEFAULT_BUFFER_SIZE) < 0) ->
    read_post_data parse_long helper m = (helper, HTTP_BAD_REQUEST)
    /\ post_data (fst (read_post_data parse_long helper m)) = post_data helper.
Proof.
  intros helper m H.
  assert (E : read_post_data parse_long helper m = (helper, HTTP_BAD_REQUEST)).
  { unfold read_post_data.
    destruct (next_request helper) as [nr|]; [|reflexivity].
    destruct (value (content_length helper)) as [cl|] eqn:Hcl; [|reflexivity].
    destruct H as [H|[H|[cl' [H Hneg]]]]; try discriminate.
    injection H as <-.
    assert (Hbuf : Z.of_nat DEFAULT_BUFFER_SIZE = 4096) by reflexivity.
    destruct (_ >? _) eqn:Hgt; [lia|].
    destruct (_ <? 0) eqn:Hlt; [reflexivity|lia]. }
  rewrite E; split; reflexivity.
Qed.

End BodyReader.

(** A body of seven bytes behind a Content-Length of "7": nine bytes read,
    the head ending at the second. *)
Lemma read_post_data_by_content_length_witness :
  let m := (bytes "7" ++ [NUL] ++ bytes "a=1&b=2")%list in
  let helper := set_content_length (mk_value (Some 0%nat) 1) (new_helper 9 (Some 2%nat)) in
  next_request helper = Some 2%nat
  /\ value (content_length helper) = Some 0%nat
  /\ parse_long_decimal (cstr m 0) (Z.of_nat DEFAULT_BUFFER_SIZE) = 7
  /\ Z.of_nat (buffer_len helper - 2) = 7
  /\ snd (read_post_data parse_long_decimal helper m) = HTTP_OK
  /\ post_data (fst (read_post_data parse_long_decimal helper m))
     = mk_value (Some 2%nat) 7
  /\ next_request (fst (read_post_data parse_long_decimal helper m)) = Some 9%nat.
Proof.
  intros m helper.
  split; [reflexivity|]. split; [reflexivity|].
  split; [reflexivity|]. split; [reflexivity|].
  assert (Hin : (2 <= buffer_len helper)%nat) by (apply Nat.leb_le; reflexivity).
  assert (Hsize : Z.of_nat (buffer_len helper) < 2 ^ 64)
    by (apply Z.ltb_lt; reflexivity).
  destruct (read_post_data_by_content_length parse_long_decimal helper m 2 0
              eq_refl eq_refl Hin Hsize) as [H _].
  destruct H as [H _]; [vm_compute; split; discriminate|].
  apply H. reflexivity.
Defined.

(** The three ways to 400: no end of head, no Content-Length, and a
    Content-Length of "-1". *)
Lemma read_post_data_bad_request_witness :
  let m := (bytes "-1" ++ [NUL])%list in
  let with_length := set_content_length (mk_value (Some 0%nat) 2) (new_helper 3 (Some 3%nat)) in
  read_post_data parse_long_decimal (new_helper 3 None) m
  = (new_helper 3 None, HTTP_BAD_REQUEST)
  /\ read_post_data parse_long_decimal (new_helper 3 (Some 3%nat)) m
     = (new_helper 3 (Some 3%nat), HTTP_BAD_REQUEST)
  /\ parse_long_decimal (cstr m 0) (Z.of_nat DEFAULT_BUFFER_SIZE) = -1
  /\ read_post_data parse_long_decimal with_length m = (with_length, HTTP_BAD_REQUEST).
Proof.
  intros m with_length.
  split; [|split; [|split; [reflexivity|]]].
  - apply (read_post_data_bad_request parse_long_decimal (new_helper 3 None) m).
    left; reflexivity.
  - apply (read_post_data_bad_request parse_long_decimal (new_helper 3 (Some 3%nat)) m).
    right; left; reflexivity.
  - apply (read_post_data_bad_request parse_long_decimal with_length m).
    right; right. exists 0%nat. split; [reflexivity|]. vm_compute. reflexivity.
Defined.


(** ** C4: the request-head finalizer *)

Lemma forallb_combine_seq (m : mem) (lit : list Z) :
  forall p k,
    forallb (fun ib => load m (p + fst ib) =? snd ib) (combine (seq k (length lit)) lit)
    = true <->
    (forall i, (i < length lit)%nat -> load m (p + k + i) = nth i lit NUL).
Proof.
  induction lit as [|b lit IH]; intros p k; simpl.
  - split; auto. intros _ i Hi; lia.
  - rewrite andb_true_iff, Z.eqb_eq, (IH p (S k)). split.
    + intros [H0 H] [|i] Hi.
      * now rewrite Nat.add_0_r.
      * replace (p + k + S i)%nat with (p + S k + i)%nat by lia. apply H; lia.
    + intros H. split.
      * specialize (H O). rewrite Nat.add_0_r in H. apply H; lia.
      * intros i Hi. replace (p + S k + i)%nat with (p + k + S i)%nat by lia.
        apply (H (S i)); lia.
Qed.

Lemma firstn_skipn_eq_iff (lit : list Z) :
  Forall (fun b => b <> NUL) lit ->
  forall (m : mem) (p : ptr),
    firstn (length lit) (skipn p m) = lit <->
    (forall i, (i < length lit)%nat -> load m (p + i) = nth i lit NUL).
Proof.
  intros Hnz m p.
  assert (G : forall l : list Z,
             firstn (length lit) l = lit <->
             (forall i, (i < length lit)%nat -> nth i l NUL = nth i lit NUL)).
  { clear m p. induction Hnz as [|b lit Hb Hnz IH]; intros l; simpl.
    - split; auto. intros _ i Hi; lia.
    - destruct l as [|x l].
      + split; [discriminate|]. intros H. specialize (H O ltac:(lia)). simpl in H.
        congruence.
      + split.
        * intros E. injection E as -> E. intros [|i] Hi; simpl; auto.
          apply IH; auto; lia.
        * intros H. f_equal.
          -- apply (H O); lia.
          -- apply IH. intros i Hi. apply (H (S i)); lia. }
  rewrite G. split; intros H i Hi; specialize (H i Hi).
  - rewrite <- load_skipn. exact H.
  - rewrite load_skipn. exact H.
Qed.

Lemma mem_equal_iff (m : mem) (p : ptr) (lit : list Z) :
  Forall (fun b => b <> NUL) lit ->
  mem_equal m p lit = true <-> firstn (length lit) (skipn p m) = lit.
Proof.
  intros Hnz. unfold mem_equal.
  rewrite forallb_combine_seq, (firstn_skipn_eq_iff lit Hnz).
  split; intros H i Hi; specialize (H i Hi).
  - now rewrite Nat.add_0_r in H.
  - now rewrite Nat.add_0_r.
Qed.

Lemma mem_equal_false_iff (m : mem) (p : ptr) (lit : list Z) :
  Forall (fun b => b <> NUL) lit ->
  mem_equal m p lit = false <-> firstn (length lit) (skipn p m) <> lit.
Proof.
  intros Hnz. rewrite <- (mem_equal_iff m p lit Hnz).
  destruct (mem_equal m p lit); split; congruence.
Qed.

Ltac nonzero_bytes :=
  repeat (apply Forall_cons; [discriminate|]); apply Forall_nil.







(** ** C6: the request line *)

Lemma index_of_bound (c : Z) (l : list Z) (i : nat) :
  index_of c l = Some i -> (i < length l)%nat /\ nth i l NUL = c.
Proof.
  revert i; induction l as [|b t IH]; intros i; simpl; [discriminate|].
  destruct (b =? c) eqn:E.
  - intros [= <-]. split; [lia|]. now apply Z.eqb_eq.
  - destruct (index_of c t) as [j|]; simpl; [|discriminate].
    intros [= <-]. destruct (IH j eq_refl). split; [lia|assumption].
Qed.

Lemma memchr_ge (m : mem) (p : ptr) (c : Z) (n : nat) (q : ptr) :
  memchr m p c n = Some q -> (p <= q < p + n)%nat /\ load m q = c.
Proof.
  unfold memchr. destruct (index_of c (firstn n (skipn p m))) as [i|] eqn:E;
    simpl; [|discriminate].
  intros [= <-]. apply index_of_bound in E. destruct E as [Hi Hc].
  rewrite length_firstn in Hi. split; [lia|].
  rewrite <- load_skipn. rewrite <- Hc.
  clear Hc. revert Hi. generalize (skipn p m) as l. clear.
  intros l. revert n l. induction i as [|i IH]; intros [|n] [|b l] H; simpl in *;
    try lia; auto.
  apply IH. lia.
Qed.





Lemma memchr_size_t_ge (m : mem) (p : ptr) (c : Z) (n : Z) (q : ptr) :
  memchr_size_t m p c n = Some q -> (p <= q)%nat.
Proof. unfold memchr_size_t. intros H. apply memchr_ge in H. lia. Qed.





(** ** C7: percent-decoding in place *)

(** A property of bytes that holds for each of the 256 holds for all. *)
Lemma byte_cases (P : Z -> bool) :
  forallb P (List.map Z.of_nat (seq 0 256)) = true ->
  forall x, 0 <= x < 256 -> P x = true.
Proof.
  intros H x Hx. rewrite forallb_forall in H. apply H.
  apply in_map_iff. exists (Z.to_nat x). split; [lia|].
  apply in_seq. lia.
Qed.

Lemma nibble_cases (P : Z -> Z -> bool) :
  forallb (fun a => forallb (P a) (List.map Z.of_nat (seq 0 16)))
          (List.map Z.of_nat (seq 0 16)) = true ->
  forall a b, 0 <= a < 16 -> 0 <= b < 16 -> P a b = true.
Proof.
  intros H a b Ha Hb. rewrite forallb_forall in H.
  assert (In16 : forall x, 0 <= x < 16 -> In x (List.map Z.of_nat (seq 0 16))).
  { intros x Hx. apply in_map_iff. exists (Z.to_nat x). split; [lia|].
    apply in_seq. lia. }
  specialize (H a (In16 a Ha)). rewrite forallb_forall in H. apply H, In16, Hb.
Qed.

Lemma schar_byte (x : Z) :
  0 <= x < 256 -> (schar x =? 0) = (x =? 0) /\ to_byte (schar x) = x.
Proof.
  intros Hx.
  pose proof (byte_cases
                (fun x => Bool.eqb (schar x =? 0) (x =? 0) && (to_byte (schar x) =? x))
                ltac:(vm_compute; reflexivity) x Hx) as H.
  simpl in H. apply andb_true_iff in H. destruct H as [H1 H2].
  apply eqb_prop in H1. apply Z.eqb_eq in H2. auto.
Qed.

Lemma hex_digit_value (x : Z) :
  0 <= x < 256 -> is_hex_digit x = true ->
  decode_hex_digit x = hex_value x
  /\ 0 <= hex_value x < 16
  /\ (hex_value x = 0 <-> x = chr "0").
Proof.
  intros Hx Hhex.
  pose proof (byte_cases
                (fun x => implb (is_hex_digit x)
                                ((decode_hex_digit x =? hex_value x)
                                 && (0 <=? hex_value x) && (hex_value x <? 16)
                                 && Bool.eqb (hex_value x =? 0) (x =? chr "0")))
                ltac:(vm_compute; reflexivity) x Hx) as H.
  simpl in H. rewrite Hhex in H. simpl in H.
  repeat (apply andb_true_iff in H; destruct H as [H ?]).
  apply Z.eqb_eq in H. apply Z.leb_le in H2. apply Z.ltb_lt in H1.
  apply eqb_prop in H0.
  split; [assumption|]. split; [lia|].
  rewrite <- !Z.eqb_eq, H0. reflexivity.
Qed.

Lemma nibbles_lor (a b : Z) :
  0 <= a < 16 -> 0 <= b < 16 -> Z.lor (Z.shiftl a 4) b = 16 * a + b.
Proof.
  intros Ha Hb.
  pose proof (nibble_cases (fun a b => Z.lor (Z.shiftl a 4) b =? 16 * a + b)
                           ltac:(vm_compute; reflexivity) a b Ha Hb) as H.
  now apply Z.eqb_eq in H.
Qed.

(** The byte the code stores for an escape is the byte its digits spell, and
    the code's test for NUL is the test on that byte. *)
Lemma escape_byte (h1 h2 : Z) :
  0 <= h1 < 256 -> 0 <= h2 < 256 ->
  is_hex_digit h1 = true -> is_hex_digit h2 = true ->
  let tmp := schar (Z.lor (Z.shiftl (decode_hex_digit h1) 4) (decode_hex_digit h2)) in
  let b := 16 * hex_value h1 + hex_value h2 in
  (tmp =? 0) = (b =? NUL) /\ to_byte tmp = b /\ 0 <= b < 256.
Proof.
  intros H1 H2 X1 X2 tmp b.
  destruct (hex_digit_value h1 H1 X1) as [E1 [R1 _]].
  destruct (hex_digit_value h2 H2 X2) as [E2 [R2 _]].
  subst tmp. rewrite E1, E2, nibbles_lor by assumption. fold b.
  assert (Hb : 0 <= b < 256) by (subst b; lia).
  destruct (schar_byte b Hb) as [A B]. auto.
Qed.

Lemma percent_decode_cons (c : Z) (t : list Z) :
  percent_decode (c :: t) =
  if (c =? chr "%") && escape_at t
  then match t with
       | h1 :: h2 :: rest =>
           let b := 16 * hex_value h1 + hex_value h2 in
           if b =? NUL then None else option_map (cons b) (percent_decode rest)
       | _ => None
       end
  else option_map (cons (if c =? chr "+" then SP else c)) (percent_decode t).
Proof.
  cbn [percent_decode]. destruct (c =? chr "%") eqn:Ep.
  - apply Z.eqb_eq in Ep. subst c.
    destruct t as [|h1 [|h2 rest]]; reflexivity.
  - cbn [andb]. destruct (c =? chr "+"); reflexivity.
Qed.

Lemma skipn_cons_load (m : mem) (p : ptr) (x : Z) (l : list Z) :
  skipn p m = x :: l -> load m p = x /\ skipn (S p) m = l.
Proof.
  intros H. split.
  - rewrite <- (Nat.add_0_r p), <- load_skipn, H. reflexivity.
  - replace (S p) with (1 + p)%nat by lia. rewrite <- skipn_skipn, H. reflexivity.
Qed.

Lemma escape_at_loads (m : mem) (ch : ptr) (c : Z) (t rest : list Z) :
  skipn ch m = (c :: t ++ NUL :: rest)%list ->
  is_hex_digit (load m (ch + 1)) && is_hex_digit (load m (ch + 2)) = escape_at t.
Proof.
  intros H. rewrite <- !load_skipn, H.
  destruct t as [|h1 [|h2 t]]; simpl; try reflexivity.
  destruct (is_hex_digit h1); reflexivity.
Qed.

(** The loop against the text it has still to read: [s] is the text from
    [ch] to the terminating NUL, and the writer is not ahead of the reader. *)
Lemma url_decode_loop_refines :
  forall (n : nat) (s : list Z),
    (length s <= n)%nat ->
    forall (fuel : nat) (m : mem) (str ch decoded : ptr) (rest : list Z),
      skipn ch m = (s ++ NUL :: rest)%list ->
      Forall (fun b => b <> NUL) s ->
      Forall (fun b => 0 <= b < 256) s ->
      (decoded <= ch)%nat ->
      (length s < fuel)%nat ->
      match percent_decode s with
      | Some out =>
          url_decode_loop fuel m str ch decoded
          = Some (store_bytes m decoded (out ++ [NUL]),
                  (decoded + length out - str)%nat)
      | None => exists m', url_decode_loop fuel m str ch decoded = Some (m', O)
      end.
Proof.
  induction n as [|n IH]; intros s Hlen fuel m str ch decoded rest Hskip Hnz Hby Hdc Hfuel.
  - destruct s; [|simpl in Hlen; lia]. simpl in *.
    destruct fuel as [|fuel]; [lia|]. simpl.
    apply skipn_cons_load in Hskip. destruct Hskip as [-> _]. simpl.
    now rewrite Nat.add_0_r.
  - destruct s as [|c t].
    + simpl in *. destruct fuel as [|fuel]; [lia|]. simpl.
      apply skipn_cons_load in Hskip. destruct Hskip as [-> _]. simpl.
      now rewrite Nat.add_0_r.
    + simpl in Hlen, Hfuel. destruct fuel as [|fuel]; [lia|].
      rewrite percent_decode_cons.
      pose proof (escape_at_loads m ch c t rest Hskip) as Hesc.
      simpl app in Hskip.
      destruct (skipn_cons_load m ch c _ Hskip) as [Hc Hnext].
      inversion Hnz as [|? ? Hc0 Hnz']; subst.
      inversion Hby as [|? ? Hcb Hby']; subst.
      cbn [url_decode_loop]. cbv zeta. rewrite Hesc.
      assert (Ec : (load m ch =? NUL) = false) by now apply Z.eqb_neq.
      rewrite Ec.
      destruct ((load m ch =? chr "%") && escape_at t) eqn:Ecase.
      * (* an escape *)
        apply andb_true_iff in Ecase. destruct Ecase as [_ Ees].
        destruct t as [|h1 [|h2 t']]; try discriminate.
        simpl in Ees. apply andb_true_iff in Ees. destruct Ees as [X1 X2].
        inversion Hnz' as [|? ? _ Hnz'']; subst.
        inversion Hnz'' as [|? ? _ Hnz3]; subst.
        inversion Hby' as [|? ? B1 Hby'']; subst.
        inversion Hby'' as [|? ? B2 Hby3]; subst.
        assert (L1 : load m (ch + 1) = h1).
        { rewrite <- load_skipn, Hskip. reflexivity. }
        assert (L2 : load m (ch + 2) = h2).
        { rewrite <- load_skipn, Hskip. reflexivity. }
        rewrite L1, L2.
        destruct (escape_byte h1 h2 B1 B2 X1 X2) as [Ez [Eb Hb]].
        cbv zeta in Ez, Eb. rewrite Ez, Eb. cbv zeta.
        destruct (16 * hex_value h1 + hex_value h2 =? NUL) eqn:E0.
        -- exists m. reflexivity.
        -- set (b := 16 * hex_value h1 + hex_value h2) in *.
           assert (Hskip' : skipn (ch + 3) (store m decoded b) = (t' ++ NUL :: rest)%list).
           { rewrite skipn_store_after by lia.
             replace (ch + 3)%nat with (3 + ch)%nat by lia.
             rewrite <- skipn_skipn, Hskip. reflexivity. }
           specialize (IH t' ltac:(simpl in Hlen; lia) fuel (store m decoded b) str
                          (ch + 3)%nat (S decoded) rest Hskip' Hnz3 Hby3 ltac:(lia)
                          ltac:(simpl in Hfuel; lia)).
           destruct (percent_decode t') as [out|].
           ++ cbn [option_map]. rewrite IH. f_equal. apply f_equal2; [reflexivity|simpl length; lia].
           ++ cbn [option_map]. exact IH.
      * (* a byte to copy, '+' turned into a space *)
        assert (Hskip' : forall b, skipn (S ch) (store m decoded b) = (t ++ NUL :: rest)%list).
        { intros b. rewrite skipn_store_after by lia. exact Hnext. }
        assert (Hstep :
          (if load m ch =? chr "+"
           then url_decode_loop fuel (store m decoded SP) str (S ch) (S decoded)
           else url_decode_loop fuel (store m decoded (load m ch)) str (S ch) (S decoded))
          = url_decode_loop fuel
              (store m decoded (if load m ch =? chr "+" then SP else load m ch))
              str (S ch) (S decoded)).
        { destruct (load m ch =? chr "+"); reflexivity. }
        rewrite Hstep.
        set (b := if load m ch =? chr "+" then SP else load m ch) in *.
        specialize (IH t ltac:(lia) fuel (store m decoded b) str (S ch) (S decoded)
                       rest (Hskip' b) Hnz' Hby' ltac:(lia) ltac:(lia)).
        destruct (percent_decode t) as [out|].
        -- cbn [option_map]. rewrite IH. f_equal. apply f_equal2; [reflexivity|simpl length; lia].
        -- cbn [option_map]. exact IH.
Qed.

Lemma option_map_none {A B : Type} (f : A -> B) (o : option A) :
  option_map f o = None <-> o = None.
Proof. destruct o; simpl; split; congruence. Qed.

(** Decoding fails exactly on the texts that hold the escape of NUL. *)
Lemma percent_decode_none_iff :
  forall (n : nat) (s : list Z),
    (length s <= n)%nat ->
    Forall (fun b => 0 <= b < 256) s ->
    (percent_decode s = None <->
     exists pre post, s = (pre ++ percent_00 ++ post)%list).
Proof.
  assert (P00 : percent_00 = [chr "%"; chr "0"; chr "0"]) by reflexivity.
  induction n as [|n IH]; intros s Hlen Hby.
  - destruct s; [|simpl in Hlen; lia]. simpl. split; [discriminate|].
    intros [pre [post E]]. destruct pre; discriminate.
  - destruct s as [|c t].
    { simpl. split; [discriminate|]. intros [pre [post E]]. destruct pre; discriminate. }
    simpl in Hlen. inversion Hby as [|? ? Hc Hby']; subst.
    rewrite percent_decode_cons.
    destruct ((c =? chr "%") && escape_at t) eqn:Ecase.
    + apply andb_true_iff in Ecase. destruct Ecase as [Ec Ees].
      apply Z.eqb_eq in Ec. subst c.
      destruct t as [|h1 [|h2 rest]]; try discriminate.
      simpl in Ees. apply andb_true_iff in Ees. destruct Ees as [X1 X2].
      inversion Hby' as [|? ? B1 Hby'']; subst.
      inversion Hby'' as [|? ? B2 Hby3]; subst.
      destruct (hex_digit_value h1 B1 X1) as [_ [R1 Z1]].
      destruct (hex_digit_value h2 B2 X2) as [_ [R2 Z2]].
      cbv zeta.
      destruct (16 * hex_value h1 + hex_value h2 =? NUL) eqn:E0.
      * split; auto. intros _. apply Z.eqb_eq in E0. unfold NUL in E0.
        assert (hex_value h1 = 0) by lia. assert (hex_value h2 = 0) by lia.
        exists [], rest. rewrite P00. simpl.
        rewrite (proj1 Z1), (proj1 Z2) by assumption. reflexivity.
      * rewrite option_map_none, (IH rest) by (simpl in Hlen; auto; lia).
        split.
        -- intros [pre [post E]]. exists (chr "%" :: h1 :: h2 :: pre), post.
           rewrite E. reflexivity.
        -- intros [pre [post E]]. rewrite P00 in E.
           destruct pre as [|x [|y [|z pre]]]; simpl in E.
           ++ injection E as E1 E2 _. subst h1 h2. vm_compute in E0. discriminate.
           ++ injection E as _ E1 _ _. subst h1. vm_compute in X1. discriminate.
           ++ injection E as _ _ E2 _. subst h2. vm_compute in X2. discriminate.
           ++ injection E as _ _ _ E3. exists pre, post. rewrite E3, P00. reflexivity.
    + rewrite option_map_none, (IH t) by (auto; lia).
      split.
      * intros [pre [post E]]. exists (c :: pre), post. rewrite E. reflexivity.
      * intros [pre [post E]]. destruct pre as [|x pre].
        -- rewrite P00 in E. simpl in E. injection E as -> E. subst t.
           simpl in Ecase. discriminate.
        -- simpl in E. injection E as _ E. exists pre, post. exact E.
Qed.

Lemma cstring_at_length (m : mem) (p : ptr) (s : list Z) :
  cstring_at m p s -> (length s < length m)%nat.
Proof.
  intros [[rest E] _].
  assert (H : length (skipn p m) = length (s ++ NUL :: rest)%list) by now rewrite E.
  rewrite length_skipn, length_app in H. simpl in H. lia.
Qed.

(** C7, amended. On a NUL-terminated string [url_decode] decodes in place:
    '+' becomes a space, '%' with two hexadecimal digits becomes the byte
    they spell, and every other byte, a '%' that is not followed by two
    hexadecimal digits among them, is copied; the decoded text and its NUL
    are written from the start of the string and the new length is
    returned. It returns 0 when an escape spells the NUL byte, which is
    exactly when the string holds "%00"; a stray '%' is not a failure. *)
Theorem url_decode_decodes_in_place :
  forall (m : mem) (str : ptr) (s : list Z),
    cstring_at m str s ->
    match percent_decode s with
    | Some out =>
        url_decode m (Some str) = (store_bytes m str (out ++ [NUL]), length out)
    | None => snd (url_decode m (Some str)) = O
    end
    /\ (percent_decode s = None <->
        exists pre post, s = (pre ++ percent_00 ++ post)%list).
Proof.
  intros m str s Hs. split.
  - pose proof (cstring_at_length m str s Hs) as Hlen.
    destruct Hs as [[rest Hskip] [Hnz Hby]].
    pose proof (url_decode_loop_refines (length s) s (Nat.le_refl _) (S (length m)) m
                  str str str rest Hskip Hnz Hby (Nat.le_refl _) ltac:(lia)) as H.
    unfold url_decode. destruct (percent_decode s) as [out|].
    + rewrite H. f_equal. lia.
    + destruct H as [m' H]. rewrite H. reflexivity.
  - destruct Hs as [_ [_ Hby]].
    exact (percent_decode_none_iff (length s) s (Nat.le_refl _) Hby).
Qed.

(** C7 as stated fails: a '%' that is not followed by two hexadecimal digits
    does not make [url_decode] return 0. On "100%" it returns 4 and leaves
    the text as it was. *)
Lemma url_decode_stray_percent :
  let m := (bytes "100%" ++ [NUL])%list in
  cstring_at m 0 (bytes "100%")
  /\ escape_at [] = false
  /\ url_decode m (Some 0%nat) = (m, 4%nat)
  /\ snd (url_decode m (Some 0%nat)) <> O.
Proof.
  intros m. split.
  - split; [exists []; reflexivity|].
    split; repeat (apply Forall_cons; [vm_compute; intuition discriminate|]);
      apply Forall_nil.
  - split; [reflexivity|]. split; [reflexivity|]. vm_compute. discriminate.
Qed.

(** "a+b%41%zz" decodes to "a bA%zz", seven bytes; "a%00b" is refused. *)
Lemma url_decode_decodes_in_place_witness :
  let m := (bytes "a+b%41%zz" ++ [NUL])%list in
  let bad := (bytes "a%00b" ++ [NUL])%list in
  cstring_at m 0 (bytes "a+b%41%zz")
  /\ cstring_at bad 0 (bytes "a%00b")
  /\ url_decode m (Some 0%nat) = (store_bytes m 0 (bytes "a bA%zz" ++ [NUL]), 7%nat)
  /\ snd (url_decode bad (Some 0%nat)) = O.
Proof.
  intros m bad.
  assert (Hm : cstring_at m 0 (bytes "a+b%41%zz")).
  { split; [exists []; reflexivity|].
    split; repeat (apply Forall_cons; [vm_compute; intuition discriminate|]);
      apply Forall_nil. }
  assert (Hbad : cstring_at bad 0 (bytes "a%00b")).
  { split; [exists []; reflexivity|].
    split; repeat (apply Forall_cons; [vm_compute; intuition discriminate|]);
      apply Forall_nil. }
  split; [exact Hm|]. split; [exact Hbad|]. split.
  - exact (proj1 (url_decode_decodes_in_place m 0 (bytes "a+b%41%zz") Hm)).
  - exact (proj1 (url_decode_decodes_in_place bad 0 (bytes "a%00b") Hbad)).
Defined.

(** ** The decoder and the rest of the buffer *)

Lemma until_nul_cons (l : list Z) (b : Z) (t : list Z) :
  l = b :: t -> b <> NUL -> until_nul l = b :: until_nul t.
Proof.
  intros -> H. simpl. destruct (Z.eqb_spec b NUL); [contradiction|reflexivity].
Qed.

Lemma skipn_at (m : mem) (p : ptr) :
  (p < length m)%nat -> skipn p m = load m p :: skipn (S p) m.
Proof.
  revert p; induction m as [|h t IH]; intros [|p] H; simpl in *; try lia; auto.
  rewrite IH by lia. reflexivity.
Qed.

Lemma load_nonzero_in (m : mem) (p : ptr) : load m p <> NUL -> (p < length m)%nat.
Proof.
  intros H. destruct (Nat.lt_ge_cases p (length m)) as [Hl|Hl]; [exact Hl|].
  exfalso. apply H. unfold load. now rewrite nth_overflow.
Qed.

Lemma strlen_step (m : mem) (p : ptr) :
  load m p <> NUL -> strlen m p = S (strlen m (S p)).
Proof.
  intros H. unfold strlen, cstr.
  rewrite (skipn_at m p (load_nonzero_in m p H)).
  rewrite (until_nul_cons _ _ _ eq_refl H). reflexivity.
Qed.

Lemma strlen_store_before (m : mem) (p q : ptr) (b : Z) :
  (p < q)%nat -> strlen (store m p b) q = strlen m q.
Proof. intros H. unfold strlen, cstr. now rewrite skipn_store_after. Qed.

Lemma is_hex_digit_nonzero (b : Z) : is_hex_digit b = true -> b <> NUL.
Proof. intros H ->. discriminate H. Qed.

(** The loop writes between its writer and the NUL that ends the text. *)
Lemma url_decode_loop_frame :
  forall (fuel : nat) (m : mem) (str ch decoded : ptr) (m' : mem) (n : nat),
    (decoded <= ch)%nat ->
    url_decode_loop fuel m str ch decoded = Some (m', n) ->
    length m' = length m
    /\ forall q, (q < decoded \/ ch + strlen m ch < q)%nat -> load m' q = load m q.
Proof.
  induction fuel as [|fuel IH]; intros m str ch decoded m' n Hdc; [discriminate|].
  cbn [url_decode_loop]. cbv zeta.
  destruct (load m ch =? NUL) eqn:E0.
  { intros [= <- _]. split; [apply store_length|].
    intros q Hq. apply load_store_other. lia. }
  apply Z.eqb_neq in E0.
  assert (Hstep : forall b ch',
             (ch < ch')%nat -> (ch' + strlen m ch' = ch + strlen m ch)%nat ->
             url_decode_loop fuel (store m decoded b) str ch' (S decoded) = Some (m', n) ->
             length m' = length m
             /\ forall q, (q < decoded \/ ch + strlen m ch < q)%nat ->
                          load m' q = load m q).
  { intros b ch' Hlt Hend H. apply IH in H; [|lia].
    destruct H as [Hl Hf]. rewrite store_length in Hl. split; [exact Hl|].
    intros q Hq. rewrite Hf.
    - apply load_store_other. lia.
    - rewrite strlen_store_before by lia. lia. }
  destruct ((load m ch =? chr "%") && _) eqn:Eesc.
  - apply andb_true_iff in Eesc. destruct Eesc as [_ Ehex].
    apply andb_true_iff in Ehex. destruct Ehex as [X1 X2].
    apply is_hex_digit_nonzero in X1, X2.
    destruct (_ =? 0).
    + intros [= <- _]. split; [reflexivity|]. intros; reflexivity.
    + apply (Hstep _ (ch + 3)%nat); [lia|].
      rewrite (strlen_step m ch E0).
      replace (S ch) with (ch + 1)%nat by lia. rewrite (strlen_step m (ch + 1) X1).
      replace (S (ch + 1)) with (ch + 2)%nat by lia. rewrite (strlen_step m (ch + 2) X2).
      replace (S (ch + 2)) with (ch + 3)%nat by lia. lia.
  - assert (Hend : (S ch + strlen m (S ch) = ch + strlen m ch)%nat).
    { rewrite (strlen_step m ch E0). lia. }
    destruct (_ =? chr "+"); apply (Hstep _ (S ch)); auto.
Qed.

(** *** A C string, byte by byte *)

Lemma cstring_at_loads (m : mem) (p : ptr) (s : list Z) :
  cstring_at m p s ->
  (p + length s < length m)%nat
  /\ (forall i, (i < length s)%nat -> load m (p + i) = nth i s NUL)
  /\ load m (p + length s) = NUL.
Proof.
  intros [[rest E] _].
  assert (Hl : length (skipn p m) = length (s ++ NUL :: rest)%list) by now rewrite E.
  rewrite length_skipn, length_app in Hl. simpl in Hl.
  split; [lia|]. split.
  - intros i Hi. rewrite <- load_skipn, E. now apply app_nth1.
  - rewrite <- load_skipn, E. rewrite app_nth2 by lia.
    now rewrite Nat.sub_diag.
Qed.

Lemma cstring_at_of_loads (s : list Z) :
  forall (m : mem) (p : ptr),
    (p + length s < length m)%nat ->
    (forall i, (i < length s)%nat -> load m (p + i) = nth i s NUL) ->
    load m (p + length s) = NUL ->
    Forall (fun b => b <> NUL) s ->
    Forall (fun b => 0 <= b < 256) s ->
    cstring_at m p s.
Proof.
  intros m p Hin Hl Hz Hnz Hby. split; [|split; assumption].
  clear Hnz Hby. revert m p Hin Hl Hz.
  induction s as [|x t IH]; intros m p Hin Hl Hz; simpl in *.
  - exists (skipn (S p) m). rewrite (skipn_at m p) by lia.
    rewrite Nat.add_0_r in Hz. now rewrite Hz.
  - destruct (IH m (S p)) as [rest E].
    + lia.
    + intros i Hi. specialize (Hl (S i) ltac:(lia)).
      replace (S p + i)%nat with (p + S i)%nat by lia. exact Hl.
    + replace (S p + length t)%nat with (p + S (length t))%nat by lia. exact Hz.
    + exists rest. rewrite (skipn_at m p) by lia. rewrite E.
      specialize (Hl 0%nat ltac:(lia)). rewrite Nat.add_0_r in Hl. now rewrite Hl.
Qed.

(** A buffer that agrees with [m] on the string and its NUL holds the same
    string. *)
Lemma cstring_at_frame (m m' : mem) (p : ptr) (s : list Z) :
  cstring_at m p s ->
  length m' = length m ->
  (forall q, (p <= q <= p + length s)%nat -> load m' q = load m q) ->
  cstring_at m' p s.
Proof.
  intros H Hlen Hf. destruct (cstring_at_loads m p s H) as [Hin [Hl Hz]].
  destruct H as [_ [Hnz Hby]].
  apply cstring_at_of_loads; auto.
  - lia.
  - intros i Hi. rewrite Hf by lia. now apply Hl.
  - rewrite Hf by lia. exact Hz.
Qed.

Lemma cstr_of_cstring_at (m : mem) (p : ptr) (s : list Z) :
  cstring_at m p s -> cstr m p = s.
Proof.
  intros [[rest E] [Hnz _]]. unfold cstr. rewrite E. clear E.
  induction Hnz as [|x t Hx Ht IH]; simpl.
  - reflexivity.
  - destruct (Z.eqb_spec x NUL); [contradiction|]. now rewrite IH.
Qed.

(** A NUL written over the byte behind [a] cuts the string in two. *)
Lemma cstring_at_cut (m : mem) (p : ptr) (a r : list Z) (c : Z) :
  cstring_at m p (a ++ c :: r) ->
  let m' := store m (p + length a) NUL in
  cstring_at m' p a /\ cstring_at m' (S (p + length a)) r.
Proof.
  intros H m'. destruct (cstring_at_loads _ _ _ H) as [Hin [Hl Hz]].
  destruct H as [_ [Hnz Hby]].
  rewrite length_app in *. simpl in *.
  apply Forall_app in Hnz, Hby. destruct Hnz as [Hnza Hnzr], Hby as [Hbya Hbyr].
  inversion Hnzr; subst. inversion Hbyr; subst.
  split.
  - apply cstring_at_of_loads; auto.
    + unfold m'. rewrite store_length. lia.
    + intros i Hi. unfold m'. rewrite load_store_other by lia.
      rewrite Hl by lia. now apply app_nth1.
    + unfold m'. apply load_store_same. lia.
  - apply cstring_at_of_loads; auto.
    + unfold m'. rewrite store_length. lia.
    + intros i Hi. unfold m'. rewrite load_store_other by lia.
      replace (S (p + length a) + i)%nat with (p + (length a + S i))%nat by lia.
      rewrite Hl by lia. rewrite app_nth2 by lia.
      replace (length a + S i - length a)%nat with (S i) by lia. reflexivity.
    + unfold m'. rewrite load_store_other by lia.
      replace (S (p + length a) + length r)%nat
        with (p + (length a + S (length r)))%nat by lia.
      exact Hz.
Qed.



(** ** C2: lookups *)

Lemma strcmp_l_refl (a : list Z) : strcmp_l a a = 0.
Proof. induction a as [|x a IH]; simpl; auto. now rewrite Z.eqb_refl. Qed.

(** A key that sorts before another is not passed by a prefix the other
    one is below. *)
Ltac split_eqb :=
  repeat match goal with
         | |- context [?u =? ?v] => destruct (Z.eqb_spec u v)
         | H : context [?u =? ?v] |- _ => destruct (Z.eqb_spec u v)
         end.

Ltac open_text :=
  repeat match goal with
         | H : text (_ :: _) |- _ => inversion H; subst; clear H
         end.

Lemma strncmp_above (n : nat) :
  forall k a b : list Z,
    text k -> text a -> text b ->
    strcmp_l a b <= 0 -> strncmp_l k b n > 0 -> strncmp_l k a n > 0.
Proof.
  induction n as [|n IH]; intros k a b Hk Ha Hb Hab Hkb; simpl in *; [lia|].
  destruct k as [|x k]; destruct b as [|y b]; destruct a as [|z a];
    simpl in *; open_text; unfold NUL in *; split_eqb; subst; try lia.
  apply (IH k a b); assumption.
Qed.

Lemma strncmp_below (n : nat) :
  forall k a b : list Z,
    text k -> text a -> text b ->
    strcmp_l a b <= 0 -> strncmp_l k a n < 0 -> strncmp_l k b n < 0.
Proof.
  induction n as [|n IH]; intros k a b Hk Ha Hb Hab Hka; simpl in *; [lia|].
  destruct k as [|x k]; destruct b as [|y b]; destruct a as [|z a];
    simpl in *; open_text; unfold NUL in *; split_eqb; subst; try lia.
  apply (IH k a b); assumption.
Qed.

(** [strncmp] over the length of the query key finds no difference exactly
    when the query key is a prefix of the stored one. *)
Lemma strncmp_zero_iff_prefix :
  forall k a : list Z,
    text k -> text a ->
    (strncmp_l k a (length k) = 0 <-> firstn (length k) a = k).
Proof.
  induction k as [|x k IH]; intros a Hk Ha; simpl.
  - split; reflexivity.
  - inversion Hk; subst. destruct a as [|y a]; simpl.
    + unfold NUL. split; [lia|discriminate].
    + inversion Ha; subst. destruct (x =? y) eqn:E.
      * apply Z.eqb_eq in E. subst. rewrite IH by assumption.
        split; [intros ->; reflexivity|intros [= ->]; reflexivity].
      * apply Z.eqb_neq in E. split; [lia|intros [= -> _]; congruence].
Qed.

Section Bsearch.

Variable m : mem.
Variable b : list lwan_key_value_t.
Variable n : nat.
Variable k : list Z.

Hypothesis Hn : (n <= length b)%nat.
Hypothesis Hk : text k.
Hypothesis Hkeys : forall i, (i < n)%nat -> text (key_str m (nth i b kv_sentinel)).
Hypothesis Hsorted : StronglySorted (key_le m) (firstn n b).

Let cmp (i : nat) : Z := strncmp_l k (key_str m (nth i b kv_sentinel)) (length k).

Lemma sorted_keys (i j : nat) :
  (i <= j)%nat -> (j < n)%nat ->
  strcmp_l (key_str m (nth i b kv_sentinel)) (key_str m (nth j b kv_sentinel)) <= 0.
Proof.
  intros Hij Hj.
  destruct (Nat.eq_dec i j) as [->|Hne]; [rewrite strcmp_l_refl; lia|].
  assert (G : forall (l : list lwan_key_value_t),
             StronglySorted (key_le m) l ->
             forall i j, (i < j)%nat -> (j < length l)%nat ->
                         key_le m (nth i l kv_sentinel) (nth j l kv_sentinel)).
  { clear. intros l Hs. induction Hs as [|a l Hs IH Hall]; intros i j Hij Hj.
    - simpl in Hj; lia.
    - destruct j as [|j]; [lia|]. simpl in Hj. destruct i as [|i]; simpl.
      + rewrite Forall_forall in Hall. apply Hall, nth_In. lia.
      + apply IH; lia. }
  specialize (G _ Hsorted i j ltac:(lia)).
  rewrite length_firstn in G. specialize (G ltac:(lia)).
  rewrite !nth_firstn in G.
  destruct (i <? n)%nat eqn:Ei; [|apply Nat.ltb_ge in Ei; lia].
  destruct (j <? n)%nat eqn:Ej; [|apply Nat.ltb_ge in Ej; lia].
  exact G.
Qed.

(** The loop: below [lower_bound] every key is passed by the query, from
    [upper_bound] on the query is below every key; so the loop ends on an
    entry that answers, when there is one between the bounds, and
    otherwise no entry at all answers. *)
Lemma value_array_bsearch_loop_spec :
  forall (fuel lower upper : nat),
    (upper - lower < fuel)%nat -> (upper <= n)%nat ->
    (forall i, (i < lower)%nat -> cmp i > 0) ->
    (forall i, (upper <= i)%nat -> (i < n)%nat -> cmp i < 0) ->
    (exists j, (j < n)%nat /\ cmp j = 0
               /\ value_array_bsearch_loop fuel m b k (length k) lower upper
                  = kv_value (nth j b kv_sentinel))
    \/ ((forall i, (i < n)%nat -> cmp i <> 0)
        /\ value_array_bsearch_loop fuel m b k (length k) lower upper = None).
Proof.
  induction fuel as [|fuel IH]; intros lower upper Hfuel Hup Hlo Hhi; [lia|].
  cbn [value_array_bsearch_loop]. cbv zeta.
  destruct (lower <? upper)%nat eqn:Elt.
  - apply Nat.ltb_lt in Elt.
    set (idx := ((lower + upper) / 2)%nat).
    assert (Hidx : (lower <= idx < upper)%nat).
    { subst idx. split.
      - apply Nat.div_le_lower_bound; lia.
      - apply Nat.Div0.div_lt_upper_bound; lia. }
    change (strncmp_l k (key_str m (nth idx b kv_sentinel)) (length k))
      with (cmp idx).
    destruct (cmp idx =? 0) eqn:E0.
    + left. exists idx. apply Z.eqb_eq in E0.
      split; [lia|]. split; [assumption|reflexivity].
    + apply Z.eqb_neq in E0. destruct (cmp idx >? 0) eqn:Eg.
      * apply IH; try lia; auto.
        intros i Hi. apply Z.gtb_lt in Eg.
        apply (strncmp_above (length k) k _ (key_str m (nth idx b kv_sentinel)));
          auto; try (apply Hkeys; lia); try (fold (cmp idx); lia).
        apply sorted_keys; lia.
      * apply IH; try lia; auto.
        intros i Hi Hin.
        assert (Hneg : cmp idx < 0).
        { destruct (Z.gtb_spec (cmp idx) 0); [discriminate|lia]. }
        apply (strncmp_below (length k) k (key_str m (nth idx b kv_sentinel)));
          auto; try (apply Hkeys; lia).
        apply sorted_keys; lia.
  - apply Nat.ltb_ge in Elt. right. split; auto.
    intros i Hi. destruct (Nat.lt_ge_cases i lower) as [H|H].
    + specialize (Hlo i H). lia.
    + specialize (Hhi i ltac:(lia) Hi). lia.
Qed.

End Bsearch.

(** C2. On a list sorted by [strcmp], a lookup is a binary search that
    compares the query key with a stored key by [strncmp] over the length of
    the query key, so a stored key answers when the query key is a prefix of
    it; the first probe that answers gives the value. When some entry
    answers, the value of an answering entry is returned; when none does,
    NULL is. The three lookup functions are this search on their own list.
    And so, on the list parsed from "foo=1&foobar=2", looking up "foo"
    returns the value stored under "foobar". The second part is the
    first match winning: a probe that answers ends the search. *)
Theorem value_array_bsearch_first_match :
  (forall (m : mem) (l : kv_list) (b : list lwan_key_value_t) (k : list Z),
      base l = Some b ->
      (kv_len l <= length b)%nat ->
      text k ->
      (forall i, (i < kv_len l)%nat -> text (key_str m (nth i b kv_sentinel))) ->
      StronglySorted (key_le m) (firstn (kv_len l) b) ->
      (forall i, (i < kv_len l)%nat ->
                 (answers m b k i <->
                  firstn (length k) (key_str m (nth i b kv_sentinel)) = k))
      /\ ((exists i, (i < kv_len l)%nat /\ answers m b k i) ->
          exists j, (j < kv_len l)%nat /\ answers m b k j
                    /\ value_array_bsearch m l k = kv_value (nth j b kv_sentinel))
      /\ ((forall i, (i < kv_len l)%nat -> ~ answers m b k i) ->
          value_array_bsearch m l k = None))
  /\ (forall (fuel : nat) (m : mem) (b : list lwan_key_value_t) (k : list Z)
             (lower upper : nat),
         (lower < upper)%nat ->
         answers m b k ((lower + upper) / 2) ->
         value_array_bsearch_loop (S fuel) m b k (length k) lower upper
         = kv_value (nth ((lower + upper) / 2) b kv_sentinel))
  /\ (forall (request : lwan_request_t) (m : mem) (k : list Z),
         lwan_request_get_query_param request m k
         = value_array_bsearch m (query_params request) k
         /\ lwan_request_get_post_param request m k
            = value_array_bsearch m (request_post_data request) k
         /\ lwan_request_get_cookie request m k
            = value_array_bsearch m (cookies request) k)
  /\ (exists (m : mem) (request : lwan_request_t) (foo foobar : lwan_key_value_t),
         base (query_params request)
         = Some (foo :: foobar :: repeat kv_sentinel 30)
         /\ kv_len (query_params request) = 2%nat
         /\ key_str m foo = bytes "foo"
         /\ key_str m foobar = bytes "foobar"
         /\ key_le m foo foobar
         /\ kv_value foo <> kv_value foobar
         /\ lwan_request_get_query_param request m (bytes "foo") = kv_value foobar).
Proof.
  split; [|split; [|split]].
  - intros m l b k Hb Hlen Hk Hkeys Hsorted.
    split; [|split].
    + intros i Hi. unfold answers. apply strncmp_zero_iff_prefix; auto.
    + intros [i [Hi Hans]].
      unfold value_array_bsearch. rewrite Hb.
      destruct (kv_len l =? 0)%nat eqn:E0; [apply Nat.eqb_eq in E0; lia|].
      destruct (value_array_bsearch_loop_spec m b (kv_len l) k Hlen Hk Hkeys Hsorted
                  (S (kv_len l)) 0 (kv_len l)) as [[j [Hj [Hc Hr]]]|[Hnone _]];
        try lia.
      * exists j. auto.
      * exfalso. exact (Hnone i Hi Hans).
    + intros Hnone.
      unfold value_array_bsearch. rewrite Hb.
      destruct (kv_len l =? 0)%nat eqn:E0; [reflexivity|].
      destruct (value_array_bsearch_loop_spec m b (kv_len l) k Hlen Hk Hkeys Hsorted
                  (S (kv_len l)) 0 (kv_len l)) as [[j [Hj [Hc Hr]]]|[_ Hr]];
        try lia.
      * exfalso. exact (Hnone j Hj Hc).
      * exact Hr.
  - intros fuel m b k lower upper Hlt Hans.
    cbn [value_array_bsearch_loop]. cbv zeta.
    apply Nat.ltb_lt in Hlt. rewrite Hlt.
    unfold answers in Hans. rewrite Hans. reflexivity.
  - intros request m k. repeat split.
  - exists foo_foobar_parsed, (set_query_params foo_foobar_list fresh_request),
      foo_entry, foobar_entry.
    repeat split; try reflexivity.
    + unfold key_le. vm_compute. discriminate.
    + discriminate.
Qed.

(** The list parsed from "foo=1&foobar=2", asked for "foo". *)
Lemma value_array_bsearch_first_match_witness :
  let b := (foo_entry :: foobar_entry :: repeat kv_sentinel 30)%list in
  parse_key_values insertion_sort url_decode (chr "&") zeroed_block foo_foobar
                   (mk_value (Some 0%nat) 14)
  = Assigned foo_foobar_parsed b 2
  /\ base foo_foobar_list = Some b
  /\ text (bytes "foo")
  /\ StronglySorted (key_le foo_foobar_parsed) (firstn 2 b)
  /\ answers foo_foobar_parsed b (bytes "foo") 0
  /\ exists j, (j < 2)%nat /\ answers foo_foobar_parsed b (bytes "foo") j
               /\ value_array_bsearch foo_foobar_parsed foo_foobar_list (bytes "foo")
                  = kv_value (nth j b kv_sentinel).
Proof.
  intros b.
  assert (Htext : text (bytes "foo")).
  { repeat (apply Forall_cons; [vm_compute; split; reflexivity|]). apply Forall_nil. }
  assert (Hsorted : StronglySorted (key_le foo_foobar_parsed) (firstn 2 b)).
  { simpl. apply SSorted_cons; [apply SSorted_cons; [apply SSorted_nil|apply Forall_nil]|].
    apply Forall_cons; [|apply Forall_nil]. unfold key_le. vm_compute. discriminate. }
  assert (Hans : answers foo_foobar_parsed b (bytes "foo") 0) by reflexivity.
  split; [vm_compute; reflexivity|].
  split; [reflexivity|]. split; [exact Htext|]. split; [exact Hsorted|].
  split; [exact Hans|].
  destruct value_array_bsearch_first_match as [H _].
  apply (H foo_foobar_parsed foo_foobar_list b (bytes "foo")); auto.
  - simpl. lia.
  - intros [|[|i]] Hi; simpl in Hi; try lia;
      repeat (apply Forall_cons; [vm_compute; split; reflexivity|]); apply Forall_nil.
  - exists 0%nat. split; [simpl; lia|exact Hans].
Defined.


(** ** C1 and C3: the key-value list *)

Lemma kv_update_length (kvs : list lwan_key_value_t) (i : nat) (e : lwan_key_value_t)
      (kvs' : list lwan_key_value_t) :
  kv_update kvs i e = Some kvs' -> length kvs' = length kvs /\ (i < length kvs)%nat.
Proof.
  revert i kvs'; induction kvs as [|h t IH]; intros [|i] kvs'; simpl; try discriminate.
  - intros [= <-]. simpl. lia.
  - destruct (kv_update t i e) as [t'|] eqn:E; simpl; [|discriminate].
    intros [= <-]. destruct (IH i t' E). simpl. lia.
Qed.

Lemma kv_update_nth (kvs : list lwan_key_value_t) (i : nat) (e : lwan_key_value_t)
      (kvs' : list lwan_key_value_t) :
  kv_update kvs i e = Some kvs' ->
  nth_error kvs' i = Some e
  /\ firstn i kvs' = firstn i kvs
  /\ skipn (S i) kvs' = skipn (S i) kvs.
Proof.
  revert i kvs'; induction kvs as [|h t IH]; intros [|i] kvs'; simpl; try discriminate.
  - intros [= <-]. auto.
  - destruct (kv_update t i e) as [t'|] eqn:E; simpl; [|discriminate].
    intros [= <-]. destruct (IH i t' E) as [H1 [H2 H3]]. simpl.
    repeat split; auto. now rewrite H2.
Qed.

Lemma kv_update_none (kvs : list lwan_key_value_t) (i : nat) (e : lwan_key_value_t) :
  kv_update kvs i e = None <-> (length kvs <= i)%nat.
Proof.
  revert i; induction kvs as [|h t IH]; intros [|i]; simpl; split; try lia;
    try discriminate; auto.
  - destruct (kv_update t i e) eqn:E; simpl; [discriminate|].
    intros _. apply IH in E. lia.
  - intros H. apply le_S_n in H. apply IH in H. now rewrite H.
Qed.

Lemma coro_malloc_length junk n block :
  coro_malloc junk n = Some block -> length block = n.
Proof.
  unfold coro_malloc. destruct junk as [f|]; simpl; [|discriminate].
  intros [= <-]. now rewrite length_map, length_seq.
Qed.

Section KeyValueLoop.

Variable qsort :
  (lwan_key_value_t -> lwan_key_value_t -> Z) ->
  list lwan_key_value_t -> list lwan_key_value_t.
Variable decode_value : mem -> option ptr -> mem * nat.
Variable separator : Z.

(** The loop of [parse_key_values] ends: a block of [n_elements] elements
    holding [values] pairs lets it make [n_elements - values] passes. *)
Lemma parse_key_values_loop_returns :
  forall (fuel : nat) (m : mem) (p : ptr) (kvs : list lwan_key_value_t) (values : nat),
    (values < n_elements)%nat ->
    (n_elements - values <= fuel)%nat ->
    exists r, parse_key_values_loop qsort decode_value separator fuel m p kvs values
              = Some r.
Proof.
  induction fuel as [|fuel IH]; intros m p kvs values Hv Hf; [lia|].
  cbn [parse_key_values_loop]. cbv zeta.
  destruct (load m (p + skip_run separator (skipn p m)) =? NUL); [eauto|].
  destruct (strsep_char m _ (chr "=")) as [m1 [v|]]; [|eauto].
  destruct (strsep_char m1 (Some v) separator) as [m2 next].
  destruct (decode_value m2 _) as [m3 klen].
  destruct (Nat.eqb klen 0); [eauto|].
  destruct (decode_value m3 (Some v)) as [m4 vlen].
  destruct (Nat.eqb vlen 0); [eauto|].
  destruct (kv_update kvs values _) as [kvs'|]; [|eauto].
  destruct next as [p'|]; [|eauto].
  destruct (S values <? n_elements)%nat eqn:E; [|eauto].
  apply Nat.ltb_lt in E. apply IH; lia.
Qed.

(** Every way out of the loop that assigns went through
    [parse_key_values_finish] with at least one pair. *)
Lemma parse_key_values_loop_assigned :
  forall (fuel : nat) (m : mem) (p : ptr) (kvs : list lwan_key_value_t) (values : nat)
         (m' : mem) (out : list lwan_key_value_t) (n : nat),
    parse_key_values_loop qsort decode_value separator fuel m p kvs values
    = Some (Assigned m' out n) ->
    (values < n)%nat
    /\ exists kvs', length kvs' = length kvs
                    /\ parse_key_values_finish qsort m' kvs' n = Assigned m' out n.
Proof.
  induction fuel as [|fuel IH]; intros m p kvs values m' out n; [discriminate|].
  cbn [parse_key_values_loop]. cbv zeta.
  destruct (load m (p + skip_run separator (skipn p m)) =? NUL); [discriminate|].
  destruct (strsep_char m _ (chr "=")) as [m1 [v|]]; [|discriminate].
  destruct (strsep_char m1 (Some v) separator) as [m2 next].
  destruct (decode_value m2 _) as [m3 klen].
  destruct (Nat.eqb klen 0); [discriminate|].
  destruct (decode_value m3 (Some v)) as [m4 vlen].
  destruct (Nat.eqb vlen 0); [discriminate|].
  destruct (kv_update kvs values _) as [kvs'|] eqn:Eu; [|discriminate].
  apply kv_update_length in Eu. destruct Eu as [Elen _].
  assert (Fin : forall r,
             parse_key_values_finish qsort m4 kvs' (S values) = r ->
             Some r = Some (Assigned m' out n) ->
             (values < n)%nat
             /\ exists kvs'', length kvs'' = length kvs
                              /\ parse_key_values_finish qsort m' kvs'' n
                                 = Assigned m' out n).
  { intros r Hr [= ->]. unfold parse_key_values_finish in Hr.
    destruct (kv_update kvs' (S values) kv_sentinel) as [k2|] eqn:E2; [|discriminate].
    injection Hr as <- <- <-. split; [lia|]. exists kvs'. split; [exact Elen|].
    unfold parse_key_values_finish. now rewrite E2. }
  destruct next as [p'|]; [|intros H; eapply Fin; eauto].
  destruct (S values <? n_elements)%nat; [|intros H; eapply Fin; eauto].
  intros H. apply IH in H. destruct H as [Hn [k2 [Hl Hfin]]].
  split; [lia|]. exists k2. split; [congruence|exact Hfin].
Qed.

End KeyValueLoop.

(** C1, where the code goes wrong. A query string of exactly [n_elements]
    pairs fills the block [coro_malloc] gave for [n_elements] elements; the
    store of the (NULL, NULL) sentinel then goes to element [n_elements],
    one past the block, whatever [qsort] and the allocator are. The list is
    never handed to the request. *)
Theorem parse_key_values_sentinel_overruns :
  forall (qsort : (lwan_key_value_t -> lwan_key_value_t -> Z) ->
                  list lwan_key_value_t -> list lwan_key_value_t)
         (junk : nat -> lwan_key_value_t)
         (request : lwan_request_t),
    let helper := set_query_string (mk_value (Some 0%nat) 127) (new_helper 127 None) in
    (exists m', parse_key_values qsort url_decode (chr "&") (Some junk) thirty_two_pairs
                                 (query_string helper) = Overrun m')
    /\ parse_query_string qsort (Some junk) request helper thirty_two_pairs
       = Out_of_bounds.
Proof.
  intros qsort junk request helper.
  assert (E : exists m', parse_key_values qsort url_decode (chr "&") (Some junk)
                                          thirty_two_pairs (query_string helper)
                         = Overrun m').
  { vm_compute. eexists. reflexivity. }
  split; [exact E|].
  destruct E as [m' E]. unfold parse_query_string. rewrite E. reflexivity.
Qed.

(** *** The comparison of keys is a total preorder *)

Lemma until_nul_nonzero (l : list Z) : Forall (fun b => b <> NUL) (until_nul l).
Proof.
  induction l as [|b t IH]; simpl; [constructor|].
  destruct (Z.eqb_spec b NUL); [constructor|]. constructor; assumption.
Qed.

Lemma key_str_nonzero (m : mem) (e : lwan_key_value_t) :
  Forall (fun b => b <> NUL) (key_str m e).
Proof.
  unfold key_str, cstr. destruct (key e); [apply until_nul_nonzero|constructor].
Qed.

Lemma strcmp_l_swap (a b : list Z) : strcmp_l b a = - strcmp_l a b.
Proof.
  revert b; induction a as [|x a IH]; intros [|y b]; simpl; unfold NUL; try lia.
  rewrite (Z.eqb_sym y x). destruct (x =? y); [apply IH|lia].
Qed.

Ltac open_nonzero :=
  repeat match goal with
         | H : Forall _ (_ :: _) |- _ => inversion H; subst; clear H
         end.

Lemma strcmp_l_trans (a : list Z) :
  forall b c : list Z,
    Forall (fun x => x <> NUL) a -> Forall (fun x => x <> NUL) b ->
    Forall (fun x => x <> NUL) c ->
    strcmp_l a b <= 0 -> strcmp_l b c <= 0 -> strcmp_l a c <= 0.
Proof.
  induction a as [|x a IH]; intros [|y b] [|z c] Ha Hb Hc Hab Hbc;
    simpl in *; open_nonzero; unfold NUL in *; split_eqb; subst; try lia.
  apply (IH b c); assumption.
Qed.

Lemma key_le_total (m : mem) (a b : lwan_key_value_t) :
  (key_value_compare_qsort_key m a b <? 0) = false -> key_le m b a.
Proof.
  unfold key_le, key_value_compare_qsort_key. intros H.
  apply Z.ltb_ge in H. rewrite strcmp_l_swap. lia.
Qed.

Lemma key_le_trans (m : mem) (a b c : lwan_key_value_t) :
  key_le m a b -> key_le m b c -> key_le m a c.
Proof.
  unfold key_le, key_value_compare_qsort_key.
  apply strcmp_l_trans; apply key_str_nonzero.
Qed.

(** *** Insertion sort is a [qsort] *)

Lemma sort_insert_perm cmp (e : lwan_key_value_t) (l : list lwan_key_value_t) :
  Permutation (e :: l) (sort_insert cmp e l).
Proof.
  induction l as [|h t IH]; simpl; [reflexivity|].
  destruct (cmp e h <? 0); [reflexivity|].
  rewrite perm_swap. now apply perm_skip.
Qed.

Lemma insertion_sort_perm cmp (l : list lwan_key_value_t) :
  Permutation l (insertion_sort cmp l).
Proof.
  induction l as [|h t IH]; simpl; [reflexivity|].
  rewrite <- sort_insert_perm. now apply perm_skip.
Qed.

Lemma sort_insert_sorted (m : mem) (e : lwan_key_value_t) (l : list lwan_key_value_t) :
  StronglySorted (key_le m) l ->
  StronglySorted (key_le m) (sort_insert (key_value_compare_qsort_key m) e l).
Proof.
  induction 1 as [|h t Hs IH Hall]; simpl.
  - constructor; constructor.
  - destruct (key_value_compare_qsort_key m e h <? 0) eqn:E.
    + constructor; [constructor; assumption|].
      apply Z.ltb_lt in E.
      assert (Heh : key_le m e h) by (unfold key_le; lia).
      constructor; [exact Heh|].
      eapply Forall_impl; [|exact Hall]. intros x Hx. eapply key_le_trans; eauto.
    + constructor; [exact IH|].
      apply key_le_total in E.
      eapply Permutation_Forall; [apply sort_insert_perm|].
      constructor; assumption.
Qed.

Lemma insertion_sort_sorted (m : mem) (l : list lwan_key_value_t) :
  StronglySorted (key_le m) (insertion_sort (key_value_compare_qsort_key m) l).
Proof.
  induction l as [|h t IH]; simpl; [constructor|].
  now apply sort_insert_sorted.
Qed.

(** *** What an assigned list looks like *)

Section KeyValueResult.

Variable qsort :
  (lwan_key_value_t -> lwan_key_value_t -> Z) ->
  list lwan_key_value_t -> list lwan_key_value_t.

Hypothesis qsort_perm : forall cmp l, Permutation l (qsort cmp l).
Hypothesis qsort_sorted :
  forall m l, StronglySorted (key_le m) (qsort (key_value_compare_qsort_key m) l).

(** When [parse_key_values] does assign, the list holds between one and
    [n_elements - 1] pairs, sorted by [strcmp] of their keys, with the
    (NULL, NULL) sentinel right behind them inside the block. *)
Lemma parse_key_values_assigned :
  forall decode_value separator junk (m : mem) (helper_value : lwan_value_t)
         (m' : mem) (out : list lwan_key_value_t) (n : nat),
    parse_key_values qsort decode_value separator junk m helper_value
    = Assigned m' out n ->
    (1 <= n < n_elements)%nat
    /\ length out = n_elements
    /\ nth_error out n = Some kv_sentinel
    /\ StronglySorted (key_le m') (firstn n out).
Proof.
  intros decode_value separator junk m hv m' out n.
  unfold parse_key_values.
  destruct (Nat.eqb (len hv) 0); [discriminate|].
  destruct (coro_malloc junk n_elements) as [block|] eqn:Eb; [|discriminate].
  apply coro_malloc_length in Eb.
  destruct (value hv) as [p|]; [|discriminate].
  destruct (parse_key_values_loop qsort decode_value separator n_elements m p block 0)
    as [r|] eqn:El; [|discriminate].
  intros ->. apply parse_key_values_loop_assigned in El.
  destruct El as [Hn [kvs [Hlen Hfin]]].
  unfold parse_key_values_finish in Hfin.
  destruct (kv_update kvs n kv_sentinel) as [kvs'|] eqn:Eu; [|discriminate].
  injection Hfin as <-.
  destruct (kv_update_length _ _ _ _ Eu) as [Hl' Hin].
  destruct (kv_update_nth _ _ _ _ Eu) as [Hnth _].
  assert (Hq : length (qsort (key_value_compare_qsort_key m') (firstn n kvs')) = n).
  { rewrite <- (Permutation_length (qsort_perm _ _)), length_firstn. lia. }
  split; [lia|]. split; [|split].
  - rewrite length_app, Hq, length_skipn. lia.
  - rewrite nth_error_app2 by lia. rewrite Hq, Nat.sub_diag.
    rewrite <- (firstn_skipn n kvs') in Hnth.
    rewrite nth_error_app2 in Hnth by (rewrite length_firstn; lia).
    rewrite length_firstn in Hnth.
    replace (n - Nat.min n (length kvs'))%nat with 0%nat in Hnth by lia.
    exact Hnth.
  - rewrite firstn_app, Hq, Nat.sub_diag. simpl. rewrite app_nil_r.
    rewrite <- Hq at 1. rewrite firstn_all. apply qsort_sorted.
Qed.

End KeyValueResult.

(** C3 as stated fails: on "a=1&b=%00" the pair a=1 is collected, the
    decoder then returns 0 on the value "%00", and the request gets
    nothing: its list base stays NULL and its length 0. *)
Lemma parse_query_string_drops_collected_pairs :
  let helper := set_query_string (mk_value (Some 0%nat) 9) (new_helper 9 None) in
  let m' := (bytes "a" ++ [NUL] ++ bytes "1" ++ [NUL] ++ bytes "b" ++ [NUL]
             ++ bytes "%00" ++ [NUL])%list in
  parse_key_values insertion_sort url_decode (chr "&") zeroed_block second_value_bad
                   (query_string helper)
  = Unassigned Decode_failed m'
               (mk_kv (Some 0%nat) (Some 2%nat) :: repeat kv_sentinel 31) 1
  /\ parse_query_string insertion_sort zeroed_block fresh_request helper second_value_bad
     = Returns (fresh_request, m')
  /\ base (query_params fresh_request) = None
  /\ kv_len (query_params fresh_request) = 0%nat.
Proof.
  intros helper m'. vm_compute. repeat split; reflexivity.
Qed.

(** *** A decoder that returns 0 *)

Lemma behind_run_spec (separator : Z) (s : list Z) :
  separator <> NUL ->
  forall (m : mem) (p : ptr),
    cstring_at m p s ->
    cstring_at m (p + skip_run separator (skipn p m)) (behind_run separator s).
Proof.
  intros Hsep. induction s as [|b t IH]; intros m p H.
  - destruct H as [[rest E] H']. rewrite E. cbn [app skip_run behind_run].
    assert (E0 : (NUL =? SP) || (NUL =? separator) = false).
    { apply orb_false_iff. split; [reflexivity|]. apply Z.eqb_neq. congruence. }
    rewrite E0, Nat.add_0_r. split; [exists rest; exact E|exact H'].
  - pose proof H as [[rest E] [Hnz Hby]]. rewrite E.
    cbn [app skip_run behind_run].
    destruct ((b =? SP) || (b =? separator)).
    + simpl app in E. destruct (skipn_cons_load m p b _ E) as [_ Et].
      inversion Hnz; subst. inversion Hby; subst.
      assert (Ht : cstring_at m (S p) t) by (split; [exists rest; exact Et|auto]).
      specialize (IH m (S p) Ht). rewrite Et in IH.
      replace (p + S (skip_run separator (t ++ NUL :: rest)))%nat
        with (S p + skip_run separator (t ++ NUL :: rest))%nat by lia.
      exact IH.
    + rewrite Nat.add_0_r. exact H.
Qed.

Lemma cut_at_index (c : Z) (s : list Z) :
  match cut_at c s with
  | Some (a, r) => index_of c s = Some (length a) /\ s = (a ++ c :: r)%list
  | None => index_of c s = None
  end.
Proof.
  induction s as [|b t IH]; simpl; [reflexivity|].
  destruct (Z.eqb_spec b c) as [->|Hne].
  - split; reflexivity.
  - destruct (cut_at c t) as [[a r]|].
    + destruct IH as [-> ->]. split; reflexivity.
    + rewrite IH. reflexivity.
Qed.

(** What the loop asks of a decoder: it says 0 on the texts [returns_zero]
    names, and leaves the bytes behind the string it was handed alone. *)
Section Refusal.

Variable qsort :
  (lwan_key_value_t -> lwan_key_value_t -> Z) ->
  list lwan_key_value_t -> list lwan_key_value_t.
Variable decode_value : mem -> option ptr -> mem * nat.
Variable returns_zero : list Z -> bool.
Variable separator : Z.

Hypothesis separator_not_nul : separator <> NUL.
Hypothesis decode_zero :
  forall m p s, cstring_at m p s ->
                Nat.eqb (snd (decode_value m (Some p))) O = returns_zero s.
Hypothesis decode_frame :
  forall m p s,
    cstring_at m p s ->
    length (fst (decode_value m (Some p))) = length m
    /\ forall q, (p + length s < q)%nat ->
                 load (fst (decode_value m (Some p))) q = load m q.

Lemma decode_keeps (m : mem) (p : ptr) (s : list Z) (q : ptr) (t : list Z) :
  cstring_at m p s -> cstring_at m q t -> (p + length s < q)%nat ->
  cstring_at (fst (decode_value m (Some p))) q t.
Proof.
  intros Hs Ht Hq. destruct (decode_frame m p s Hs) as [Hl Hf].
  apply (cstring_at_frame m); auto. intros x Hx. apply Hf. lia.
Qed.

(** The loop comes to the key or value the walk of the text comes to, and
    returns there: nothing is assigned. *)
Lemma parse_key_values_loop_refused :
  forall (pairs fuel : nat) (m : mem) (p : ptr) (kvs : list lwan_key_value_t)
         (values : nat) (s : list Z),
    cstring_at m p s ->
    (pairs <= fuel)%nat ->
    (values + pairs = n_elements)%nat ->
    length kvs = n_elements ->
    decoder_refuses returns_zero separator pairs s = true ->
    exists why m' kvs' values',
      parse_key_values_loop qsort decode_value separator fuel m p kvs values
      = Some (Unassigned why m' kvs' values').
Proof.
  induction pairs as [|pairs IH]; intros fuel m p kvs values s Hs Hfuel Hsum Hlen Href;
    [discriminate|].
  destruct fuel as [|fuel]; [lia|].
  cbn [parse_key_values_loop decoder_refuses] in *. cbv zeta.
  pose proof (behind_run_spec separator s separator_not_nul m p Hs) as H1.
  remember (p + skip_run separator (skipn p m))%nat as p1 eqn:Ep1. clear Ep1.
  destruct (behind_run separator s) as [|b t1]; [discriminate|].
  remember (b :: t1)%list as s1 eqn:Es.
  assert (Hb : (load m p1 =? NUL) = false).
  { destruct (cstring_at_loads m p1 s1 H1) as [_ [Hl _]].
    destruct H1 as [_ [Hnz _]]. rewrite Es in Hnz, Hl.
    specialize (Hl 0%nat ltac:(simpl; lia)). rewrite Nat.add_0_r in Hl.
    inversion Hnz; subst.
    apply Z.eqb_neq. rewrite Hl. assumption. }
  rewrite Hb.
  unfold strsep_char at 1. unfold strchr. rewrite (cstr_of_cstring_at m p1 s1 H1).
  pose proof (cut_at_index (chr "=") s1) as Hc.
  destruct (cut_at (chr "=") s1) as [[k t]|]; [|discriminate].
  destruct Hc as [Hi Es1]. rewrite Hi. cbn [option_map].
  rewrite Es1 in H1.
  destruct (cstring_at_cut m p1 k t (chr "=") H1) as [Hk1 Ht1]. cbv zeta in Hk1, Ht1.
  remember (store m (p1 + length k) NUL) as m1 eqn:Em1.
  remember (S (p1 + length k)) as v eqn:Ev.
  unfold strsep_char. unfold strchr. rewrite (cstr_of_cstring_at m1 v t Ht1).
  pose proof (cut_at_index separator t) as Hc2.
  destruct (cut_at separator t) as [[val rest]|].
  - destruct Hc2 as [Hi2 Et]. rewrite Hi2. cbn [option_map].
    rewrite Et in Ht1.
    destruct (cstring_at_cut m1 v val rest separator Ht1) as [Hv2 Hr2].
    cbv zeta in Hv2, Hr2.
    remember (store m1 (v + length val) NUL) as m2 eqn:Em2.
    remember (S (v + length val)) as next eqn:En.
    assert (Hk2 : cstring_at m2 p1 k).
    { apply (cstring_at_frame m1); auto.
      - rewrite Em2. apply store_length.
      - intros q Hq. rewrite Em2. apply load_store_other. lia. }
    pose proof (decode_zero m2 p1 k Hk2) as Hz.
    pose proof (decode_keeps m2 p1 k v val Hk2 Hv2 ltac:(lia)) as Hv3.
    pose proof (decode_keeps m2 p1 k next rest Hk2 Hr2 ltac:(lia)) as Hr3.
    unfold ptr in *. remember (decode_value m2 (Some p1)) as dr eqn:Edr in *. clear Edr. destruct dr as [m3 klen].
    cbn [fst snd] in Hz, Hv3, Hr3.
    rewrite Hz. destruct (returns_zero k); [eauto|].
    pose proof (decode_zero m3 v val Hv3) as Hz2.
    pose proof (decode_keeps m3 v val next rest Hv3 Hr3 ltac:(lia)) as Hr4.
    unfold ptr in *. remember (decode_value m3 (Some v)) as dr eqn:Edr in *. clear Edr. destruct dr as [m4 vlen].
    cbn [fst snd] in Hz2, Hr4.
    rewrite Hz2. destruct (returns_zero val); [eauto|].
    cbn [orb] in Href.
    destruct (kv_update kvs values (mk_kv (Some p1) (Some v))) as [kvs'|] eqn:Eu.
    2:{ apply kv_update_none in Eu. lia. }
    destruct (kv_update_length _ _ _ _ Eu) as [Hl' _].
    assert (Hp : pairs <> 0%nat) by (intros ->; discriminate Href).
    assert (Hlt : (S values <? n_elements)%nat = true) by (apply Nat.ltb_lt; lia).
    rewrite Hlt.
    apply (IH fuel m4 next kvs' (S values) rest); auto; lia.
  - rewrite Hc2. cbn [option_map].
    pose proof (decode_zero m1 p1 k Hk1) as Hz.
    pose proof (decode_keeps m1 p1 k v t Hk1 Ht1 ltac:(lia)) as Hv3.
    unfold ptr in *. remember (decode_value m1 (Some p1)) as dr eqn:Edr in *. clear Edr. destruct dr as [m3 klen].
    cbn [fst snd] in Hz, Hv3.
    rewrite Hz. destruct (returns_zero k); [eauto|].
    pose proof (decode_zero m3 v t Hv3) as Hz2.
    unfold ptr in *. remember (decode_value m3 (Some v)) as dr eqn:Edr in *. clear Edr. destruct dr as [m4 vlen].
    cbn [fst snd] in Hz2.
    rewrite Hz2. destruct (returns_zero t); [eauto|discriminate].
Qed.

Lemma parse_key_values_refused :
  forall (junk : option (nat -> lwan_key_value_t)) (m : mem)
         (helper_value : lwan_value_t) (p : ptr) (s : list Z),
    junk <> None ->
    value helper_value = Some p ->
    len helper_value <> 0%nat ->
    cstring_at m p s ->
    decoder_refuses returns_zero separator n_elements s = true ->
    exists why m' kvs' values',
      parse_key_values qsort decode_value separator junk m helper_value
      = Unassigned why m' kvs' values'.
Proof.
  intros junk m hv p s Hjunk Hv Hl Hs Href. unfold parse_key_values.
  apply Nat.eqb_neq in Hl. rewrite Hl, Hv.
  destruct (coro_malloc junk n_elements) as [block|] eqn:Eb.
  2:{ destruct junk; [discriminate Eb|congruence]. }
  apply coro_malloc_length in Eb.
  destruct (parse_key_values_loop_refused n_elements n_elements m p block 0 s)
    as [why [m' [kvs' [values' E]]]]; auto.
  rewrite E. eauto.
Qed.

End Refusal.

(** The URL decoder is such a decoder. *)
Lemma url_decode_zero (m : mem) (p : ptr) (s : list Z) :
  cstring_at m p s ->
  Nat.eqb (snd (url_decode m (Some p))) O = url_decoder_returns_zero s.
Proof.
  intros H. pose proof (cstring_at_length m p s H) as Hlen.
  destruct H as [[rest E] [Hnz Hby]].
  pose proof (url_decode_loop_refines (length s) s (Nat.le_refl _) (S (length m)) m
                p p p rest E Hnz Hby (Nat.le_refl _) ltac:(lia)) as H.
  unfold url_decode, url_decoder_returns_zero.
  destruct (percent_decode s) as [out|].
  - rewrite H. cbn [snd]. f_equal. lia.
  - destruct H as [m' ->]. reflexivity.
Qed.

Lemma url_decode_frame (m : mem) (p : ptr) (s : list Z) :
  cstring_at m p s ->
  length (fst (url_decode m (Some p))) = length m
  /\ forall q, (p + length s < q)%nat -> load (fst (url_decode m (Some p))) q = load m q.
Proof.
  intros H. unfold url_decode.
  destruct (url_decode_loop (S (length m)) m p p p) as [[m' n]|] eqn:E;
    [|split; reflexivity].
  destruct (url_decode_loop_frame _ _ _ _ _ _ _ (Nat.le_refl _) E) as [Hl Hf].
  split; [exact Hl|]. intros q Hq. apply Hf. right.
  unfold strlen. rewrite (cstr_of_cstring_at m p s H). exact Hq.
Qed.

(** C3, amended. When the walk over the text of a query string or of a
    form body comes, within its 32 pairs, to a key or a value on which the
    URL decoder returns 0, [parse_key_values] returns before the sentinel,
    the sort and the two assignments: whatever pairs it had collected, the
    caller gets the request back as it was, list base and length included.
    (The decoder of the cookies never returns 0.) *)
Theorem parse_key_values_decode_failure_drops_list :
  forall (qsort : (lwan_key_value_t -> lwan_key_value_t -> Z) ->
                  list lwan_key_value_t -> list lwan_key_value_t)
         (junk : option (nat -> lwan_key_value_t))
         (request : lwan_request_t) (helper : request_parser_helper) (m : mem),
    junk <> None ->
    (forall (p : ptr) (s : list Z),
        value (query_string helper) = Some p ->
        len (query_string helper) <> 0%nat ->
        cstring_at m p s ->
        decoder_refuses url_decoder_returns_zero (chr "&") n_elements s = true ->
        exists m', parse_query_string qsort junk request helper m
                   = Returns (request, m'))
    /\ (forall (p : ptr) (s : list Z),
           value (post_data helper) = Some p ->
           len (post_data helper) <> 0%nat ->
           cstring_at m p s ->
           decoder_refuses url_decoder_returns_zero (chr "&") n_elements s = true ->
           exists m', parse_post_data qsort junk request helper m
                      = Returns (request, m'))
    /\ (forall (m0 : mem) (input : option ptr), snd (identity_decode m0 input) <> 0%nat).
Proof.
  intros qsort junk request helper m Hjunk.
  assert (Hamp : chr "&" <> NUL) by discriminate.
  split; [|split].
  - intros p s Hv Hl Hs Href. unfold parse_query_string.
    destruct (parse_key_values_refused qsort url_decode url_decoder_returns_zero
                (chr "&") Hamp url_decode_zero url_decode_frame
                junk m (query_string helper) p s Hjunk Hv Hl Hs Href)
      as [why [m' [kvs' [values' E]]]].
    rewrite E. exists m'. reflexivity.
  - intros p s Hv Hl Hs Href. unfold parse_post_data.
    destruct (negb (len (content_type helper) =? _)%nat); [eexists; reflexivity|].
    destruct (value (content_type helper)) as [ct|]; [|eexists; reflexivity].
    destruct (negb (strcmp_l _ _ =? 0)); [eexists; reflexivity|].
    destruct (parse_key_values_refused qsort url_decode url_decoder_returns_zero
                (chr "&") Hamp url_decode_zero url_decode_frame
                junk m (post_data helper) p s Hjunk Hv Hl Hs Href)
      as [why [m' [kvs' [values' E]]]].
    rewrite E. exists m'. reflexivity.
  - intros m0 input. discriminate.
Qed.

(** "a=1&b=%00": the walk takes a=1 and comes to the value "%00", on which
    the decoder returns 0; the request is left without a list. *)
Lemma parse_key_values_decode_failure_drops_list_witness :
  let helper := set_query_string (mk_value (Some 0%nat) 9) (new_helper 9 None) in
  zeroed_block <> None
  /\ cstring_at second_value_bad 0 (bytes "a=1&b=%00")
  /\ url_decoder_returns_zero (bytes "%00") = true
  /\ decoder_refuses url_decoder_returns_zero (chr "&") n_elements (bytes "a=1&b=%00")
     = true
  /\ exists m',
      parse_query_string insertion_sort zeroed_block fresh_request helper
                         second_value_bad
      = Returns (fresh_request, m').
Proof.
  intros helper.
  assert (Hj : zeroed_block <> None) by discriminate.
  assert (Hs : cstring_at second_value_bad 0 (bytes "a=1&b=%00")).
  { split; [exists []; reflexivity|].
    let l := eval vm_compute in (bytes "a=1&b=%00") in
    change (bytes "a=1&b=%00") with l.
    split.
    - repeat (apply Forall_cons; [discriminate|]). apply Forall_nil.
    - repeat (apply Forall_cons;
              [split; [apply Z.leb_le|apply Z.ltb_lt]; reflexivity|]).
      apply Forall_nil. }
  assert (Hr : decoder_refuses url_decoder_returns_zero (chr "&") n_elements
                 (bytes "a=1&b=%00") = true) by (vm_compute; reflexivity).
  split; [exact Hj|]. split; [exact Hs|]. split; [vm_compute; reflexivity|].
  split; [exact Hr|].
  apply (proj1 (parse_key_values_decode_failure_drops_list
                  insertion_sort zeroed_block fresh_request helper second_value_bad Hj)
               0%nat (bytes "a=1&b=%00")); try reflexivity; auto.
  discriminate.
Defined.


(** ** C8 and C9: the dispatch driver *)

(** *** What the reader and the parser leave alone *)

Lemma parse_fragment_and_query_counter request helper m space :
  urls_rewritten (snd (fst (parse_fragment_and_query request helper m space)))
  = urls_rewritten helper.
Proof.
  unfold parse_fragment_and_query.
  destruct (value (url request)) as [u|]; [|reflexivity].
  destruct (memrchr m u (chr "#") (len (url request))) as [f|];
    match goal with |- context [memchr ?a ?b ?c ?d] => destruct (memchr a b c d) end;
    reflexivity.
Qed.

Lemma identify_http_path_counter request m buffer helper :
  urls_rewritten (snd (fst (fst (identify_http_path request m buffer helper))))
  = urls_rewritten helper.
Proof.
  unfold identify_http_path.
  destruct (memchr_size_t m buffer CR _); [|reflexivity].
  destruct (_ <? _)%nat; [reflexivity|].
  destruct (negb _); [reflexivity|].
  destruct (negb _); [reflexivity|].
  destruct (negb (load _ buffer =? _)); [destruct (_ =? chr "0"); reflexivity|].
  match goal with
  | |- context [parse_fragment_and_query ?a ?b ?c ?d] =>
      pose proof (parse_fragment_and_query_counter a b c d) as H;
      destruct (parse_fragment_and_query a b c d) as [[rq hp] mm]
  end.
  exact H.
Qed.

Lemma header_assign_counter c m v n helper :
  urls_rewritten (header_assign c m v n helper) = urls_rewritten helper.
Proof. destruct c; reflexivity. Qed.

Lemma parse_headers_retry_counter :
  forall fuel helper m buffer p buffer_end helper' m' r,
    parse_headers_retry fuel helper m buffer p buffer_end = Some (helper', m', r) ->
    urls_rewritten helper' = urls_rewritten helper.
Proof.
  induction fuel as [|fuel IH]; intros helper m buffer p buffer_end helper' m' r;
    [discriminate|].
  cbn [parse_headers_retry]. cbv zeta.
  assert (Hdnm : forall h mm pp,
             urls_rewritten h = urls_rewritten helper ->
             match memchr_size_t mm pp LF
                                    (size_t_of (Z.of_nat buffer_end - Z.of_nat pp)) with
             | Some q =>
                 if load mm (S q) =? NUL then Some (h, mm, Some (S q))
                 else parse_headers_retry fuel h mm (S q) (S q) buffer_end
             | None => Some (h, mm, Some buffer)
             end = Some (helper', m', r) ->
             urls_rewritten helper' = urls_rewritten helper).
  { intros h mm pp Hh. destruct (memchr_size_t mm pp LF _) as [q|].
    - destruct (load mm (S q) =? NUL).
      + intros [= <- _ _]. exact Hh.
      + intros H. apply IH in H. congruence.
    - intros [= <- _ _]. exact Hh. }
  destruct (_ <=? _)%nat; [intros [= <- _ _]; reflexivity|].
  destruct (match_tag m p _); [intros [= <- _ _]; reflexivity|].
  destruct (header_switch m p) as [c|]; [|apply Hdnm; reflexivity].
  destruct c;
    try (intros H; apply IH in H; exact H);
    match goal with
    | |- context [MATCH_HEADER ?a ?b ?c ?d] => destruct (MATCH_HEADER a b c d)
    end;
    try (intros [= <- _ _]; reflexivity);
    apply Hdnm; try reflexivity.
Qed.

Lemma parse_headers_counter helper m buffer buffer_end :
  urls_rewritten (fst (fst (parse_headers helper m buffer buffer_end)))
  = urls_rewritten helper.
Proof.
  unfold parse_headers. destruct (load m buffer =? NUL); [reflexivity|].
  destruct (parse_headers_retry _ helper m buffer buffer buffer_end)
    as [[[h mm] r]|] eqn:E; [|reflexivity].
  apply parse_headers_retry_counter in E. exact E.
Qed.

Lemma read_post_data_counter parse_long helper m :
  urls_rewritten (fst (read_post_data parse_long helper m)) = urls_rewritten helper.
Proof.
  unfold read_post_data.
  destruct (next_request helper); [|reflexivity].
  destruct (value (content_length helper)); [|reflexivity].
  destruct (_ >? _); [reflexivity|].
  destruct (_ <? 0); [reflexivity|].
  destruct (_ =? _); [reflexivity|].
  destruct (_ >? _); reflexivity.
Qed.

Lemma parse_http_request_counter parse_long parse_proxy_protocol request helper m :
  urls_rewritten
    (snd (fst (fst (parse_http_request parse_long parse_proxy_protocol request helper m))))
  = urls_rewritten helper.
Proof.
  unfold parse_http_request.
  destruct (if REQUEST_ALLOW_PROXY_REQS (flags request) then _ else _)
    as [[rq mm] [buffer|]]; [|reflexivity].
  destruct (identify_http_method rq mm _) as [rq' path].
  destruct (_ =? path)%nat; [destruct (_ =? NUL); reflexivity|].
  pose proof (identify_http_path_counter rq' mm path helper) as Hp.
  destruct (identify_http_path rq' mm path helper) as [[[rq2 h2] m2] [b2|]];
    simpl in Hp; [|exact Hp].
  pose proof (parse_headers_counter h2 m2 b2 (buffer_len h2)) as Hh.
  destruct (parse_headers h2 m2 b2 (buffer_len h2)) as [[h3 m3] [b3|]];
    simpl in Hh; [|simpl; congruence].
  destruct (url_decode m3 _) as [m4 dl].
  destruct (dl =? 0)%nat; [simpl; congruence|].
  destruct (REQUEST_METHOD_POST _); [|simpl; congruence].
  pose proof (read_post_data_counter parse_long h3 m4) as Hr.
  destruct (read_post_data parse_long h3 m4) as [h5 st]. simpl in *. congruence.
Qed.

Lemma reader_keeps_refl s : reader_keeps s s.
Proof. split; [reflexivity|]. exists []. split; [reflexivity|constructor]. Qed.

Lemma reader_keeps_trans s1 s2 s3 :
  reader_keeps s1 s2 -> reader_keeps s2 s3 -> reader_keeps s1 s3.
Proof.
  intros [H1 [y1 [E1 F1]]] [H2 [y2 [E2 F2]]]. split; [congruence|].
  exists (y2 ++ y1)%list. split.
  - rewrite E2, E1. now rewrite app_assoc.
  - apply Forall_app. auto.
Qed.

Lemma read_request_finalizer_counter total_read buffer_size helper m :
  urls_rewritten (fst (read_request_finalizer total_read buffer_size helper m))
  = urls_rewritten helper.
Proof.
  unfold read_request_finalizer.
  destruct (_ <? 4)%nat; [reflexivity|].
  destruct (_ =? _)%nat; [reflexivity|].
  destruct (next_request helper); [reflexivity|].
  destruct (mem_equal _ _ _); [reflexivity|].
  destruct (is_POST _); [|reflexivity].
  destruct (strrchr _ _ _); [|reflexivity].
  destruct (mem_equal _ _ _); reflexivity.
Qed.

Lemma try_to_finalize_keeps buffer_size continue s total_read s' status :
  (forall s1 n s2 st, continue s1 n = Returns (s2, st) -> reader_keeps s1 s2) ->
  try_to_finalize read_request_finalizer buffer_size continue s total_read
  = Returns (s', status) ->
  reader_keeps s s'.
Proof.
  intros Hc. unfold try_to_finalize.
  pose proof (read_request_finalizer_counter total_read buffer_size (rd_helper s)
                                             (rd_mem s)) as Hf.
  destruct (read_request_finalizer total_read buffer_size (rd_helper s) (rd_mem s))
    as [helper verdict]. simpl in Hf.
  destruct verdict.
  - intros [= <- _]. split; [exact Hf|]. exists []. split; [reflexivity|constructor].
  - intros H. apply Hc in H. eapply reader_keeps_trans; [|exact H].
    split; [exact Hf|]. exists []. split; [reflexivity|constructor].
  - intros H. apply Hc in H. eapply reader_keeps_trans; [|exact H].
    split; [exact Hf|]. exists [Ev_yield]. split; [reflexivity|].
    constructor; [reflexivity|constructor].
  - intros [= <- _]. split; [exact Hf|]. exists []. split; [reflexivity|constructor].
Qed.

Lemma read_loop_keeps buffer_size :
  forall packets_remaining s total_read s' status,
    read_loop read_request_finalizer buffer_size packets_remaining s total_read
    = Returns (s', status) ->
    reader_keeps s s'.
Proof.
  induction packets_remaining as [|pr IH]; intros s total_read s' status.
  - simpl. intros [= <- _]. apply reader_keeps_refl.
  - cbn [read_loop]. cbv zeta.
    destruct (rd_socket s) as [|[bs| | |] rest]; try discriminate.
    + destruct (firstn _ bs) as [|g got] eqn:Eg; [discriminate|].
      intros H. apply try_to_finalize_keeps in H; [|exact IH].
      eapply reader_keeps_trans; [|exact H].
      split; [reflexivity|]. exists []. split; [reflexivity|constructor].
    + intros H. apply IH in H. eapply reader_keeps_trans; [|exact H].
      split; [reflexivity|]. exists [Ev_yield]. split; [reflexivity|].
      constructor; [reflexivity|constructor].
    + destruct (total_read =? 0)%nat; [|discriminate].
      intros [= <- _]. split; [reflexivity|]. exists []. split; [reflexivity|constructor].
Qed.

Lemma read_request_keeps s s' status :
  read_request s = Returns (s', status) -> reader_keeps s s'.
Proof.
  unfold read_request, read_from_request_socket.
  destruct (next_request (rd_helper s)) as [nr|].
  - intros H. apply try_to_finalize_keeps in H; [|apply read_loop_keeps].
    eapply reader_keeps_trans; [|exact H].
    split; [reflexivity|]. exists []. split; [reflexivity|constructor].
  - apply read_loop_keeps.
Qed.

(** *** The rewrite loop *)

Lemma lookups_app (a b : list event) : lookups (a ++ b) = (lookups a + lookups b)%nat.
Proof. unfold lookups. now rewrite filter_app, length_app. Qed.

Lemma handle_rewrite_counts (s : reader_state) :
  let r := handle_rewrite s in
  urls_rewritten (rd_helper (fst r)) = urls_rewritten (rd_helper s) + 1
  /\ (snd r = true ->
      urls_rewritten (rd_helper (fst r)) <= 4 /\ rd_events (fst r) = rd_events s)
  /\ (snd r = false ->
      urls_rewritten (rd_helper (fst r)) > 4
      /\ rd_events (fst r) = Ev_default_response HTTP_INTERNAL_ERROR :: rd_events s).
Proof.
  unfold handle_rewrite.
  match goal with
  | |- context [parse_fragment_and_query ?a ?b ?c ?d] =>
      pose proof (parse_fragment_and_query_counter a b c d) as Hc;
      destruct (parse_fragment_and_query a b c d) as [[rq hp] mm]
  end.
  simpl in Hc. cbv zeta.
  change (urls_rewritten (set_urls_rewritten (urls_rewritten hp + 1) hp))
    with (urls_rewritten hp + 1).
  destruct (urls_rewritten hp + 1 >? 4) eqn:E; simpl;
    (split; [congruence|]); split; intros H; try discriminate; split; auto.
  - apply Z.gtb_lt in E. lia.
  - destruct (Z.gtb_spec (urls_rewritten hp + 1) 4); [discriminate|lia].
Qed.

Section RewriteLoop.

Variable qsort :
  (lwan_key_value_t -> lwan_key_value_t -> Z) ->
  list lwan_key_value_t -> list lwan_key_value_t.
Variable junk : option (nat -> lwan_key_value_t).
Variable strptime_timegm : list Z -> option (nat * Z).
Variable sscanf_from_to : list Z -> option (Z * Z).
Variable sscanf_to : list Z -> option Z.
Variable sscanf_from : list Z -> option Z.
Variable lwan_http_authorize :
  lwan_request_t -> lwan_value_t -> mem -> lwan_url_map_t -> bool.
Variable lwan_trie_lookup_prefix : mem -> option ptr -> option lwan_url_map_t.

Let loop :=
  lookup_again qsort junk strptime_timegm sscanf_from_to sscanf_to sscanf_from
               lwan_http_authorize lwan_trie_lookup_prefix.

(** From a counter of at most 4, the loop leaves it at 5 at most, consults
    the trie once per pass and no more often than the counter has room
    for, and, when it leaves the counter at 5, ends on the 500 response. *)
Lemma lookup_again_bound :
  forall (fuel : nat) (s r : reader_state),
    urls_rewritten (rd_helper s) <= 4 ->
    loop fuel s = Some (Returns r) ->
    urls_rewritten (rd_helper s) <= urls_rewritten (rd_helper r) <= 5
    /\ exists evs,
        rd_events r = (evs ++ rd_events s)%list
        /\ Z.of_nat (lookups evs) <= 5 - urls_rewritten (rd_helper s)
        /\ (urls_rewritten (rd_helper r) = 5 ->
            exists evs', evs = Ev_default_response HTTP_INTERNAL_ERROR :: evs').
Proof.
  subst loop.
  induction fuel as [|fuel IH]; intros s r Hc; [discriminate|].
  cbn [lookup_again]. cbv zeta.
  set (s1 := emit (Ev_lookup (value (url (rd_request s)))) s).
  assert (Hdone : forall r' e more,
             rd_helper r' = rd_helper s ->
             rd_events r'
             = (e :: more ++ Ev_lookup (value (url (rd_request s))) :: rd_events s)%list ->
             lookups [e] = 0%nat -> lookups more = 0%nat ->
             urls_rewritten (rd_helper s) <= urls_rewritten (rd_helper r') <= 5
             /\ exists evs,
                 rd_events r' = (evs ++ rd_events s)%list
                 /\ Z.of_nat (lookups evs) <= 5 - urls_rewritten (rd_helper s)
                 /\ (urls_rewritten (rd_helper r') = 5 ->
                     exists evs', evs = Ev_default_response HTTP_INTERNAL_ERROR :: evs')).
  { intros r' e more Hh Hev He Hm. rewrite Hh. split; [lia|].
    exists ([e] ++ more ++ [Ev_lookup (value (url (rd_request s)))])%list.
    split; [rewrite Hev; cbn [app]; f_equal; rewrite <- app_assoc; reflexivity|].
    split.
    - rewrite !lookups_app, He, Hm.
      change (lookups [Ev_lookup (value (url (rd_request s)))]) with 1%nat. lia.
    - intros H5. exfalso. lia. }
  destruct (lwan_trie_lookup_prefix (rd_mem s1) _) as [url_map|].
  2:{ intros [= <-].
      apply (Hdone _ (Ev_default_response HTTP_NOT_FOUND) []); reflexivity. }
  destruct (prepare_for_response _ _ _ _ _ _ _ _ _ _ _)
    as [[[request m] status]| |]; try discriminate.
  destruct (negb (status_eqb status HTTP_OK)).
  { intros [= <-]. apply (Hdone _ (Ev_default_response status) []); reflexivity. }
  destruct (handler url_map request m) as [[status' request'] m'].
  destruct (HANDLER_CAN_REWRITE_URL (map_flags url_map)
            && RESPONSE_URL_REWRITTEN (flags request')).
  2:{ intros [= <-].
      apply (Hdone _ (Ev_response status') [Ev_handler]); reflexivity. }
  match goal with
  | |- context [handle_rewrite ?x] =>
      pose proof (handle_rewrite_counts x) as Hrw;
      destruct (handle_rewrite x) as [s3 again]
  end.
  cbv zeta in Hrw. simpl in Hrw. destruct Hrw as [Hcnt [Htrue Hfalse]].
  destruct again.
  - destruct (Htrue eq_refl) as [Hle Hev].
    intros H. apply IH in H; [|lia].
    destruct H as [Hb [evs [Hevs [Hlk H5]]]].
    split; [lia|].
    exists (evs ++ [Ev_handler; Ev_lookup (value (url (rd_request s)))])%list.
    split; [rewrite Hevs, Hev; now rewrite <- app_assoc|].
    split.
    + rewrite lookups_app.
      change (lookups [Ev_handler; Ev_lookup (value (url (rd_request s)))]) with 1%nat.
      lia.
    + intros E5. destruct (H5 E5) as [evs' ->]. eexists. reflexivity.
  - destruct (Hfalse eq_refl) as [Hgt Hev].
    intros [= <-]. split; [lia|].
    exists [Ev_default_response HTTP_INTERNAL_ERROR; Ev_handler;
            Ev_lookup (value (url (rd_request s)))].
    split; [rewrite Hev; reflexivity|].
    split.
    + change (lookups _) with 1%nat. lia.
    + intros _. eexists. reflexivity.
Qed.

(** The counter bounds the loop: it returns on every state whose counter
    leaves room within the fuel. *)
Lemma lookup_again_returns :
  forall (fuel : nat) (s : reader_state),
    urls_rewritten (rd_helper s) <= 4 ->
    5 - urls_rewritten (rd_helper s) <= Z.of_nat fuel ->
    exists r, loop fuel s = Some r.
Proof.
  subst loop.
  induction fuel as [|fuel IH]; intros s Hc Hf; [lia|].
  cbn [lookup_again]. cbv zeta.
  destruct (lwan_trie_lookup_prefix _ _) as [url_map|]; [|eauto].
  destruct (prepare_for_response _ _ _ _ _ _ _ _ _ _ _)
    as [[[request m] status]| |]; eauto.
  destruct (negb (status_eqb status HTTP_OK)); [eauto|].
  destruct (handler url_map request m) as [[status' request'] m'].
  destruct (HANDLER_CAN_REWRITE_URL (map_flags url_map)
            && RESPONSE_URL_REWRITTEN (flags request')); [|eauto].
  match goal with
  | |- context [handle_rewrite ?x] =>
      pose proof (handle_rewrite_counts x) as Hrw;
      destruct (handle_rewrite x) as [s3 again]
  end.
  cbv zeta in Hrw. simpl in Hrw. destruct Hrw as [Hcnt [Htrue _]].
  destruct again; [|eauto].
  destruct (Htrue eq_refl) as [Hle _]. apply IH; lia.
Qed.

End RewriteLoop.

Lemma yields_are_no_lookups (ys : list event) :
  Forall (fun e => e = Ev_yield) ys -> lookups ys = 0%nat.
Proof.
  induction 1 as [|e ys He Hys IH]; [reflexivity|].
  subst e. exact IH.
Qed.

Lemma yields_are_no_responses (ys : list event) :
  Forall (fun e => e = Ev_yield) ys -> Forall (fun e => is_response e = false) ys.
Proof.
  intros H. eapply Forall_impl; [|exact H]. intros e ->. reflexivity.
Qed.

Section Dispatch.

Variable qsort :
  (lwan_key_value_t -> lwan_key_value_t -> Z) ->
  list lwan_key_value_t -> list lwan_key_value_t.
Variable junk : option (nat -> lwan_key_value_t).
Variable parse_long : list Z -> Z -> Z.
Variable parse_proxy_protocol :
  lwan_request_t -> mem -> ptr -> lwan_request_t * mem * option ptr.
Variable strptime_timegm : list Z -> option (nat * Z).
Variable sscanf_from_to : list Z -> option (Z * Z).
Variable sscanf_to : list Z -> option Z.
Variable sscanf_from : list Z -> option Z.
Variable lwan_http_authorize :
  lwan_request_t -> lwan_value_t -> mem -> lwan_url_map_t -> bool.
Variable lwan_trie_lookup_prefix : mem -> option ptr -> option lwan_url_map_t.

Let process :=
  lwan_process_request qsort junk parse_long parse_proxy_protocol strptime_timegm
                       sscanf_from_to sscanf_to sscanf_from lwan_http_authorize
                       lwan_trie_lookup_prefix.

(** C8, amended. In a dispatch cycle the rewrite counter never exceeds 5,
    and the trie is consulted five times at most. A rewrite that finds the
    counter at 4 raises it to 5, emits the 500 response and leaves the
    loop, so a cycle that ends with the counter at 5 ends on that response
    with no lookup after it. The cycle always comes to an end. *)
Theorem rewrite_counter_bound :
  forall (request : lwan_request_t) (m : mem) (buffer_length : nat)
         (pipelined : option ptr) (socket : list read_result),
    (exists r, process request m buffer_length pipelined socket = Some r)
    /\ (forall s next,
           process request m buffer_length pipelined socket
           = Some (Process_returns s next) ->
           0 <= urls_rewritten (rd_helper s) <= 5
           /\ (lookups (rd_events s) <= 5)%nat
           /\ (urls_rewritten (rd_helper s) = 5 ->
               exists evs,
                 rd_events s = Ev_default_response HTTP_INTERNAL_ERROR :: evs))
    /\ (forall s,
           urls_rewritten (rd_helper s) = 4 ->
           snd (handle_rewrite s) = false
           /\ urls_rewritten (rd_helper (fst (handle_rewrite s))) = 5
           /\ rd_events (fst (handle_rewrite s))
              = Ev_default_response HTTP_INTERNAL_ERROR :: rd_events s).
Proof.
  intros request m buffer_length pipelined socket.
  subst process. unfold lwan_process_request.
  set (s0 := mk_reader request (new_helper buffer_length pipelined) m socket []).
  split; [|split].
  - destruct (read_request s0) as [[s status]| |] eqn:Er; eauto.
    pose proof (read_request_keeps _ _ _ Er) as [Hc _].
    destruct (negb (status_eqb status HTTP_OK)).
    { destruct (_ && _); eauto. }
    pose proof (parse_http_request_counter parse_long parse_proxy_protocol
                  (rd_request s) (rd_helper s) (rd_mem s)) as Hp.
    destruct (parse_http_request _ _ _ _ _) as [[[rq h] mm] st]. simpl in Hp.
    destruct (negb (status_eqb st HTTP_OK)); [eauto|].
    destruct (lookup_again_returns qsort junk strptime_timegm sscanf_from_to
                sscanf_to sscanf_from lwan_http_authorize lwan_trie_lookup_prefix
                5 (mk_reader rq h mm (rd_socket s) (rd_events s))) as [r Hr].
    + simpl. rewrite Hp, Hc. simpl. lia.
    + simpl. rewrite Hp, Hc. simpl. lia.
    + rewrite Hr. destruct r; eauto.
  - intros s' next.
    destruct (read_request s0) as [[s status]| |] eqn:Er; try discriminate.
    pose proof (read_request_keeps _ _ _ Er) as [Hc [ys [Hev Hys]]].
    simpl in Hc, Hev. rewrite app_nil_r in Hev.
    destruct (negb (status_eqb status HTTP_OK)).
    { destruct (_ && _); [|discriminate]. intros [= <- _].
      rewrite Hc, Hev, (yields_are_no_lookups ys Hys).
      split; [lia|]. split; [lia|]. intros H; discriminate. }
    pose proof (parse_http_request_counter parse_long parse_proxy_protocol
                  (rd_request s) (rd_helper s) (rd_mem s)) as Hp.
    destruct (parse_http_request _ _ _ _ _) as [[[rq h] mm] st]. simpl in Hp.
    destruct (negb (status_eqb st HTTP_OK)).
    { intros [= <- _]. unfold emit. cbn [rd_helper rd_events].
      rewrite Hp, Hc, Hev.
      change (Ev_default_response st :: ys) with ([Ev_default_response st] ++ ys)%list.
      rewrite lookups_app, (yields_are_no_lookups ys Hys).
      split; [lia|]. split; [simpl; lia|]. intros H; discriminate. }
    destruct (lookup_again _ _ _ _ _ _ _ _ 5 _) as [[r| |]|] eqn:El; try discriminate.
    intros [= <- _].
    apply lookup_again_bound in El; [|simpl; rewrite Hp, Hc; simpl; lia].
    cbn [rd_helper rd_events] in El. rewrite Hp, Hc in El.
    change (urls_rewritten (new_helper buffer_length pipelined)) with 0 in El.
    destruct El as [Hb [evs [Hevs [Hlk H5]]]].
    split; [lia|]. split.
    + rewrite Hevs, Hev, lookups_app, (yields_are_no_lookups ys Hys). lia.
    + intros E5. destruct (H5 E5) as [evs' ->]. rewrite Hevs. eexists. reflexivity.
  - intros s H4. pose proof (handle_rewrite_counts s) as Hrw. cbv zeta in Hrw.
    destruct Hrw as [Hcnt [Htrue Hfalse]].
    destruct (snd (handle_rewrite s)) eqn:E.
    + destruct (Htrue eq_refl). lia.
    + destruct (Hfalse eq_refl) as [_ Hev]. split; [reflexivity|].
      split; [lia|exact Hev].
Qed.

(** C9, amended. When it is the read of the request that fails with 400
    while [next_request] is set, [lwan_process_request] sends no response
    and returns that pointer. When the parser is the one to refuse the
    request, with 400 or any other status, the response is sent, tail or
    no tail, and then [next_request] is returned. *)
Theorem bad_request_with_tail :
  forall (request : lwan_request_t) (m : mem) (buffer_length : nat)
         (pipelined : option ptr) (socket : list read_result),
    let s0 := mk_reader request (new_helper buffer_length pipelined) m socket [] in
    (forall s p,
        read_request s0 = Returns (s, HTTP_BAD_REQUEST) ->
        next_request (rd_helper s) = Some p ->
        process request m buffer_length pipelined socket
        = Some (Process_returns s (Some p))
        /\ Forall (fun e => is_response e = false) (rd_events s))
    /\ (forall s rq h m' st,
           read_request s0 = Returns (s, HTTP_OK) ->
           parse_http_request parse_long parse_proxy_protocol
                              (rd_request s) (rd_helper s) (rd_mem s)
           = (rq, h, m', st) ->
           st <> HTTP_OK ->
           process request m buffer_length pipelined socket
           = Some (Process_returns
                     (mk_reader rq h m' (rd_socket s)
                                (Ev_default_response st :: rd_events s))
                     (next_request h))).
Proof.
  intros request m buffer_length pipelined socket s0.
  subst process. unfold lwan_process_request. fold s0.
  split.
  - intros s p Er Hp. rewrite Er. simpl. rewrite Hp. simpl.
    split; [reflexivity|].
    pose proof (read_request_keeps _ _ _ Er) as [_ [ys [Hev Hys]]].
    simpl in Hev. rewrite app_nil_r in Hev. rewrite Hev.
    now apply yields_are_no_responses.
  - intros s rq h m' st Er Hp Hst. rewrite Er. simpl. rewrite Hp.
    destruct st; try reflexivity. congruence.
Qed.

End Dispatch.

(** C8 as stated fails: with a handler that rewrites on every call, the
    cycle ends with the counter at 5, after five lookups. *)
Lemma rewrite_counter_reaches_five :
  let r := process_with rewriting_trie small_buffer 0 None
                        [Read_data (bytes "GET / HTTP/1.0" ++ CRLF ++ CRLF)%list] in
  option_map (fun s => urls_rewritten (rd_helper s)) (returned_state r) = Some 5
  /\ option_map (fun s => lookups (rd_events s)) (returned_state r) = Some 5%nat
  /\ option_map (fun s => hd Ev_yield (rd_events s)) (returned_state r)
     = Some (Ev_default_response HTTP_INTERNAL_ERROR)
  /\ 5 > 4.
Proof.
  intros r. vm_compute. repeat split; reflexivity.
Qed.

(** The same cycle, inside the bounds. *)
Lemma rewrite_counter_bound_witness :
  exists s next,
    process_with rewriting_trie small_buffer 0 None
                 [Read_data (bytes "GET / HTTP/1.0" ++ CRLF ++ CRLF)%list]
    = Some (Process_returns s next)
    /\ 0 <= urls_rewritten (rd_helper s) <= 5
    /\ (lookups (rd_events s) <= 5)%nat
    /\ (urls_rewritten (rd_helper s) = 5 ->
        exists evs, rd_events s = Ev_default_response HTTP_INTERNAL_ERROR :: evs).
Proof.
  eexists. eexists. split; [vm_compute; reflexivity|].
  refine (proj1 (proj2 (rewrite_counter_bound
                          insertion_sort zeroed_block parse_long_decimal
                          no_proxy_protocol no_strptime no_sscanf2 no_sscanf1
                          no_sscanf1 authorize_all rewriting_trie fresh_request
                          small_buffer 0 None
                          [Read_data (bytes "GET / HTTP/1.0" ++ CRLF ++ CRLF)%list]))
                _ _ _).
  vm_compute. reflexivity.
Defined.

(** C9 as stated fails: the first of two pipelined requests has "%00" in
    its URL and is refused by the parser with 400 while the second one is
    resident behind it; the 400 response is sent all the same. *)
Lemma bad_request_in_parser_is_answered :
  let r := process_with empty_trie small_buffer 0 None [Read_data bad_then_good] in
  option_map rd_events (returned_state r) = Some [Ev_default_response HTTP_BAD_REQUEST]
  /\ returned_pointer r = Some (Some 21%nat)
  /\ option_map (fun s => firstn 14 (skipn 21 (rd_mem s))) (returned_state r)
     = Some (bytes "GET / HTTP/1.1").
Proof.
  intros r. vm_compute. repeat split; reflexivity.
Qed.

(** A connection whose tail is empty and whose socket fails: no response,
    the tail pointer is returned. And the two pipelined requests above: the
    parser refuses the first, and the response is sent. *)
Lemma bad_request_with_tail_witness :
  (exists s,
      read_request (mk_reader fresh_request (new_helper 20 (Some 20%nat)) small_buffer
                              [Read_again; Read_error] [])
      = Returns (s, HTTP_BAD_REQUEST)
      /\ next_request (rd_helper s) = Some 20%nat
      /\ process_with empty_trie small_buffer 20 (Some 20%nat) [Read_again; Read_error]
         = Some (Process_returns s (Some 20%nat))
      /\ Forall (fun e => is_response e = false) (rd_events s))
  /\ (exists s,
         returned_state (process_with empty_trie small_buffer 0 None
                                      [Read_data bad_then_good]) = Some s
         /\ hd Ev_yield (rd_events s) = Ev_default_response HTTP_BAD_REQUEST).
Proof.
  split.
  - eexists.
    assert (Er : read_request (mk_reader fresh_request (new_helper 20 (Some 20%nat))
                                         small_buffer [Read_again; Read_error] [])
                 = Returns (_, HTTP_BAD_REQUEST)) by (vm_compute; reflexivity).
    split; [exact Er|]. split; [reflexivity|].
    exact (proj1 (bad_request_with_tail
                    insertion_sort zeroed_block parse_long_decimal no_proxy_protocol
                    no_strptime no_sscanf2 no_sscanf1 no_sscanf1 authorize_all
                    empty_trie fresh_request small_buffer 20 (Some 20%nat)
                    [Read_again; Read_error]) _ 20%nat Er eq_refl).
  - eexists. split.
    + unfold process_with.
      erewrite (proj2 (bad_request_with_tail
                         insertion_sort zeroed_block parse_long_decimal no_proxy_protocol
                         no_strptime no_sscanf2 no_sscanf1 no_sscanf1 authorize_all
                         empty_trie fresh_request small_buffer 0 None
                         [Read_data bad_then_good])).
      * reflexivity.
      * vm_compute. reflexivity.
      * vm_compute. reflexivity.
      * discriminate.
    + reflexivity.
Defined.


(** ** The loops come to an end *)

(** [url_decode] gives its loop enough fuel on any buffer: the reader moves
    forward on every pass and reads NUL once it is past the bytes. *)
Lemma url_decode_loop_returns :
  forall (fuel : nat) (m : mem) (str ch decoded : ptr),
    (length m - ch < fuel)%nat ->
    exists r, url_decode_loop fuel m str ch decoded = Some r.
Proof.
  induction fuel as [|fuel IH]; intros m str ch decoded Hf; [lia|].
  cbn [url_decode_loop]. cbv zeta.
  destruct (load m ch =? NUL) eqn:E0; [eauto|].
  assert (Hin : (ch < length m)%nat).
  { destruct (Nat.lt_ge_cases ch (length m)) as [H|H]; [exact H|].
    unfold load in E0. rewrite nth_overflow in E0 by exact H. discriminate. }
  destruct (_ && _).
  - destruct (_ =? 0); [eauto|]. apply IH. rewrite store_length. lia.
  - destruct (_ =? chr "+"); apply IH; rewrite store_length; lia.
Qed.

Lemma match_header_forward m p buffer_end hdr :
  match MATCH_HEADER m p buffer_end hdr with
  | Match_return_null => True
  | Match_did_not_match _ p' => (p <= p')%nat
  | Matched _ p' _ _ => (p <= p')%nat
  end.
Proof.
  unfold MATCH_HEADER.
  destruct (_ <=? _)%nat; [exact I|].
  destruct (negb (match_tag _ _ _)); [lia|].
  destruct (strchr m _ CR) as [e|] eqn:Ee; [|lia].
  assert (p + String.length hdr + 2 <= e)%nat.
  { unfold strchr in Ee. destruct (index_of _ _); simpl in Ee; [|discriminate].
    injection Ee as <-. lia. }
  destruct (negb _); lia.
Qed.

(** [parse_headers] gives its loop enough fuel: every pass that does not
    leave the function moves [p] forward, and a [p] within four bytes of
    [buffer_end] leaves it. *)
Lemma parse_headers_retry_returns :
  forall (fuel : nat) (helper : request_parser_helper) (m : mem)
         (buffer p buffer_end : ptr),
    (buffer_end - p < fuel)%nat ->
    exists r, parse_headers_retry fuel helper m buffer p buffer_end = Some r.
Proof.
  induction fuel as [|fuel IH]; intros helper m buffer p buffer_end Hf; [lia|].
  cbn [parse_headers_retry]. cbv zeta.
  destruct (buffer_end <=? p + 4)%nat eqn:Eend; [eauto|].
  apply Nat.leb_gt in Eend.
  assert (Hdnm : forall h mm pp,
             (p <= pp)%nat ->
             exists r,
               match memchr_size_t mm pp LF
                                    (size_t_of (Z.of_nat buffer_end - Z.of_nat pp)) with
               | Some q =>
                   if load mm (S q) =? NUL then Some (h, mm, Some (S q))
                   else parse_headers_retry fuel h mm (S q) (S q) buffer_end
               | None => Some (h, mm, Some buffer)
               end = Some r).
  { intros h mm pp Hpp. destruct (memchr_size_t mm pp LF _) as [q|] eqn:Eq; [|eauto].
    apply memchr_size_t_ge in Eq.
    destruct (load mm (S q) =? NUL); [eauto|]. apply IH. lia. }
  destruct (match_tag m p _); [eauto|].
  destruct (header_switch m p) as [c|]; [|apply Hdnm; lia].
  destruct c;
    try (apply IH; simpl; lia);
    match goal with
    | |- context [MATCH_HEADER ?a ?b ?c ?d] =>
        pose proof (match_header_forward a b c d) as Hfw;
        destruct (MATCH_HEADER a b c d)
    end; eauto; apply Hdnm; exact Hfw.
Qed.

(** ** The scenarios of the specification *)

(** Scenario 1: GET with a query string. *)
Example scenario_query_runs :
  let r := process_with parsing_trie small_buffer 0 None [Read_data scenario_query] in
  option_map (fun s => REQUEST_METHOD_GET (flags (rd_request s))) (returned_state r)
  = Some true
  /\ option_map (fun s => text_at s (value (url (rd_request s)))) (returned_state r)
     = Some (Some (bytes "/hello"))
  /\ option_map (fun s => text_at s (lwan_request_get_query_param
                                      (rd_request s) (rd_mem s) (bytes "x")))
                (returned_state r)
     = Some (Some (bytes "1"))
  /\ option_map (fun s => text_at s (lwan_request_get_query_param
                                      (rd_request s) (rd_mem s) (bytes "y")))
                (returned_state r)
     = Some (Some (bytes "2"))
  /\ option_map (fun s => CONN_KEEP_ALIVE (rd_request s)) (returned_state r) = Some true
  /\ option_map rd_events (returned_state r)
     = Some [Ev_response HTTP_OK; Ev_handler; Ev_lookup (Some 4%nat)].
Proof. vm_compute. repeat split; reflexivity. Qed.

(** Scenario 3: POST of a form. *)
Example scenario_form_runs :
  let r := process_with parsing_trie (repeat NUL 128) 0 None [Read_data scenario_form] in
  option_map (fun s => REQUEST_METHOD_POST (flags (rd_request s))) (returned_state r)
  = Some true
  /\ option_map (fun s => text_at s (lwan_request_get_post_param
                                      (rd_request s) (rd_mem s) (bytes "a")))
                (returned_state r)
     = Some (Some (bytes "1"))
  /\ option_map (fun s => text_at s (lwan_request_get_post_param
                                      (rd_request s) (rd_mem s) (bytes "b")))
                (returned_state r)
     = Some (Some (bytes "2"))
  /\ option_map (fun s => hd Ev_yield (rd_events s)) (returned_state r)
     = Some (Ev_response HTTP_OK).
Proof. vm_compute. repeat split; reflexivity. Qed.

(** Scenario 6: two pipelined GETs, the second dispatched without a read. *)
Example scenario_pipelined_runs :
  let first := process_with parsing_trie small_buffer 0 None
                            [Read_data scenario_pipelined] in
  let second :=
    match first with
    | Some (Process_returns s next) =>
        process_with parsing_trie (rd_mem s) (buffer_len (rd_helper s)) next (rd_socket s)
    | _ => None
    end in
  option_map (fun s => text_at s (value (url (rd_request s)))) (returned_state first)
  = Some (Some (bytes "/a"))
  /\ returned_pointer first = Some (Some 19%nat)
  /\ option_map rd_socket (returned_state first) = Some []
  /\ option_map (fun s => text_at s (value (url (rd_request s)))) (returned_state second)
     = Some (Some (bytes "/b"))
  /\ option_map rd_events (returned_state second)
     = Some [Ev_response HTTP_OK; Ev_handler; Ev_lookup (Some 4%nat)].
Proof. vm_compute. repeat split; reflexivity. Qed.

(** Scenario 8: a fragment that holds a question mark. *)
Example scenario_fragment_runs :
  let r := process_with parsing_trie small_buffer 0 None [Read_data scenario_fragment] in
  option_map (fun s => text_at s (value (url (rd_request s)))) (returned_state r)
  = Some (Some (bytes "/"))
  /\ option_map (fun s => text_at s (value (fragment (rd_helper s)))) (returned_state r)
     = Some (Some (bytes "frag?notquery"))
  /\ option_map (fun s => query_string (rd_helper s)) (returned_state r)
     = Some no_value.
Proof. vm_compute. repeat split; reflexivity. Qed.

(** The overrun of the sentinel, reached from the socket: a GET whose query
    string has [n_elements] pairs, sent to a handler that asks for the
    query string. *)
Example scenario_thirty_two_pairs_overruns :
  process_with parsing_trie (repeat NUL 256) 0 None [Read_data scenario_thirty_two_pairs]
  = Some Process_undefined.
Proof. vm_compute. reflexivity. Qed.


(** * More of the file *)

(** ** Byte utilities *)

(** X1. The SWAR test of [is_space] is exact: among the 256 bytes, it answers
    non-zero for space, tab, LF and CR and for nothing else. *)
Theorem is_space_exact :
  forall b : Z, 0 <= b < 256 -> (is_space b <> 0 <-> whitespace b).
Proof.
  intros b Hb.
  pose proof (byte_cases
                (fun b => Bool.eqb (negb (is_space b =? 0))
                                   ((b =? SP) || (b =? TAB) || (b =? LF) || (b =? CR)))
                ltac:(vm_compute; reflexivity) b Hb) as H.
  simpl in H. apply eqb_prop in H. unfold whitespace.
  destruct (is_space b =? 0) eqn:E; simpl in H; symmetry in H.
  - apply Z.eqb_eq in E. split; [congruence|].
    intros [ -> | [ -> | [ -> | -> ]]]; vm_compute in H; discriminate.
  - apply Z.eqb_neq in E. split; [intros _|intros _; exact E].
    rewrite !orb_true_iff, !Z.eqb_eq in H. tauto.
Qed.

Lemma is_space_exact_witness :
  0 <= TAB < 256 /\ is_space TAB <> 0 /\ ~ whitespace (chr "a") /\ is_space (chr "a") = 0.
Proof.
  split; [unfold TAB; lia|].
  split; [apply (is_space_exact TAB); [unfold TAB; lia|right; left; reflexivity]|].
  split; [intros [H|[H|[H|H]]]; discriminate H|reflexivity].
Defined.

(** X2. [is_hex_digit] takes exactly the bytes 0-9, a-f and A-F, and on each of
    them [decode_hex_digit] gives the digit's value, below 16. *)
Theorem hex_digits_decoded :
  forall b : Z,
    0 <= b < 256 ->
    (is_hex_digit b = true <->
     chr "0" <= b <= chr "9" \/ chr "a" <= b <= chr "f" \/ chr "A" <= b <= chr "F")
    /\ (chr "0" <= b <= chr "9" -> decode_hex_digit b = b - chr "0")
    /\ (chr "a" <= b <= chr "f" -> decode_hex_digit b = b - chr "a" + 10)
    /\ (chr "A" <= b <= chr "F" -> decode_hex_digit b = b - chr "A" + 10).
Proof.
  intros b Hb.
  pose proof (byte_cases
                (fun b =>
                   Bool.eqb (is_hex_digit b)
                            (((chr "0" <=? b) && (b <=? chr "9"))
                             || ((chr "a" <=? b) && (b <=? chr "f"))
                             || ((chr "A" <=? b) && (b <=? chr "F")))
                   && implb ((chr "0" <=? b) && (b <=? chr "9"))
                            (decode_hex_digit b =? b - chr "0")
                   && implb ((chr "a" <=? b) && (b <=? chr "f"))
                            (decode_hex_digit b =? b - chr "a" + 10)
                   && implb ((chr "A" <=? b) && (b <=? chr "F"))
                            (decode_hex_digit b =? b - chr "A" + 10))
                ltac:(vm_compute; reflexivity) b Hb) as H.
  simpl in H.
  repeat (apply andb_true_iff in H; destruct H as [H ?]).
  apply eqb_prop in H.
  assert (R : forall lo hi, (lo <=? b) && (b <=? hi) = true <-> lo <= b <= hi).
  { intros lo hi. rewrite andb_true_iff, !Z.leb_le. reflexivity. }
  split; [|split; [|split]].
  - rewrite H, !orb_true_iff, !R. tauto.
  - intros Hr. apply R in Hr. rewrite Hr in H2. now apply Z.eqb_eq.
  - intros Hr. apply R in Hr. rewrite Hr in H1. now apply Z.eqb_eq.
  - intros Hr. apply R in Hr. rewrite Hr in H0. now apply Z.eqb_eq.
Qed.

Lemma hex_digits_decoded_witness :
  0 <= chr "e" < 256
  /\ is_hex_digit (chr "e") = true
  /\ decode_hex_digit (chr "e") = 14
  /\ decode_hex_digit (chr "E") = 14
  /\ decode_hex_digit (chr "7") = 7.
Proof.
  assert (R : forall lo b hi, (lo <=? b) && (b <=? hi) = true -> lo <= b <= hi).
  { intros lo b hi H. apply andb_true_iff in H. rewrite !Z.leb_le in H. exact H. }
  assert (He : 0 <= chr "e" < 256) by (split; [apply Z.leb_le|apply Z.ltb_lt]; reflexivity).
  assert (HE : 0 <= chr "E" < 256) by (split; [apply Z.leb_le|apply Z.ltb_lt]; reflexivity).
  assert (H7 : 0 <= chr "7" < 256) by (split; [apply Z.leb_le|apply Z.ltb_lt]; reflexivity).
  destruct (hex_digits_decoded (chr "e") He) as [[_ Hhex] [_ [Hlow _]]].
  destruct (hex_digits_decoded (chr "E") HE) as [_ [_ [_ Hup]]].
  destruct (hex_digits_decoded (chr "7") H7) as [_ [Hdig _]].
  split; [exact He|].
  split; [apply Hhex; right; left; apply R; reflexivity|].
  split; [apply Hlow, R; reflexivity|].
  split; [apply Hup, R; reflexivity|].
  apply Hdig, R; reflexivity.
Defined.

(** ** Leading whitespace *)

Lemma leading_whitespace_spec (l : list Z) :
  let k := leading_whitespace l in
  (forall i, (i < k)%nat -> nth i l NUL <> NUL /\ is_space (nth i l NUL) <> 0)
  /\ (nth k l NUL = NUL \/ is_space (nth k l NUL) = 0).
Proof.
  induction l as [|b t IH]; simpl.
  - split; [intros i Hi; lia|left; reflexivity].
  - destruct (b =? NUL) eqn:E0; simpl.
    + split; [intros i Hi; lia|left; now apply Z.eqb_eq].
    + destruct (is_space b =? 0) eqn:Es; simpl.
      * split; [intros i Hi; lia|right; now apply Z.eqb_eq].
      * destruct IH as [IH1 IH2]. split; [|exact IH2].
        intros [|i] Hi; [|apply IH1; lia].
        split; [now apply Z.eqb_neq|now apply Z.eqb_neq].
Qed.

(** X3. [ignore_leading_whitespace] moves the cursor over a run of space, tab,
    LF and CR bytes and stops on the first byte that is none of them, the
    terminating NUL included. *)
Theorem ignore_leading_whitespace_skips_run :
  forall (m : mem) (buffer : ptr),
    bytes_only m ->
    let p := ignore_leading_whitespace m buffer in
    (buffer <= p)%nat
    /\ (forall q, (buffer <= q < p)%nat -> whitespace (load m q))
    /\ ~ whitespace (load m p).
Proof.
  intros m buffer Hm p. subst p. unfold ignore_leading_whitespace.
  destruct (leading_whitespace_spec (skipn buffer m)) as [H1 H2].
  assert (Hbyte : forall q, 0 <= load m q < 256).
  { intros q. unfold load. destruct (Nat.lt_ge_cases q (length m)) as [H|H].
    - unfold bytes_only in Hm. rewrite Forall_forall in Hm. apply Hm, nth_In, H.
    - rewrite nth_overflow by exact H. unfold NUL. lia. }
  split; [lia|]. split.
  - intros q Hq. replace q with (buffer + (q - buffer))%nat by lia.
    rewrite <- load_skipn. apply is_space_exact.
    + rewrite load_skipn. apply Hbyte.
    + apply H1. lia.
  - rewrite load_skipn in H2. destruct H2 as [H2|H2].
    + rewrite H2. intros [H|[H|[H|H]]]; discriminate H.
    + intros Hw. apply is_space_exact in Hw; [contradiction|apply Hbyte].
Qed.

Lemma ignore_leading_whitespace_skips_run_witness :
  let m := ([CR; LF; SP] ++ bytes "GET / HTTP/1.1" ++ [NUL])%list in
  bytes_only m
  /\ ignore_leading_whitespace m 0 = 3%nat
  /\ ~ whitespace (load m 3).
Proof.
  intros m.
  assert (Hm : bytes_only m).
  { unfold bytes_only.
    repeat (apply Forall_cons; [split; [apply Z.leb_le|apply Z.ltb_lt]; reflexivity|]).
    apply Forall_nil. }
  split; [exact Hm|]. split; [reflexivity|].
  exact (proj2 (proj2 (ignore_leading_whitespace_skips_run m 0 Hm))).
Defined.


(** ** [url_decode] stays inside its string *)

Lemma percent_decode_shorter :
  forall (n : nat) (s out : list Z),
    (length s <= n)%nat ->
    Forall (fun b => b <> NUL) s -> Forall (fun b => 0 <= b < 256) s ->
    percent_decode s = Some out ->
    (length out <= length s)%nat /\ Forall (fun b => b <> NUL) out.
Proof.
  induction n as [|n IH]; intros s out Hlen Hnz Hby.
  - destruct s; [|simpl in Hlen; lia]. simpl. intros [= <-]. split; [simpl; lia|constructor].
  - destruct s as [|c t]; [simpl; intros [= <-]; split; [simpl; lia|constructor]|].
    rewrite percent_decode_cons. simpl in Hlen.
    inversion Hnz as [|? ? Hc Hnz']; subst. inversion Hby as [|? ? Bc Hby']; subst.
    destruct ((c =? chr "%") && escape_at t) eqn:Ecase.
    + apply andb_true_iff in Ecase. destruct Ecase as [_ Ees].
      destruct t as [|h1 [|h2 rest]]; try discriminate.
      cbv zeta. destruct (_ =? NUL) eqn:Eb; [discriminate|].
      inversion Hnz' as [|? ? _ Hnz'']; subst. inversion Hnz'' as [|? ? _ Hnz3]; subst.
      inversion Hby' as [|? ? _ Hby'']; subst. inversion Hby'' as [|? ? _ Hby3]; subst.
      destruct (percent_decode rest) as [o|] eqn:Er; [|discriminate].
      simpl. intros [= <-].
      destruct (IH rest o ltac:(simpl in Hlen; lia) Hnz3 Hby3 Er) as [Hl Ho].
      split; [simpl; lia|]. constructor; [now apply Z.eqb_neq|exact Ho].
    + destruct (percent_decode t) as [o|] eqn:Er; [|discriminate].
      simpl. intros [= <-].
      destruct (IH t o ltac:(lia) Hnz' Hby' Er) as [Hl Ho].
      split; [simpl; lia|]. constructor; [|exact Ho].
      destruct (c =? chr "+"); [discriminate|exact Hc].
Qed.

Lemma store_bytes_length (l : list Z) :
  forall (m : mem) (p : ptr), length (store_bytes m p l) = length m.
Proof.
  induction l as [|b l IH]; intros m p; simpl; [reflexivity|].
  rewrite IH. apply store_length.
Qed.

Lemma load_store_bytes_before (l : list Z) :
  forall (m : mem) (p q : ptr), (q < p)%nat -> load (store_bytes m p l) q = load m q.
Proof.
  induction l as [|b l IH]; intros m p q H; simpl; [reflexivity|].
  rewrite IH by lia. apply load_store_other. lia.
Qed.

Lemma skipn_store_bytes_at (l : list Z) :
  forall (m : mem) (p : ptr),
    (p + length l <= length m)%nat ->
    skipn p (store_bytes m p l) = (l ++ skipn (p + length l) m)%list.
Proof.
  induction l as [|b l IH]; intros m p Hl; simpl.
  - now rewrite Nat.add_0_r.
  - simpl in Hl.
    assert (Hp : (p < length (store_bytes (store m p b) (S p) l))%nat)
      by (rewrite store_bytes_length, store_length; lia).
    rewrite (skipn_at _ p Hp). f_equal.
    + rewrite load_store_bytes_before by lia. apply load_store_same. lia.
    + rewrite IH by (rewrite store_length; lia).
      rewrite skipn_store_after by lia. f_equal. f_equal. lia.
Qed.

Lemma until_nul_app (out rest : list Z) :
  Forall (fun b => b <> NUL) out -> until_nul (out ++ NUL :: rest) = out.
Proof.
  induction 1 as [|b out Hb Ho IH]; simpl; [reflexivity|].
  destruct (Z.eqb_spec b NUL); [contradiction|]. now rewrite IH.
Qed.

(** X4. [url_decode] changes no byte before the string or behind its
    terminating NUL, and does not change the size of the buffer; the
    decoded text is never longer than the encoded one, and after a
    successful call the returned length is the [strlen] of the string. *)
Theorem url_decode_stays_in_string :
  forall (m : mem) (str : ptr),
    let r := url_decode m (Some str) in
    length (fst r) = length m
    /\ (forall q, (q < str \/ str + strlen m str < q)%nat ->
                  load (fst r) q = load m q)
    /\ (forall s, cstring_at m str s ->
                  (snd r <= length s)%nat
                  /\ (snd r <> O -> strlen (fst r) str = snd r)).
Proof.
  intros m str r. subst r. unfold url_decode.
  destruct (url_decode_loop (S (length m)) m str str str) as [[m' n]|] eqn:E.
  - destruct (url_decode_loop_frame _ _ _ _ _ _ _ (Nat.le_refl _) E) as [Hl Hf].
    split; [exact Hl|]. split; [exact Hf|].
    intros s Hs. pose proof (cstring_at_length m str s Hs) as Hlen.
    destruct Hs as [[rest Hskip] [Hnz Hby]].
    pose proof (url_decode_loop_refines (length s) s (Nat.le_refl _) (S (length m)) m
                  str str str rest Hskip Hnz Hby (Nat.le_refl _) ltac:(lia)) as H.
    destruct (percent_decode s) as [out|] eqn:Ep.
    + rewrite E in H. injection H as -> ->.
      destruct (percent_decode_shorter (length s) s out (Nat.le_refl _) Hnz Hby Ep)
        as [Hol Honz].
      simpl. split; [lia|]. intros _.
      unfold strlen, cstr.
      assert (Hs : length (skipn str m) = length (s ++ NUL :: rest)%list)
        by now rewrite Hskip.
      rewrite length_skipn, length_app in Hs. simpl in Hs.
      rewrite skipn_store_bytes_at by (rewrite length_app; simpl; lia).
      rewrite <- app_assoc. simpl. rewrite until_nul_app by exact Honz. lia.
    + destruct H as [m'' H]. rewrite E in H. injection H as _ ->. simpl.
      split; [lia|]. intros H; contradiction.
  - simpl. split; [reflexivity|]. split; [reflexivity|].
    intros s _. split; [lia|]. intros H; contradiction.
Qed.

Lemma url_decode_stays_in_string_witness :
  let m := (bytes "x=" ++ bytes "a%20b+c" ++ [NUL] ++ bytes "tail")%list in
  cstring_at m 2 (bytes "a%20b+c")
  /\ snd (url_decode m (Some 2%nat)) = 5%nat
  /\ strlen (fst (url_decode m (Some 2%nat))) 2 = 5%nat
  /\ load (fst (url_decode m (Some 2%nat))) 10 = load m 10.
Proof.
  intros m.
  assert (Hs : cstring_at m 2 (bytes "a%20b+c")).
  { split; [exists (bytes "tail"); reflexivity|].
    split; repeat (apply Forall_cons; [vm_compute; intuition discriminate|]);
      apply Forall_nil. }
  destruct (url_decode_stays_in_string m 2) as [_ [Hf Hstr]].
  destruct (Hstr _ Hs) as [_ Hlen].
  split; [exact Hs|]. split; [reflexivity|].
  split; [transitivity (snd (url_decode m (Some 2%nat)));
          [apply Hlen; vm_compute; discriminate|reflexivity]|].
  apply Hf. right. vm_compute. lia.
Defined.


(** ** The socket reader *)





Lemma read_request_finalizer_buffer_len total_read buffer_size helper m :
  buffer_len (fst (read_request_finalizer total_read buffer_size helper m))
  = buffer_len helper.
Proof.
  unfold read_request_finalizer.
  destruct (_ <? 4)%nat; [reflexivity|].
  destruct (_ =? _)%nat; [reflexivity|].
  destruct (next_request helper); [reflexivity|].
  destruct (mem_equal _ _ _); [reflexivity|].
  destruct (is_POST _); [|reflexivity].
  destruct (strrchr _ _ _); [|reflexivity].
  destruct (mem_equal _ _ _); reflexivity.
Qed.

Section Framing.

Variable stream : list Z.
Variable size : nat.
Variable buffer_size : nat.
Hypothesis Hsize : (buffer_size < size)%nat.



End Framing.



(** *** The read budget *)

Lemma yielded_same k s s' : rd_events s' = rd_events s -> yielded k s s'.
Proof. intros H. exists []. split; [exact H|]. split; [constructor|simpl; lia]. Qed.

Lemma yielded_refl k s : yielded k s s.
Proof. now apply yielded_same. Qed.

Lemma yielded_step k s1 s2 s3 :
  (rd_events s2 = rd_events s1 \/ rd_events s2 = Ev_yield :: rd_events s1) ->
  yielded k s2 s3 -> yielded (S k) s1 s3.
Proof.
  intros H [ys [E [F L]]]. destruct H as [H|H]; rewrite H in E.
  - exists ys. split; [exact E|]. split; [exact F|lia].
  - exists (ys ++ [Ev_yield])%list. split; [now rewrite <- app_assoc|].
    split; [apply Forall_app; split; [exact F|repeat constructor]|].
    rewrite length_app. simpl. lia.
Qed.

Lemma yielded_more k k' s s' : (k <= k')%nat -> yielded k s s' -> yielded k' s s'.
Proof. intros H [ys [E [F L]]]. exists ys. split; [exact E|]. split; [exact F|lia]. Qed.

Lemma try_to_finalize_budget buffer_size continue k s total_read s' st :
  (forall s1 n s2 st2,
      continue s1 n = Returns (s2, st2) -> reader_status st2 /\ yielded k s1 s2) ->
  try_to_finalize read_request_finalizer buffer_size continue s total_read
  = Returns (s', st) ->
  reader_status st /\ yielded (S k) s s'.
Proof.
  intros Hc. unfold try_to_finalize.
  destruct (read_request_finalizer total_read buffer_size (rd_helper s) (rd_mem s))
    as [helper verdict].
  destruct verdict.
  - intros [= <- <-]. split; [left; reflexivity|].
    apply yielded_same; reflexivity.
  - intros H. apply Hc in H. destruct H as [Hs Hy]. split; [exact Hs|].
    eapply yielded_step; [|exact Hy]. left; reflexivity.
  - intros H. apply Hc in H. destruct H as [Hs Hy]. split; [exact Hs|].
    eapply yielded_step; [|exact Hy]. right; reflexivity.
  - intros [= <- <-]. split; [right; right; left; reflexivity|].
    apply yielded_same; reflexivity.
Qed.

Lemma read_loop_budget buffer_size :
  forall packets_remaining s total_read s' st,
    read_loop read_request_finalizer buffer_size packets_remaining s total_read
    = Returns (s', st) ->
    reader_status st /\ yielded packets_remaining s s'.
Proof.
  induction packets_remaining as [|pr IH]; intros s total_read s' st.
  - simpl. intros [= <- <-]. split; [right; right; right; reflexivity|apply yielded_refl].
  - cbn [read_loop]. cbv zeta.
    destruct (rd_socket s) as [|[bs| | |] rest]; try discriminate.
    + destruct (firstn _ bs) as [|g got]; [discriminate|].
      intros H. apply (try_to_finalize_budget _ _ pr) in H; [|exact IH].
      destruct H as [Hs [ys [E [F L]]]]. split; [exact Hs|].
      exists ys. auto.
    + intros H. apply IH in H. destruct H as [Hs Hy]. split; [exact Hs|].
      eapply yielded_step; [|exact Hy]. right; reflexivity.
    + destruct (total_read =? 0)%nat; [|discriminate].
      intros [= <- <-]. split; [right; left; reflexivity|].
      apply yielded_same; reflexivity.
Qed.

(** X6. For one request the reader suspends the coroutine 16 times at most,
    does nothing else the client can see, and ends, when it returns, with
    200, 400, 413 or 408. *)
Theorem read_request_budget :
  forall (s s' : reader_state) (st : lwan_http_status_t),
    read_request s = Returns (s', st) ->
    reader_status st
    /\ exists ys, rd_events s' = (ys ++ rd_events s)%list
                  /\ Forall (fun e => e = Ev_yield) ys
                  /\ (length ys <= 16)%nat.
Proof.
  intros s s' st. unfold read_request, read_from_request_socket.
  destruct (next_request (rd_helper s)) as [nr|].
  - intros H. apply (try_to_finalize_budget _ _ 15) in H.
    + destruct H as [Hs [ys [E [F L]]]]. split; [exact Hs|]. exists ys. auto.
    + apply read_loop_budget.
  - intros H. apply read_loop_budget in H. exact H.
Qed.

(** A client that sends one byte per packet: sixteen reads, each followed by
    a yield, and then 408. *)
Lemma read_request_budget_witness :
  let s := mk_reader fresh_request (new_helper 0 None) small_buffer
                     (repeat (Read_data [chr "G"]) 20) [] in
  exists s',
    read_request s = Returns (s', HTTP_TIMEOUT)
    /\ reader_status HTTP_TIMEOUT
    /\ (yields (rd_events s') <= 16)%nat
    /\ length (rd_socket s') = 4%nat.
Proof.
  intros s. eexists.
  assert (Er : read_request s = Returns (_, HTTP_TIMEOUT)) by (vm_compute; reflexivity).
  split; [exact Er|].
  destruct (read_request_budget s _ _ Er) as [Hs _].
  split; [exact Hs|]. split; [vm_compute; lia|reflexivity].
Defined.


(** ** The header block *)

Lemma header_assign_keeps c m v n helper :
  next_request (header_assign c m v n helper) = next_request helper
  /\ buffer_len (header_assign c m v n helper) = buffer_len helper.
Proof. destruct c; split; reflexivity. Qed.

Lemma match_tag_crlf (m : mem) (p : ptr) :
  match_tag m p (String "013" (String "010" EmptyString)) = true ->
  load m p = CR /\ load m (p + 1) = LF.
Proof.
  unfold match_tag, mem_equal. cbn [bytes list_ascii_of_string List.map length seq combine forallb fst snd].
  rewrite Nat.add_0_r. intros H.
  apply andb_prop in H. destruct H as [H1 H2].
  apply andb_prop in H2. destruct H2 as [H2 _].
  apply Z.eqb_eq in H1, H2. split; assumption.
Qed.

(** [MATCH_HEADER] moves forward, and writes only before where it leaves
    the cursor. *)
Lemma match_header_frame m p buffer_end hdr :
  match MATCH_HEADER m p buffer_end hdr with
  | Match_return_null => True
  | Match_did_not_match m1 p1 | Matched m1 p1 _ _ =>
      (p <= p1)%nat /\ length m1 = length m
      /\ forall q, (p1 <= q)%nat -> load m1 q = load m q
  end.
Proof.
  unfold MATCH_HEADER.
  destruct (_ <=? _)%nat; [exact I|].
  destruct (negb (match_tag _ _ _)); [split; [lia|split; auto]|].
  destruct (strchr m _ CR) as [e|] eqn:Ee; [|split; [lia|split; auto]].
  assert (p + String.length hdr + 2 <= e)%nat.
  { unfold strchr in Ee. destruct (index_of _ _); simpl in Ee; [|discriminate].
    injection Ee as <-. lia. }
  destruct (negb _); (split; [lia|split; [apply store_length|]]);
    intros q Hq; apply load_store_other; lia.
Qed.

Lemma parse_headers_retry_end :
  forall fuel helper m buffer p buffer_end helper' m' r,
    parse_headers_retry fuel helper m buffer p buffer_end = Some (helper', m', r) ->
    end_of_head buffer_end m m' p helper helper' r
    /\ buffer_len helper' = buffer_len helper
    /\ length m' = length m.
Proof.
  induction fuel as [|fuel IH]; intros helper m buffer p buffer_end helper' m' r;
    [discriminate|].
  cbn [parse_headers_retry]. cbv zeta.
  assert (Hrec : forall h mm bb pp,
             next_request h = next_request helper ->
             buffer_len h = buffer_len helper ->
             length mm = length m ->
             (p <= pp)%nat ->
             (forall q, (pp <= q)%nat -> load mm q = load m q) ->
             parse_headers_retry fuel h mm bb pp buffer_end = Some (helper', m', r) ->
             end_of_head buffer_end m m' p helper helper' r
             /\ buffer_len helper' = buffer_len helper
             /\ length m' = length m).
  { intros h mm bb pp Hn Hb Hl Hpp Hf H. apply IH in H.
    destruct H as [He [Hb' Hl']]. split; [|split; congruence].
    destruct He as [He|[pe [E1 [E2 [E3 [E4 [E5 [E6 E7]]]]]]]]; [left; congruence|].
    right. exists pe. repeat split; auto; try lia.
    - rewrite <- Hf by lia. exact E5.
    - rewrite <- Hf by lia. exact E6. }
  assert (Hdnm : forall h mm pp,
             next_request h = next_request helper ->
             buffer_len h = buffer_len helper ->
             length mm = length m ->
             (p <= pp)%nat ->
             (forall q, (pp <= q)%nat -> load mm q = load m q) ->
             match memchr_size_t mm pp LF
                                    (size_t_of (Z.of_nat buffer_end - Z.of_nat pp)) with
             | Some q =>
                 if load mm (S q) =? NUL then Some (h, mm, Some (S q))
                 else parse_headers_retry fuel h mm (S q) (S q) buffer_end
             | None => Some (h, mm, Some buffer)
             end = Some (helper', m', r) ->
             end_of_head buffer_end m m' p helper helper' r
             /\ buffer_len helper' = buffer_len helper
             /\ length m' = length m).
  { intros h mm pp Hn Hb Hl Hpp Hf. destruct (memchr_size_t mm pp LF _) as [q|] eqn:Eq.
    - apply memchr_size_t_ge in Eq. rename Eq into Hq.
      destruct (load mm (S q) =? NUL).
      + intros [= <- <- _]. split; [left; exact Hn|]. auto.
      + apply Hrec; auto; try lia. intros x Hx. apply Hf. lia.
    - intros [= <- <- _]. split; [left; exact Hn|]. auto. }
  destruct (buffer_end <=? p + 4)%nat eqn:Eend.
  { intros [= <- <- _]. split; [left; reflexivity|]. auto. }
  apply Nat.leb_gt in Eend.
  destruct (match_tag m p _) eqn:Ecrlf.
  { intros [= <- <- <-]. split; [|split; [reflexivity|apply store_length]].
    apply match_tag_crlf in Ecrlf. destruct Ecrlf as [Hcr Hlf].
    right. exists p. repeat split; auto.
    apply load_store_same. apply load_nonzero_in. rewrite Hcr. discriminate. }
  destruct (header_switch m p) as [c|]; [|apply Hdnm; auto].
  destruct c;
    try (apply Hrec; auto; lia);
    match goal with
    | |- context [MATCH_HEADER ?a ?b ?c ?d] =>
        pose proof (match_header_frame a b c d) as Hfw;
        destruct (MATCH_HEADER a b c d)
    end;
    try (intros [= <- <- _]; split; [left; reflexivity|]; auto);
    destruct Hfw as [Hp1 [Hl1 Hf1]];
    apply Hdnm; auto; apply header_assign_keeps.
Qed.

(** X7. [parse_headers] records an end of head only at a CR LF pair that it
    comes to with more than two bytes of the buffer behind the pair:
    [next_request] is then the byte behind the pair, the pointer returned is
    the CR, and the CR is turned into NUL. In every other case
    [next_request] stays as it was. The buffer keeps its size and the
    helper its [buffer->len]. *)
Theorem parse_headers_end_of_head :
  forall (helper : request_parser_helper) (m : mem) (buffer buffer_end : ptr),
    let r := parse_headers helper m buffer buffer_end in
    (next_request (fst (fst r)) = next_request helper
     \/ exists p, snd r = Some p
                  /\ next_request (fst (fst r)) = Some (p + 2)%nat
                  /\ (buffer <= p)%nat
                  /\ (p + 4 < buffer_end)%nat
                  /\ load m p = CR
                  /\ load m (p + 1) = LF
                  /\ load (snd (fst r)) p = NUL)
    /\ buffer_len (fst (fst r)) = buffer_len helper
    /\ length (snd (fst r)) = length m.
Proof.
  intros helper m buffer buffer_end r. subst r. unfold parse_headers.
  destruct (load m buffer =? NUL); [simpl; auto|].
  destruct (parse_headers_retry _ helper m buffer buffer buffer_end)
    as [[[h mm] r]|] eqn:E; [|simpl; auto].
  apply parse_headers_retry_end in E. exact E.
Qed.

(** ** The request parser *)

Lemma parse_fragment_and_query_keeps request helper m space :
  let r := parse_fragment_and_query request helper m space in
  next_request (snd (fst r)) = next_request helper
  /\ buffer_len (snd (fst r)) = buffer_len helper
  /\ length (snd r) = length m
  /\ flags (fst (fst r)) = flags request.
Proof.
  unfold parse_fragment_and_query.
  destruct (value (url request)) as [u|]; [|simpl; auto].
  destruct (memrchr m u (chr "#") (len (url request))) as [f|];
    match goal with |- context [memchr ?a ?b ?c ?d] => destruct (memchr a b c d) end;
    simpl; rewrite ?store_length; auto.
Qed.

Lemma identify_http_path_keeps request m buffer helper :
  let r := identify_http_path request m buffer helper in
  next_request (snd (fst (fst r))) = next_request helper
  /\ buffer_len (snd (fst (fst r))) = buffer_len helper
  /\ REQUEST_METHOD_POST (flags (fst (fst (fst r))))
     = REQUEST_METHOD_POST (flags request).
Proof.
  unfold identify_http_path.
  destruct (memchr_size_t m buffer CR _); [|simpl; auto].
  destruct (_ <? _)%nat; [simpl; auto|].
  destruct (negb _); [simpl; auto|].
  destruct (negb _); [simpl; auto|].
  destruct (negb (load _ buffer =? _)); [destruct (_ =? chr "0"); simpl; auto|].
  match goal with
  | |- context [parse_fragment_and_query ?a ?b ?c ?d] =>
      pose proof (parse_fragment_and_query_keeps a b c d) as H;
      destruct (parse_fragment_and_query a b c d) as [[rq hp] mm]
  end.
  cbv zeta in H. simpl in H. destruct H as [H1 [H2 [_ H4]]].
  simpl. rewrite H4. destruct (_ =? chr "0"); auto.
Qed.

Lemma rindex_of_lt (c : Z) (l : list Z) (i : nat) :
  rindex_of c l = Some i -> (i < length l)%nat.
Proof.
  revert i; induction l as [|b t IH]; intros i; simpl; [discriminate|].
  destruct (rindex_of c t) as [j|].
  - intros [= <-]. specialize (IH j eq_refl). lia.
  - destruct (b =? c); [|discriminate]. intros [= <-]. lia.
Qed.

Lemma memrchr_lt (m : mem) (p : ptr) (c : Z) (n : nat) (q : ptr) :
  memrchr m p c n = Some q -> (p <= q < p + n)%nat.
Proof.
  unfold memrchr. destruct (rindex_of c (firstn n (skipn p m))) as [i|] eqn:E;
    simpl; [|discriminate].
  intros [= <-]. apply rindex_of_lt in E. rewrite length_firstn in E. lia.
Qed.

(** [parse_fragment_and_query] writes inside the URL only. *)
Lemma parse_fragment_and_query_frame request helper m space u :
  value (url request) = Some u ->
  forall q, (u + len (url request) <= q)%nat ->
            load (snd (parse_fragment_and_query request helper m space)) q = load m q.
Proof.
  intros Hu q Hq. unfold parse_fragment_and_query. rewrite Hu.
  destruct (memrchr m u (chr "#") (len (url request))) as [f|] eqn:Ef.
  - apply memrchr_lt in Ef. cbn [url len set_url].
    match goal with
    | |- context [memchr ?a ?b ?c ?d] => destruct (memchr a b c d) as [x|] eqn:Ex
    end; cbn [snd].
    + apply memchr_ge in Ex. rewrite !load_store_other by lia. reflexivity.
    + apply load_store_other. lia.
  - destruct (memchr m u (chr "?") (len (url request))) as [x|] eqn:Ex; cbn [snd].
    + apply memchr_ge in Ex. apply load_store_other. lia.
    + reflexivity.
Qed.

(** [identify_http_path] writes only before the pointer it returns. *)
Lemma identify_http_path_frame request m buffer helper b :
  snd (identify_http_path request m buffer helper) = Some b ->
  forall q, (b <= q)%nat ->
            load (snd (fst (identify_http_path request m buffer helper))) q = load m q.
Proof.
  unfold identify_http_path.
  destruct (memchr_size_t m buffer CR _) as [eol|] eqn:E; [|discriminate].
  apply memchr_size_t_ge in E.
  destruct (_ <? _)%nat eqn:Elen; [discriminate|].
  apply Nat.ltb_ge in Elen. unfold minimal_request_line_len, sizeof_HTTP_X_X in *.
  destruct (negb _); [discriminate|].
  destruct (negb _); [discriminate|].
  destruct (negb (load _ buffer =? _)); [destruct (_ =? chr "0"); discriminate|].
  match goal with
  | |- context [parse_fragment_and_query ?a ?b ?c ?d] =>
      pose proof (parse_fragment_and_query_frame a b c d buffer) as H;
      destruct (parse_fragment_and_query a b c d) as [[rq hp] mm]
  end.
  cbn [fst snd] in *. intros [= <-] q Hq.
  rewrite H.
  - rewrite !load_store_other by lia. reflexivity.
  - destruct (_ =? chr "0"); reflexivity.
  - destruct (_ =? chr "0"); cbn [url set_url set_flags len]; lia.
Qed.

Lemma identify_http_method_post request m buffer :
  REQUEST_METHOD_POST (flags request) = false ->
  REQUEST_METHOD_POST (flags (fst (identify_http_method request m buffer))) = true ->
  get_http_method m buffer = Some POST.
Proof.
  unfold identify_http_method. simpl. intros ->.
  destruct (get_http_method m buffer) as [[| |]|]; simpl; try discriminate. reflexivity.
Qed.

Section Parser.

Variable parse_long : list Z -> Z -> Z.

Lemma parse_http_request_outcomes :
  forall (parse_proxy_protocol :
            lwan_request_t -> mem -> ptr -> lwan_request_t * mem * option ptr)
         (request : lwan_request_t) (helper : request_parser_helper) (m : mem),
    let st := snd (parse_http_request parse_long parse_proxy_protocol request helper m) in
    let cursor := ignore_leading_whitespace m 0 in
    parser_status st
    /\ (REQUEST_ALLOW_PROXY_REQS (flags request) = false ->
        (st = HTTP_NOT_ALLOWED <->
         get_http_method m cursor = None /\ load m cursor <> NUL)).
Proof.
  intros ppp request helper m st cursor. subst st cursor.
  unfold parse_http_request, parser_status.
  assert (Main :
    forall rq mm (b : ptr),
      let st := snd
        (let buffer := ignore_leading_whitespace mm b in
         let '(request, path) := identify_http_method rq mm buffer in
         if (buffer =? path)%nat
         then if load mm buffer =? NUL then (request, helper, mm, HTTP_BAD_REQUEST)
              else (request, helper, mm, HTTP_NOT_ALLOWED)
         else
           let '(request, helper, m, buffer) := identify_http_path request mm path helper in
           match buffer with
           | None => (request, helper, m, HTTP_BAD_REQUEST)
           | Some buffer =>
               let '(helper, m, buffer) := parse_headers helper m buffer (buffer_len helper) in
               match buffer with
               | None => (request, helper, m, HTTP_BAD_REQUEST)
               | Some _ =>
                   let '(m, decoded_len) := url_decode m (value (url request)) in
                   if (decoded_len =? 0)%nat
                   then (request, helper, m, HTTP_BAD_REQUEST)
                   else
                     let request :=
                       set_url (mk_value (value (url request)) decoded_len) request in
                     let request :=
                       set_original_url
                         (mk_value (value (original_url request)) decoded_len) request in
                     let request := compute_keep_alive_flag request helper in
                     if REQUEST_METHOD_POST (flags request)
                     then
                       let '(helper, status) := read_post_data parse_long helper m in
                       (request, helper, m, status)
                     else (request, helper, m, HTTP_OK)
               end
           end) in
      (st = HTTP_OK \/ st = HTTP_BAD_REQUEST \/ st = HTTP_NOT_ALLOWED
       \/ st = HTTP_TOO_LARGE \/ st = HTTP_NOT_IMPLEMENTED)
      /\ (st = HTTP_NOT_ALLOWED <->
          get_http_method mm (ignore_leading_whitespace mm b) = None
          /\ load mm (ignore_leading_whitespace mm b) <> NUL)).
  { intros rq mm b. cbv zeta.
    set (buffer := ignore_leading_whitespace mm b).
    unfold identify_http_method.
    destruct (get_http_method mm buffer) as [meth|] eqn:Em.
    - assert (Hne : (buffer =? buffer + sizes (Some meth))%nat = false).
      { apply Nat.eqb_neq. destruct meth; simpl; lia. }
      rewrite Hne.
      assert (G2 : forall st : lwan_http_status_t,
                 st = HTTP_OK \/ st = HTTP_BAD_REQUEST \/ st = HTTP_TOO_LARGE
                 \/ st = HTTP_NOT_IMPLEMENTED ->
                 (st = HTTP_OK \/ st = HTTP_BAD_REQUEST \/ st = HTTP_NOT_ALLOWED
                  \/ st = HTTP_TOO_LARGE \/ st = HTTP_NOT_IMPLEMENTED)
                 /\ (st = HTTP_NOT_ALLOWED <->
                     Some meth = None /\ load mm buffer <> NUL)).
      { intros st H. split; [tauto|]. split.
        - intros ->. destruct H as [H|[H|[H|H]]]; discriminate.
        - intros [H' _]. discriminate. }
      destruct (identify_http_path _ mm _ helper) as [[[rq2 h2] m2] [b2|]];
        [|apply G2; auto].
      destruct (parse_headers h2 m2 b2 (buffer_len h2)) as [[h3 m3] [b3|]];
        [|apply G2; auto].
      destruct (url_decode m3 _) as [m4 dl].
      destruct (dl =? 0)%nat; [apply G2; auto|].
      destruct (REQUEST_METHOD_POST _); [|apply G2; auto].
      unfold read_post_data.
      destruct (next_request h3); [|apply G2; auto].
      destruct (value (content_length h3)); [|apply G2; auto].
      destruct (_ >? _); [apply G2; auto|].
      destruct (_ <? 0); [apply G2; auto|].
      destruct (_ =? _); [apply G2; auto|].
      destruct (_ >? _); apply G2; auto.
    - simpl sizes. rewrite Nat.add_0_r, Nat.eqb_refl.
      destruct (load mm buffer =? NUL) eqn:E0; simpl.
      + apply Z.eqb_eq in E0. split; [tauto|].
        split; [discriminate|]. intros [_ H]. contradiction.
      + apply Z.eqb_neq in E0. split; [tauto|]. split; auto. }
  split.
  - destruct (REQUEST_ALLOW_PROXY_REQS (flags request)).
    + destruct (ppp request m 0%nat) as [[rq mm] [b|]]; [|auto].
      apply (Main rq mm b).
    + apply (Main request m 0%nat).
  - intros Hp. rewrite Hp. apply (Main request m 0%nat).
Qed.

(** X8. [parse_http_request] answers 200, 400, 405, 413 or 501 and nothing
    else, whatever the buffer holds and whatever the PROXY reader and
    [parse_long] do. *)
Theorem parse_http_request_statuses :
  forall (parse_proxy_protocol :
            lwan_request_t -> mem -> ptr -> lwan_request_t * mem * option ptr)
         (request : lwan_request_t) (helper : request_parser_helper) (m : mem),
    parser_status
      (snd (parse_http_request parse_long parse_proxy_protocol request helper m)).
Proof.
  intros ppp request helper m.
  apply (parse_http_request_outcomes ppp request helper m).
Qed.

(** X9. With no PROXY preamble to read, the answer is 405 exactly when the
    byte behind the leading whitespace is not NUL and the four bytes there
    are none of "GET ", "HEAD" and "POST". *)
Theorem parse_http_request_not_allowed :
  forall (parse_proxy_protocol :
            lwan_request_t -> mem -> ptr -> lwan_request_t * mem * option ptr)
         (request : lwan_request_t) (helper : request_parser_helper) (m : mem),
    REQUEST_ALLOW_PROXY_REQS (flags request) = false ->
    let cursor := ignore_leading_whitespace m 0 in
    snd (parse_http_request parse_long parse_proxy_protocol request helper m)
      = HTTP_NOT_ALLOWED
    <-> get_http_method m cursor = None /\ load m cursor <> NUL.
Proof.
  intros ppp request helper m Hp.
  apply (parse_http_request_outcomes ppp request helper m). exact Hp.
Qed.

(** X10. A request that leaves the parser with the POST flag and status 200
    has its body right behind the CR LF pair that ended the head, a pair
    that was in the buffer the parser was handed; the body is at least
    three bytes long and is everything from there to the end of what was
    read: the header loop stops looking for the end of the head four bytes
    before the end. *)
Theorem parse_http_request_post_body :
  forall (parse_proxy_protocol :
            lwan_request_t -> mem -> ptr -> lwan_request_t * mem * option ptr)
         (request request' : lwan_request_t)
         (helper helper' : request_parser_helper) (m m' : mem),
    REQUEST_ALLOW_PROXY_REQS (flags request) = false ->
    next_request helper = None ->
    (buffer_len helper <= DEFAULT_BUFFER_SIZE)%nat ->
    parse_http_request parse_long parse_proxy_protocol request helper m
      = (request', helper', m', HTTP_OK) ->
    REQUEST_METHOD_POST (flags request') = true ->
    exists p : ptr,
      load m p = CR
      /\ load m (p + 1) = LF
      /\ value (post_data helper') = Some (p + 2)%nat
      /\ (3 <= len (post_data helper'))%nat
      /\ (p + 2 + len (post_data helper'))%nat = buffer_len helper
      /\ next_request helper' = Some (buffer_len helper).
Proof.
  intros ppp request request' helper helper' m m' Hp Hn Hb.
  unfold parse_http_request. rewrite Hp.
  destruct (identify_http_method request m (ignore_leading_whitespace m 0))
    as [rq1 path].
  destruct (_ =? path)%nat.
  { destruct (_ =? NUL); intros H; inversion H. }
  pose proof (identify_http_path_keeps rq1 m path helper) as K.
  pose proof (fun b => identify_http_path_frame rq1 m path helper b) as Fr.
  destruct (identify_http_path rq1 m path helper) as [[[rq2 h2] m2] [b2|]];
    [|intros H; inversion H].
  cbv zeta in K. simpl in K. destruct K as [K1 [K2 _]].
  specialize (Fr b2 eq_refl). cbn [fst snd] in Fr.
  pose proof (parse_headers_end_of_head h2 m2 b2 (buffer_len h2)) as E.
  destruct (parse_headers h2 m2 b2 (buffer_len h2)) as [[h3 m3] [b3|]];
    [|intros H; inversion H].
  cbv zeta in E. simpl in E. destruct E as [E1 [E2 _]].
  destruct (url_decode m3 (value (url rq2))) as [m4 dl].
  destruct (dl =? 0)%nat; [intros H; inversion H|].
  match goal with
  | |- context [REQUEST_METHOD_POST (flags ?r)] =>
      destruct (REQUEST_METHOD_POST (flags r)) eqn:F
  end.
  2:{ intros H F'. inversion H; subst. congruence. }
  unfold read_post_data.
  destruct E1 as [E1|[p [Ep [E1 [Eb [E3 [Ecr [Elf _]]]]]]]].
  { rewrite E1, K1, Hn. intros H; inversion H. }
  rewrite E1.
  destruct (value (content_length h3)) as [cl|]; [|intros H; inversion H].
  destruct (_ >? Z.of_nat DEFAULT_BUFFER_SIZE) eqn:G1; [intros H; inversion H|].
  destruct (_ <? 0) eqn:G2; [intros H; inversion H|].
  destruct (_ =? _) eqn:G3.
  2:{ destruct (size_t_of _ >? _); intros H; inversion H. }
  intros H _. inversion H; subst. clear H.
  apply Z.eqb_eq in G3. apply Z.ltb_ge in G2.
  assert (G1' : parse_long (cstr m' cl) (Z.of_nat DEFAULT_BUFFER_SIZE)
                <= Z.of_nat DEFAULT_BUFFER_SIZE).
  { rewrite Z.gtb_ltb in G1. apply Z.ltb_ge in G1. exact G1. }
  clear G1. change (Z.of_nat DEFAULT_BUFFER_SIZE) with 4096 in *.
  revert G1' G2 G3. generalize (parse_long (cstr m' cl) 4096).
  intros x G1 G2 G3.
  unfold post_data_have, size_t_of in *. unfold DEFAULT_BUFFER_SIZE in *.
  rewrite E2, K2 in *.
  rewrite (Z.mod_small x) in * by lia.
  rewrite Z.mod_small in G3 by lia.
  exists p. simpl. subst x.
  split; [rewrite <- Fr by lia; exact Ecr|].
  split; [rewrite <- Fr by lia; exact Elf|].
  repeat split; try (f_equal; lia); lia.
Qed.

End Parser.

Lemma parse_http_request_not_allowed_witness :
  REQUEST_ALLOW_PROXY_REQS (flags fresh_request) = false
  /\ snd (parse_http_request parse_long_decimal no_proxy_protocol fresh_request
            (new_helper 18 None) put_request) = HTTP_NOT_ALLOWED.
Proof.
  split; [reflexivity|].
  apply (parse_http_request_not_allowed parse_long_decimal no_proxy_protocol
           fresh_request (new_helper 18 None) put_request); [reflexivity|].
  split; [vm_compute; reflexivity|vm_compute; discriminate].
Defined.

Lemma parse_http_request_post_body_witness :
  let helper := new_helper (length scenario_form) None in
  exists request' helper' m',
    parse_http_request parse_long_decimal no_proxy_protocol fresh_request helper
                       (buffer_with scenario_form)
      = (request', helper', m', HTTP_OK)
    /\ REQUEST_METHOD_POST (flags request') = true
    /\ post_data helper' = mk_value (Some 88%nat) 7
    /\ next_request helper' = Some (length scenario_form).
Proof.
  intros helper. eexists. eexists. eexists.
  assert (Er : parse_http_request parse_long_decimal no_proxy_protocol fresh_request
                 helper (buffer_with scenario_form) = (_, _, _, HTTP_OK))
    by (vm_compute; reflexivity).
  split; [exact Er|].
  assert (Hf : REQUEST_METHOD_POST (flags
                 (fst (fst (fst (parse_http_request parse_long_decimal
                    no_proxy_protocol fresh_request helper
                    (buffer_with scenario_form)))))) = true)
    by (vm_compute; reflexivity).
  rewrite Er in Hf. simpl in Hf.
  split; [exact Hf|].
  assert (Hb : (buffer_len helper <= DEFAULT_BUFFER_SIZE)%nat)
    by (apply Nat.leb_le; vm_compute; reflexivity).
  destruct (parse_http_request_post_body parse_long_decimal no_proxy_protocol
              fresh_request _ helper _ (buffer_with scenario_form) _
              eq_refl eq_refl Hb Er Hf)
    as [p [_ [_ [_ [_ [_ Hn]]]]]].
  split; [reflexivity|exact Hn].
Defined.


(** ** Fragment and query string *)

Lemma index_of_split (c : Z) (l : list Z) (i : nat) :
  index_of c l = Some i ->
  exists a b, l = (a ++ c :: b)%list /\ length a = i /\ ~ In c a.
Proof.
  revert i; induction l as [|x t IH]; intros i; simpl; [discriminate|].
  destruct (x =? c) eqn:E.
  - intros [= <-]. apply Z.eqb_eq in E. subst x. exists [], t. auto.
  - destruct (index_of c t) as [j|]; simpl; [|discriminate].
    intros [= <-]. destruct (IH j eq_refl) as [a [b [-> [Hl Hn]]]].
    exists (x :: a), b. simpl. repeat split; auto.
    apply Z.eqb_neq in E. intros [H|H]; auto.
Qed.

Lemma index_of_none (c : Z) (l : list Z) : index_of c l = None -> ~ In c l.
Proof.
  induction l as [|x t IH]; simpl; [tauto|].
  destruct (x =? c) eqn:E; [discriminate|].
  destruct (index_of c t); simpl; [discriminate|].
  apply Z.eqb_neq in E. intros _ [H|H]; auto. now apply IH.
Qed.

Lemma rindex_of_none (c : Z) (l : list Z) : rindex_of c l = None -> ~ In c l.
Proof.
  induction l as [|x t IH]; simpl; [tauto|].
  destruct (rindex_of c t); [discriminate|].
  destruct (x =? c) eqn:E; [discriminate|].
  apply Z.eqb_neq in E. intros _ [H|H]; auto. now apply IH.
Qed.

Lemma rindex_of_split (c : Z) (l : list Z) (i : nat) :
  rindex_of c l = Some i ->
  exists a b, l = (a ++ c :: b)%list /\ length a = i /\ ~ In c b.
Proof.
  revert i; induction l as [|x t IH]; intros i; simpl; [discriminate|].
  destruct (rindex_of c t) as [j|] eqn:Er.
  - intros [= <-]. destruct (IH j eq_refl) as [a [b [-> [Hl Hn]]]].
    exists (x :: a), b. simpl. auto.
  - destruct (x =? c) eqn:E; [|discriminate].
    intros [= <-]. apply Z.eqb_eq in E. subst x. exists [], t.
    repeat split; auto. now apply rindex_of_none.
Qed.

(** [n] bytes from [p] on, split where a list of them splits. *)
Lemma segment_app (m : mem) (p n : nat) (x y : list Z) :
  firstn n (skipn p m) = (x ++ y)%list ->
  firstn (length x) (skipn p m) = x
  /\ firstn (n - length x) (skipn (p + length x) m) = y.
Proof.
  intros H.
  assert (Hn : (length x <= n)%nat).
  { apply (f_equal (@length Z)) in H. rewrite length_firstn, length_app in H. lia. }
  split.
  - apply (f_equal (firstn (length x))) in H.
    rewrite firstn_firstn, firstn_app, Nat.sub_diag, firstn_all in H.
    simpl in H. rewrite app_nil_r in H.
    replace (Nat.min (length x) n) with (length x) in H by lia. exact H.
  - apply (f_equal (skipn (length x))) in H.
    rewrite skipn_firstn_comm, skipn_app, Nat.sub_diag, skipn_all in H.
    simpl in H. rewrite skipn_skipn in H.
    rewrite Nat.add_comm. exact H.
Qed.

Lemma skipn_store_from (m : mem) (p q : ptr) (b : Z) :
  (p <= q)%nat -> skipn p (store m q b) = store (skipn p m) (q - p) b.
Proof.
  revert m q; induction p as [|p IH]; intros m q H.
  - rewrite Nat.sub_0_r. reflexivity.
  - destruct q as [|q]; [lia|]. destruct m as [|h t].
    + simpl. destruct (q - p)%nat; reflexivity.
    + change (skipn p (store t q b) = store (skipn p t) (q - p) b).
      apply IH. lia.
Qed.

(** A store outside a run of bytes leaves the run as it is. *)
Lemma segment_store_outside (m : mem) (p n : nat) (q : ptr) (b : Z) :
  (q < p \/ p + n <= q)%nat ->
  firstn n (skipn p (store m q b)) = firstn n (skipn p m).
Proof.
  intros [H|H].
  - now rewrite skipn_store_after.
  - rewrite skipn_store_from by lia. apply firstn_store_before. lia.
Qed.

(** X11. [parse_fragment_and_query] cuts the URL in place and loses nothing:
    the path, then "?" and the query string when there is one, then "#" and
    the fragment when there is one, are the URL it was handed. The path
    holds no '?', the fragment no '#', and a shortened path is followed
    by NUL. *)
Theorem parse_fragment_and_query_splits :
  forall (request : lwan_request_t) (helper : request_parser_helper) (m : mem)
         (u : ptr),
    value (url request) = Some u ->
    (u + len (url request) <= length m)%nat ->
    value (query_string helper) = None ->
    value (fragment helper) = None ->
    let r := parse_fragment_and_query request helper m (u + len (url request)) in
    let request' := fst (fst r) in
    let helper' := snd (fst r) in
    let m' := snd r in
    let path := firstn (len (url request')) (skipn u m') in
    value (url request') = Some u
    /\ firstn (len (url request)) (skipn u m)
       = (path ++ url_section (chr "?") (piece m' (query_string helper'))
               ++ url_section (chr "#") (piece m' (fragment helper')))%list
    /\ ~ In (chr "?") path
    /\ (forall f, piece m' (fragment helper') = Some f -> ~ In (chr "#") f)
    /\ ((len (url request') < len (url request))%nat ->
        load m' (u + len (url request')) = NUL).
Proof.
  intros request helper m u Hu Hin Hq Hf.
  set (L := len (url request)) in *.
  assert (Ht : length (firstn L (skipn u m)) = L).
  { rewrite length_firstn, length_skipn. lia. }
  unfold parse_fragment_and_query. rewrite Hu. fold L.
  unfold memrchr, memchr.
  destruct (rindex_of (chr "#") (firstn L (skipn u m))) as [i|] eqn:Er.
  - apply rindex_of_split in Er. destruct Er as [a [f [Et [Ha Hnf]]]].
    assert (HL : L = (i + 1 + length f)%nat).
    { rewrite <- Ht, Et, length_app. simpl. lia. }
    cbn [option_map]. cbn [url len value set_url fst snd].
    replace (u + L - (u + i) - 1)%nat with (length f) by lia.
    replace (L - (length f + 1))%nat with i by lia.
    rewrite segment_store_outside by lia.
    destruct (segment_app m u L a (chr "#" :: f) Et) as [Sa _].
    rewrite Ha in Sa. rewrite Sa.
    assert (Sf : firstn (length f) (skipn (S (u + i)) m) = f).
    { change (a ++ chr "#" :: f)%list with (a ++ [chr "#"] ++ f)%list in Et.
      rewrite app_assoc in Et.
      destruct (segment_app m u L _ _ Et) as [_ S2].
      rewrite length_app, Ha in S2. simpl in S2.
      replace (L - (i + 1))%nat with (length f) in S2 by lia.
      replace (u + (i + 1))%nat with (S (u + i)) in S2 by lia. exact S2. }
    destruct (index_of (chr "?") a) as [j|] eqn:Ei.
    + apply index_of_split in Ei. destruct Ei as [p [q [Ea [Hp Hnp]]]].
      assert (Hi : i = (j + 1 + length q)%nat).
      { rewrite <- Ha, Ea, length_app. simpl. lia. }
      unfold piece.
      cbn [option_map fst snd url len value set_url query_string fragment
           set_query_string set_fragment url_section].
      replace (u + i - (u + j) - 1)%nat with (length q) by lia.
      replace (i - (length q + 1))%nat with j by lia.
      rewrite !segment_store_outside by lia.
      rewrite Ea in Sa.
      destruct (segment_app m u i p (chr "?" :: q) Sa) as [Sp _].
      rewrite Hp in Sp. rewrite Sp, Sf.
      assert (Sq : firstn (length q) (skipn (S (u + j)) m) = q).
      { change (p ++ chr "?" :: q)%list with (p ++ [chr "?"] ++ q)%list in Sa.
        rewrite app_assoc in Sa.
        destruct (segment_app m u i _ _ Sa) as [_ S2].
        rewrite length_app, Hp in S2. simpl in S2.
        replace (i - (j + 1))%nat with (length q) in S2 by lia.
        replace (u + (j + 1))%nat with (S (u + j)) in S2 by lia. exact S2. }
      rewrite Sq.
      split; [reflexivity|]. split.
      { rewrite Et, Ea, <- app_assoc. reflexivity. }
      split; [exact Hnp|]. split; [intros f0 [= <-]; exact Hnf|].
      intros _. apply load_store_same. rewrite store_length. lia.
    + apply index_of_none in Ei.
      unfold piece.
      cbn [option_map fst snd url len value set_url query_string fragment
           set_query_string set_fragment url_section].
      rewrite Hq. cbn [option_map url_section].
      rewrite !segment_store_outside by lia. rewrite Sa, Sf.
      split; [reflexivity|]. split; [exact Et|].
      split; [exact Ei|]. split; [intros f0 [= <-]; exact Hnf|].
      intros _. apply load_store_same. lia.
  - apply rindex_of_none in Er.
    cbn [option_map fst snd url len value]. fold L.
    destruct (index_of (chr "?") (firstn L (skipn u m))) as [j|] eqn:Ei.
    + apply index_of_split in Ei. destruct Ei as [p [q [Ea [Hp Hnp]]]].
      assert (HL : L = (j + 1 + length q)%nat).
      { rewrite <- Ht, Ea, length_app. simpl. lia. }
      unfold piece.
      cbn [option_map fst snd url len value set_url query_string fragment
           set_query_string set_fragment url_section].
      rewrite Hf. cbn [option_map url_section].
      replace (u + L - (u + j) - 1)%nat with (length q) by lia.
      replace (L - (length q + 1))%nat with j by lia.
      rewrite !segment_store_outside by lia.
      destruct (segment_app m u L p (chr "?" :: q) Ea) as [Sp _].
      rewrite Hp in Sp. rewrite Sp.
      assert (Sq : firstn (length q) (skipn (S (u + j)) m) = q).
      { change (p ++ chr "?" :: q)%list with (p ++ [chr "?"] ++ q)%list in Ea.
        rewrite app_assoc in Ea.
        destruct (segment_app m u L _ _ Ea) as [_ S2].
        rewrite length_app, Hp in S2. simpl in S2.
        replace (L - (j + 1))%nat with (length q) in S2 by lia.
        replace (u + (j + 1))%nat with (S (u + j)) in S2 by lia. exact S2. }
      rewrite Sq.
      split; [reflexivity|]. split.
      { rewrite Ea, app_nil_r. reflexivity. }
      split; [exact Hnp|]. split; [intros f0; discriminate|].
      intros _. apply load_store_same. lia.
    + apply index_of_none in Ei.
      unfold piece. cbn [option_map fst snd url len value url_section]. fold L.
      rewrite Hq, Hf. cbn [option_map url_section]. rewrite !app_nil_r.
      split; [exact Hu|]. split; [reflexivity|].
      split; [exact Ei|]. split; [intros f0; discriminate|].
      intros H. lia.
Qed.

Lemma parse_fragment_and_query_splits_witness :
  let request := set_url (mk_value (Some 4%nat) 10) fresh_request in
  let r := parse_fragment_and_query request (new_helper 0 None) url_with_parts 14 in
  firstn 10 (skipn 4 url_with_parts) = bytes "/a?b=1#frg"
  /\ firstn (len (url (fst (fst r)))) (skipn 4 (snd r)) = bytes "/a"
  /\ piece (snd r) (query_string (snd (fst r))) = Some (bytes "b=1")
  /\ piece (snd r) (fragment (snd (fst r))) = Some (bytes "frg")
  /\ load (snd r) 6 = NUL.
Proof.
  intros request r.
  assert (Hin : (4 + len (url request) <= length url_with_parts)%nat)
    by (vm_compute; lia).
  destruct (parse_fragment_and_query_splits request (new_helper 0 None)
              url_with_parts 4 eq_refl Hin eq_refl eq_refl)
    as [_ [_ [_ [_ Hnul]]]].
  split; [reflexivity|]. split; [reflexivity|].
  split; [reflexivity|]. split; [reflexivity|].
  apply Hnul. vm_compute. lia.
Defined.


(** ** Responses of a dispatch cycle *)

Lemma responses_app (a b : list event) :
  responses (a ++ b) = (responses a + responses b)%nat.
Proof. unfold responses. now rewrite filter_app, length_app. Qed.

Lemma handler_runs_app (a b : list event) :
  handler_runs (a ++ b) = (handler_runs a + handler_runs b)%nat.
Proof. unfold handler_runs. now rewrite filter_app, length_app. Qed.

Lemma yields_count_nothing (ys : list event) :
  Forall (fun e => e = Ev_yield) ys ->
  responses ys = 0%nat /\ handler_runs ys = 0%nat.
Proof.
  induction 1 as [|e ys He Hys IH]; [split; reflexivity|].
  subst e. exact IH.
Qed.

Section Answers.

Variable qsort :
  (lwan_key_value_t -> lwan_key_value_t -> Z) ->
  list lwan_key_value_t -> list lwan_key_value_t.
Variable junk : option (nat -> lwan_key_value_t).
Variable parse_long : list Z -> Z -> Z.
Variable parse_proxy_protocol :
  lwan_request_t -> mem -> ptr -> lwan_request_t * mem * option ptr.
Variable strptime_timegm : list Z -> option (nat * Z).
Variable sscanf_from_to : list Z -> option (Z * Z).
Variable sscanf_to : list Z -> option Z.
Variable sscanf_from : list Z -> option Z.
Variable lwan_http_authorize :
  lwan_request_t -> lwan_value_t -> mem -> lwan_url_map_t -> bool.
Variable lwan_trie_lookup_prefix : mem -> option ptr -> option lwan_url_map_t.

(** A pass through [lookup_again] that returns has sent one response, as
    the last thing it did; a handler ran once per lookup at most. *)
Lemma lookup_again_answers :
  forall (fuel : nat) (s r : reader_state),
    lookup_again qsort junk strptime_timegm sscanf_from_to sscanf_to sscanf_from
                 lwan_http_authorize lwan_trie_lookup_prefix fuel s
    = Some (Returns r) ->
    exists e evs,
      rd_events r = (e :: evs ++ rd_events s)%list
      /\ is_response e = true
      /\ responses evs = 0%nat
      /\ (1 <= lookups evs)%nat
      /\ (handler_runs evs <= lookups evs)%nat.
Proof.
  induction fuel as [|fuel IH]; intros s r; [discriminate|].
  cbn [lookup_again]. cbv zeta.
  set (lk := Ev_lookup (value (url (rd_request s)))).
  destruct (lwan_trie_lookup_prefix _ _) as [url_map|].
  2:{ intros [= <-]. exists (Ev_default_response HTTP_NOT_FOUND), [lk].
      subst lk. repeat split; first [reflexivity|apply Nat.le_refl|apply Nat.le_0_l]. }
  destruct (prepare_for_response _ _ _ _ _ _ _ _ _ _ _)
    as [[[request m] status]| |]; try discriminate.
  destruct (negb (status_eqb status HTTP_OK)).
  { intros [= <-]. exists (Ev_default_response status), [lk].
    subst lk. repeat split; first [reflexivity|apply Nat.le_refl|apply Nat.le_0_l]. }
  destruct (handler url_map request m) as [[status' request'] m'].
  destruct (HANDLER_CAN_REWRITE_URL (map_flags url_map)
            && RESPONSE_URL_REWRITTEN (flags request')).
  2:{ intros [= <-]. exists (Ev_response status'), [Ev_handler; lk].
      subst lk. repeat split; first [reflexivity|apply Nat.le_refl|apply Nat.le_0_l]. }
  match goal with
  | |- context [handle_rewrite ?x] =>
      pose proof (handle_rewrite_counts x) as Hrw;
      destruct (handle_rewrite x) as [s3 again]
  end.
  cbv zeta in Hrw. simpl in Hrw. destruct Hrw as [_ [Htrue Hfalse]].
  destruct again.
  - destruct (Htrue eq_refl) as [_ Hev].
    intros H. apply IH in H. destruct H as [e [evs [Hevs [He [Hr [Hl Hh]]]]]].
    exists e, (evs ++ [Ev_handler; lk])%list.
    split; [rewrite Hevs, Hev, <- app_assoc; reflexivity|].
    split; [exact He|].
    rewrite responses_app, lookups_app, handler_runs_app, Hr.
    change (responses [Ev_handler; lk]) with 0%nat.
    change (lookups [Ev_handler; lk]) with 1%nat.
    change (handler_runs [Ev_handler; lk]) with 1%nat.
    repeat split; lia.
  - destruct (Hfalse eq_refl) as [_ Hev].
    intros [= <-].
    exists (Ev_default_response HTTP_INTERNAL_ERROR), [Ev_handler; lk].
    split; [rewrite Hev; reflexivity|].
    subst lk. repeat split; first [reflexivity|apply Nat.le_refl|apply Nat.le_0_l].
Qed.

(** X12. A dispatch cycle that returns has sent one response at most, and that
    as the last thing it did; it sent none only when the read failed with
    400 while [next_request] was set, and then that pointer is what it
    returns. The trie is consulted, and a handler run, only for a request
    that was read and parsed with status 200, and a handler runs once per
    lookup at most. *)
Theorem lwan_process_request_answers_once :
  forall (request : lwan_request_t) (m : mem) (buffer_length : nat)
         (pipelined : option ptr) (socket : list read_result)
         (s : reader_state) (next : option ptr),
    lwan_process_request qsort junk parse_long parse_proxy_protocol strptime_timegm
                         sscanf_from_to sscanf_to sscanf_from lwan_http_authorize
                         lwan_trie_lookup_prefix
                         request m buffer_length pipelined socket
    = Some (Process_returns s next) ->
    let s0 := mk_reader request (new_helper buffer_length pipelined) m socket [] in
    next = next_request (rd_helper s)
    /\ (handler_runs (rd_events s) <= lookups (rd_events s))%nat
    /\ ((exists e evs, rd_events s = e :: evs /\ is_response e = true
                       /\ responses evs = 0%nat)
        \/ (responses (rd_events s) = 0%nat
            /\ lookups (rd_events s) = 0%nat
            /\ read_request s0 = Returns (s, HTTP_BAD_REQUEST)
            /\ exists p, next = Some p))
    /\ ((1 <= lookups (rd_events s))%nat ->
        exists s1,
          read_request s0 = Returns (s1, HTTP_OK)
          /\ snd (parse_http_request parse_long parse_proxy_protocol
                    (rd_request s1) (rd_helper s1) (rd_mem s1)) = HTTP_OK).
Proof.
  intros request m buffer_length pipelined socket s next.
  unfold lwan_process_request.
  set (s0 := mk_reader request (new_helper buffer_length pipelined) m socket []).
  destruct (read_request s0) as [[s1 status]| |] eqn:Er; try discriminate.
  pose proof (read_request_keeps _ _ _ Er) as [_ [ys [Hev Hys]]].
  simpl in Hev. rewrite app_nil_r in Hev.
  destruct (yields_count_nothing ys Hys) as [Yr Yh].
  pose proof (yields_are_no_lookups ys Hys) as Yl.
  destruct (negb (status_eqb status HTTP_OK)) eqn:Es.
  { destruct (status_eqb status HTTP_BAD_REQUEST) eqn:Eb; [|discriminate].
    destruct (next_request (rd_helper s1)) as [p|] eqn:En; [|discriminate].
    cbn [andb]. intros [= <- <-]. cbv zeta. rewrite Hev, Yr, Yh, Yl.
    split; [auto|]. split; [lia|]. split.
    - right. split; [reflexivity|]. split; [reflexivity|]. split; [|eauto].
      destruct status; try discriminate. reflexivity.
    - intros H; lia. }
  assert (status = HTTP_OK) as -> by (destruct status; try discriminate; reflexivity).
  destruct (parse_http_request _ _ _ _ _) as [[[rq h] mm] st] eqn:Ep.
  destruct (negb (status_eqb st HTTP_OK)) eqn:Est.
  { intros [= <- <-]. cbv zeta. unfold emit. cbn [rd_helper rd_events].
    rewrite Hev. split; [reflexivity|].
    change (Ev_default_response st :: ys) with ([Ev_default_response st] ++ ys)%list.
    rewrite handler_runs_app, lookups_app, Yh, Yl.
    split; [simpl; lia|]. split.
    - left. exists (Ev_default_response st), ys. auto.
    - change (lookups [Ev_default_response st]) with 0%nat. intros H; lia. }
  assert (st = HTTP_OK) as -> by (destruct st; try discriminate; reflexivity).
  destruct (lookup_again _ _ _ _ _ _ _ _ 5 _) as [[r| |]|] eqn:El; try discriminate.
  intros [= <- <-]. cbv zeta.
  apply lookup_again_answers in El.
  destruct El as [e [evs [Hevs [He [Hr [Hl Hh]]]]]].
  cbn [rd_events] in Hevs. rewrite Hev in Hevs.
  split; [reflexivity|]. rewrite Hevs.
  change (e :: evs ++ ys)%list with ([e] ++ evs ++ ys)%list.
  rewrite !handler_runs_app, !lookups_app, Yh, Yl.
  assert (He' : handler_runs [e] = 0%nat /\ lookups [e] = 0%nat)
    by (destruct e; try discriminate; split; reflexivity).
  destruct He' as [-> ->].
  split; [lia|]. split.
  - left. exists e, (evs ++ ys)%list. split; [reflexivity|]. split; [exact He|].
    rewrite responses_app, Hr, Yr. reflexivity.
  - intros _. exists s1. split; [reflexivity|]. rewrite Ep. reflexivity.
Qed.

End Answers.

Lemma lwan_process_request_answers_once_witness :
  exists s next,
    process_with parsing_trie small_buffer 0 None [Read_data scenario_query]
    = Some (Process_returns s next)
    /\ next = next_request (rd_helper s)
    /\ (handler_runs (rd_events s) <= lookups (rd_events s))%nat.
Proof.
  eexists. eexists. split; [vm_compute; reflexivity|].
  refine ((fun H => conj (proj1 H) (proj1 (proj2 H)))
            (lwan_process_request_answers_once
               insertion_sort zeroed_block parse_long_decimal no_proxy_protocol
               no_strptime no_sscanf2 no_sscanf1 no_sscanf1 authorize_all
               parsing_trie fresh_request small_buffer 0 None
               [Read_data scenario_query] _ _ _)).
  vm_compute. reflexivity.
Defined.


(** ** The method *)

Lemma match_tag_four (m : mem) (p : ptr) (tag : string) :
  Forall (fun b => b <> NUL) (bytes tag) ->
  String.length tag = 4%nat ->
  match_tag m p tag = true <-> firstn 4 (skipn p m) = bytes tag.
Proof.
  intros Hnz Hl. unfold match_tag. rewrite (mem_equal_iff m p (bytes tag) Hnz).
  unfold bytes. rewrite length_map.
  replace (length (list_ascii_of_string tag)) with 4%nat; [reflexivity|].
  rewrite <- Hl. clear. induction tag as [|a s IH]; simpl; auto.
Qed.

Lemma or_method_none (request : lwan_request_t) :
  set_flags (or_method (flags request) None) request = request.
Proof.
  destruct request as [f u o q p c i rf rt k r]. destruct f. unfold set_flags, or_method.
  simpl. now rewrite !orb_false_r.
Qed.

(** X13. [identify_http_method] reads the method off the four bytes at the
    cursor and off nothing else: "GET " moves the cursor by four, "HEAD"
    and "POST" by five, so that the byte behind these two is skipped
    without being looked at; any other four bytes leave the request and
    the cursor as they were. *)
Theorem identify_http_method_by_four_bytes :
  forall (request : lwan_request_t) (m : mem) (buffer : ptr),
    let four := firstn 4 (skipn buffer m) in
    let r := identify_http_method request m buffer in
    ((four = bytes "GET " /\ snd r = (buffer + 4)%nat
      /\ REQUEST_METHOD_GET (flags (fst r)) = true)
     \/ (four = bytes "HEAD" /\ snd r = (buffer + 5)%nat
         /\ REQUEST_METHOD_HEAD (flags (fst r)) = true)
     \/ (four = bytes "POST" /\ snd r = (buffer + 5)%nat
         /\ REQUEST_METHOD_POST (flags (fst r)) = true)
     \/ (four <> bytes "GET " /\ four <> bytes "HEAD" /\ four <> bytes "POST"
         /\ r = (request, buffer)))
    /\ (forall m' : mem,
           firstn 4 (skipn buffer m') = four ->
           identify_http_method request m' buffer = r).
Proof.
  intros request m buffer four r.
  assert (HG : forall mm, match_tag mm buffer "GET " = true
                          <-> firstn 4 (skipn buffer mm) = bytes "GET ")
    by (intros mm; apply match_tag_four; [nonzero_bytes|reflexivity]).
  assert (HH : forall mm, match_tag mm buffer "HEAD" = true
                          <-> firstn 4 (skipn buffer mm) = bytes "HEAD")
    by (intros mm; apply match_tag_four; [nonzero_bytes|reflexivity]).
  assert (HP : forall mm, match_tag mm buffer "POST" = true
                          <-> firstn 4 (skipn buffer mm) = bytes "POST")
    by (intros mm; apply match_tag_four; [nonzero_bytes|reflexivity]).
  assert (Same : forall mm tag,
             (forall x, match_tag x buffer tag = true
                        <-> firstn 4 (skipn buffer x) = bytes tag) ->
             firstn 4 (skipn buffer mm) = four ->
             match_tag mm buffer tag = match_tag m buffer tag).
  { intros mm tag Ht E.
    destruct (match_tag m buffer tag) eqn:E1.
    - apply Ht. rewrite E. apply Ht. exact E1.
    - destruct (match_tag mm buffer tag) eqn:E2; [|reflexivity].
      apply Ht in E2. rewrite E in E2. apply Ht in E2. congruence. }
  split.
  - subst r. unfold identify_http_method, get_http_method.
    destruct (match_tag m buffer "GET ") eqn:EG.
    { left. split; [apply HG; exact EG|]. split; [reflexivity|].
      simpl. apply orb_true_r. }
    destruct (match_tag m buffer "HEAD") eqn:EH.
    { right. left. split; [apply HH; exact EH|]. split; [reflexivity|].
      simpl. apply orb_true_r. }
    destruct (match_tag m buffer "POST") eqn:EP.
    { right. right. left. split; [apply HP; exact EP|]. split; [reflexivity|].
      simpl. apply orb_true_r. }
    right. right. right.
    split; [intros E; apply HG in E; congruence|].
    split; [intros E; apply HH in E; congruence|].
    split; [intros E; apply HP in E; congruence|].
    cbn [sizes]. rewrite Nat.add_0_r, or_method_none. reflexivity.
  - intros m' E. subst r. unfold identify_http_method, get_http_method.
    rewrite (Same m' "GET "%string HG E), (Same m' "HEAD"%string HH E),
      (Same m' "POST"%string HP E).
    reflexivity.
Qed.

Lemma identify_http_method_by_four_bytes_witness :
  identify_http_method fresh_request (bytes "POSTX/ HTTP/1.1") 0
  = identify_http_method fresh_request (bytes "POST / HTTP/1.1") 0
  /\ snd (identify_http_method fresh_request (bytes "POST / HTTP/1.1") 0) = 5%nat.
Proof.
  split; [|reflexivity].
  apply (identify_http_method_by_four_bytes fresh_request (bytes "POST / HTTP/1.1") 0).
  reflexivity.
Defined.

(** ** From the parser to the lookups *)

Lemma bytes_only_text (m : mem) (p : ptr) : bytes_only m -> text (cstr m p).
Proof.
  unfold bytes_only, text, cstr. intros H.
  assert (Hs : Forall (fun b => 0 <= b < 256) (skipn p m)).
  { rewrite <- (firstn_skipn p m) in H. apply Forall_app in H. tauto. }
  revert Hs. generalize (skipn p m) as l. clear.
  induction l as [|x l IH]; intros H; simpl; [constructor|].
  inversion H; subst. destruct (Z.eqb_spec x NUL); [constructor|].
  constructor; [unfold NUL in *; lia|auto].
Qed.

Lemma bytes_only_key (m : mem) (e : lwan_key_value_t) : bytes_only m -> text (key_str m e).
Proof.
  intros H. unfold key_str. destruct (key e); [now apply bytes_only_text|constructor].
Qed.

Section Found.

Variable qsort :
  (lwan_key_value_t -> lwan_key_value_t -> Z) ->
  list lwan_key_value_t -> list lwan_key_value_t.
Variable junk : option (nat -> lwan_key_value_t).

Hypothesis qsort_perm : forall cmp l, Permutation l (qsort cmp l).
Hypothesis qsort_sorted :
  forall m l, StronglySorted (key_le m) (qsort (key_value_compare_qsort_key m) l).

(** X14. What [parse_query_string] stores, [lwan_request_get_query_param]
    finds: on the list the parser assigned, a lookup of [k] returns the
    value of a pair whose key starts with [k] when there is such a pair,
    and NULL when there is none. [qsort] is taken to sort. *)
Theorem parsed_query_params_are_found :
  forall (request request' : lwan_request_t) (helper : request_parser_helper)
         (m m' : mem) (out : list lwan_key_value_t) (k : list Z),
    base (query_params request) = None ->
    parse_query_string qsort junk request helper m = Returns (request', m') ->
    base (query_params request') = Some out ->
    bytes_only m' ->
    text k ->
    let n := kv_len (query_params request') in
    let starts i := firstn (length k) (key_str m' (nth i out kv_sentinel)) = k in
    (1 <= n < n_elements)%nat
    /\ ((exists i, (i < n)%nat /\ starts i) ->
        exists j, (j < n)%nat /\ starts j
                  /\ lwan_request_get_query_param request' m' k
                     = kv_value (nth j out kv_sentinel))
    /\ ((forall i, (i < n)%nat -> ~ starts i) ->
        lwan_request_get_query_param request' m' k = None).
Proof.
  intros request request' helper m m' out k Hnone Hp Hout Hb Hk n starts.
  unfold parse_query_string in Hp.
  destruct (parse_key_values qsort url_decode (chr "&") junk m (query_string helper))
    as [why m1 kvs vals|m1 kvs vals| |] eqn:Ek; simpl in Hp; try discriminate.
  { injection Hp as <- <-. congruence. }
  injection Hp as <- <-.
  apply (parse_key_values_assigned qsort qsort_perm qsort_sorted) in Ek.
  destruct Ek as [Hn [Hlen [_ Hsorted]]].
  subst n. simpl in Hout. injection Hout as <-.
  cbn [query_params set_query_params kv_len] in *.
  assert (Hkeys : forall i, (i < vals)%nat -> text (key_str m1 (nth i kvs kv_sentinel)))
    by (intros i _; now apply bytes_only_key).
  assert (Hle : (vals <= length kvs)%nat) by (unfold n_elements in *; lia).
  assert (Hst : forall i, (i < vals)%nat ->
                  (strncmp_l k (key_str m1 (nth i kvs kv_sentinel)) (length k) = 0
                   <-> starts i)).
  { intros i Hi. apply strncmp_zero_iff_prefix; auto. }
  split; [exact Hn|].
  unfold lwan_request_get_query_param, value_array_bsearch.
  cbn [query_params set_query_params kv_len base].
  destruct (vals =? 0)%nat eqn:E0; [apply Nat.eqb_eq in E0; lia|].
  destruct (value_array_bsearch_loop_spec m1 kvs vals k Hle Hk Hkeys Hsorted
              (S vals) 0 vals) as [[j [Hj [Hc Hr]]]|[Hno Hr]]; try lia.
  - split.
    + intros _. exists j. split; [exact Hj|]. split; [now apply Hst|exact Hr].
    + intros Hnone'. exfalso. apply (Hnone' j Hj). now apply Hst.
  - split.
    + intros [i [Hi Hs]]. exfalso. apply (Hno i Hi). now apply Hst.
    + intros _. exact Hr.
Qed.

End Found.

Lemma bytes_only_check (m : mem) :
  forallb (fun b => (0 <=? b) && (b <? 256)) m = true -> bytes_only m.
Proof.
  intros H. apply Forall_forall. intros x Hx.
  rewrite forallb_forall in H. specialize (H x Hx).
  apply andb_prop in H. destruct H as [H1 H2].
  apply Z.leb_le in H1. apply Z.ltb_lt in H2. lia.
Qed.

Lemma parsed_query_params_are_found_witness :
  let helper := set_query_string (mk_value (Some 0%nat) 14) (new_helper 14 None) in
  exists request' m' out,
    parse_query_string insertion_sort zeroed_block fresh_request helper foo_foobar
    = Returns (request', m')
    /\ base (query_params request') = Some out
    /\ (1 <= kv_len (query_params request') < n_elements)%nat
    /\ option_map (cstr m') (lwan_request_get_query_param request' m' (bytes "foobar"))
       = Some (bytes "2")
    /\ lwan_request_get_query_param request' m' (bytes "bar") = None.
Proof.
  intros helper. eexists. eexists. eexists.
  assert (Ep : parse_query_string insertion_sort zeroed_block fresh_request helper
                 foo_foobar = Returns (_, _)) by (vm_compute; reflexivity).
  split; [exact Ep|].
  assert (Eo : base (query_params
                 (set_query_params foo_foobar_list fresh_request)) = Some _)
    by reflexivity.
  split; [exact Eo|].
  assert (Hk : text (bytes "bar")).
  { repeat (apply Forall_cons; [vm_compute; split; reflexivity|]). apply Forall_nil. }
  destruct (parsed_query_params_are_found insertion_sort zeroed_block
              insertion_sort_perm insertion_sort_sorted
              fresh_request _ helper foo_foobar _ _ (bytes "bar")
              eq_refl Ep Eo (bytes_only_check foo_foobar_parsed eq_refl) Hk)
    as [Hn [_ Hnone]].
  split; [exact Hn|]. split; [reflexivity|].
  apply Hnone. intros [|[|i]] Hi; try (simpl in Hi; lia); vm_compute; discriminate.
Defined.


(** ** Accept-Encoding *)

Lemma set_accept_twice (d g d' g' : bool) (f : request_flags) :
  set_accept d' g' (set_accept d g f) = set_accept (d || d') (g || g') f.
Proof. unfold set_accept. simpl. now rewrite !orb_assoc. Qed.

Lemma set_accept_nothing (f : request_flags) : set_accept false false f = f.
Proof. destruct f. unfold set_accept. simpl. now rewrite !orb_false_r. Qed.

Lemma parse_accept_encoding_loop_adds (fuel : nat) :
  forall (f : request_flags) (m : mem) (p : ptr),
    exists d g, parse_accept_encoding_loop fuel f m p = set_accept d g f.
Proof.
  induction fuel as [|fuel IH]; intros f m p; cbn [parse_accept_encoding_loop].
  - exists false, false. now rewrite set_accept_nothing.
  - destruct (load m p =? NUL).
    { exists false, false. now rewrite set_accept_nothing. }
    cbv zeta.
    destruct (match_tag m p "defl" || match_tag m p " def").
    + destruct (strchr m p (chr ",")) as [q|]; [|exists true, false; reflexivity].
      destruct (IH (set_accept true false f) m (S q)) as [d [g ->]].
      rewrite set_accept_twice. eauto.
    + destruct (match_tag m p "gzip" || match_tag m p " gzi").
      * destruct (strchr m p (chr ",")) as [q|]; [|exists false, true; reflexivity].
        destruct (IH (set_accept false true f) m (S q)) as [d [g ->]].
        rewrite set_accept_twice. eauto.
      * destruct (strchr m p (chr ",")) as [q|].
        -- apply IH.
        -- exists false, false. now rewrite set_accept_nothing.
Qed.

Lemma parse_accept_encoding_loop_first (fuel : nat) (f : request_flags) (m : mem)
      (p : ptr) :
  load m p <> NUL ->
  (match_tag m p "defl" || match_tag m p " def" = true ->
   REQUEST_ACCEPT_DEFLATE (parse_accept_encoding_loop (S fuel) f m p) = true)
  /\ (match_tag m p "defl" || match_tag m p " def" = false ->
      match_tag m p "gzip" || match_tag m p " gzi" = true ->
      REQUEST_ACCEPT_GZIP (parse_accept_encoding_loop (S fuel) f m p) = true).
Proof.
  intros Hnz. apply Z.eqb_neq in Hnz.
  cbn [parse_accept_encoding_loop]. rewrite Hnz. cbv zeta.
  split.
  - intros ->. destruct (strchr m p (chr ",")) as [q|].
    + destruct (parse_accept_encoding_loop_adds fuel (set_accept true false f) m (S q))
        as [d [g ->]].
      simpl. now rewrite orb_true_r.
    + simpl. now rewrite orb_true_r.
  - intros -> ->. destruct (strchr m p (chr ",")) as [q|].
    + destruct (parse_accept_encoding_loop_adds fuel (set_accept false true f) m (S q))
        as [d [g ->]].
      simpl. now rewrite orb_true_r.
    + simpl. now rewrite orb_true_r.
Qed.

(** X15. [parse_accept_encoding] only ever adds the deflate and gzip flags: it
    clears nothing and leaves the rest of the request alone. A value that
    starts with "defl" (or " def") gives the deflate flag, one that starts
    with "gzip" (or " gzi") the gzip flag, whatever follows the four
    bytes. *)
Theorem parse_accept_encoding_only_adds :
  forall (request : lwan_request_t) (helper : request_parser_helper) (m : mem),
    let r := parse_accept_encoding request helper m in
    (exists deflate gzip,
        r = set_flags (set_accept deflate gzip (flags request)) request)
    /\ (forall p,
           len (accept_encoding helper) <> 0%nat ->
           value (accept_encoding helper) = Some p ->
           load m p <> NUL ->
           (match_tag m p "defl" || match_tag m p " def" = true ->
            REQUEST_ACCEPT_DEFLATE (flags r) = true)
           /\ (match_tag m p "defl" || match_tag m p " def" = false ->
               match_tag m p "gzip" || match_tag m p " gzi" = true ->
               REQUEST_ACCEPT_GZIP (flags r) = true)).
Proof.
  intros request helper m r. subst r. unfold parse_accept_encoding.
  assert (Hid : request = set_flags (set_accept false false (flags request)) request).
  { rewrite set_accept_nothing. destruct request; reflexivity. }
  split.
  - destruct (len (accept_encoding helper) =? 0)%nat; [exists false, false; exact Hid|].
    destruct (value (accept_encoding helper)) as [p|]; [|exists false, false; exact Hid].
    destruct (parse_accept_encoding_loop_adds (S (length m)) (flags request) m p)
      as [d [g ->]].
    eauto.
  - intros p Hl Hv Hnz. apply Nat.eqb_neq in Hl. rewrite Hl, Hv.
    cbn [flags set_flags].
    apply parse_accept_encoding_loop_first. exact Hnz.
Qed.

Lemma parse_accept_encoding_only_adds_witness :
  let m := (bytes "gzip;q=0, deflate" ++ [NUL])%list in
  let helper := set_accept_encoding (mk_value (Some 0%nat) 17) (new_helper 0 None) in
  REQUEST_ACCEPT_GZIP (flags (parse_accept_encoding fresh_request helper m)) = true
  /\ REQUEST_ACCEPT_DEFLATE (flags (parse_accept_encoding fresh_request helper m)) = true.
Proof.
  intros m helper. split; [|reflexivity].
  destruct (parse_accept_encoding_only_adds fresh_request helper m) as [_ H].
  assert (Hl : len (accept_encoding helper) <> 0%nat) by (vm_compute; discriminate).
  assert (Hnz : load m 0 <> NUL) by (vm_compute; discriminate).
  destruct (H 0%nat Hl eq_refl Hnz) as [_ Hg].
  apply Hg; reflexivity.
Defined.

(** ** Preparing the response *)

Lemma leading_slashes_stop (l : list Z) :
  forall n : nat,
    let k := leading_slashes l n in
    (k <= n)%nat /\ ((n - k)%nat = 0%nat \/ nth k l NUL <> chr "/").
Proof.
  induction l as [|b t IH]; intros n; cbn [leading_slashes].
  - cbv zeta. destruct n; split; try lia; right; simpl; discriminate.
  - destruct n as [|n]; [cbv zeta; split; [lia|left; reflexivity]|].
    destruct (b =? chr "/") eqn:E.
    + specialize (IH n). cbv zeta in *. destruct IH as [H1 H2].
      split; [lia|]. destruct H2 as [H2|H2]; [left; simpl; lia|right; exact H2].
    + cbv zeta. split; [lia|]. right. simpl. now apply Z.eqb_neq.
Qed.

Section Prepare.

Variable qsort :
  (lwan_key_value_t -> lwan_key_value_t -> Z) ->
  list lwan_key_value_t -> list lwan_key_value_t.
Variable junk : option (nat -> lwan_key_value_t).
Variable strptime_timegm : list Z -> option (nat * Z).
Variable sscanf_from_to : list Z -> option (Z * Z).
Variable sscanf_to : list Z -> option Z.
Variable sscanf_from : list Z -> option Z.
Variable lwan_http_authorize :
  lwan_request_t -> lwan_value_t -> mem -> lwan_url_map_t -> bool.

Lemma assign_kv_list_flags set request r request' m' :
  (forall l x, flags (set l x) = flags x) ->
  assign_kv_list set request r = Returns (request', m') ->
  flags request' = flags request.
Proof.
  intros Hset. destruct r; simpl; try discriminate; intros [= <- _]; auto.
Qed.

Lemma parse_query_string_flags request helper m request' m' :
  parse_query_string qsort junk request helper m = Returns (request', m') ->
  flags request' = flags request.
Proof. apply assign_kv_list_flags. reflexivity. Qed.

Lemma parse_cookies_flags request helper m request' m' :
  parse_cookies qsort junk request helper m = Returns (request', m') ->
  flags request' = flags request.
Proof. apply assign_kv_list_flags. reflexivity. Qed.

Lemma parse_post_data_flags request helper m request' m' :
  parse_post_data qsort junk request helper m = Returns (request', m') ->
  flags request' = flags request.
Proof.
  unfold parse_post_data.
  destruct (negb _); [intros [= <- _]; reflexivity|].
  destruct (value (content_type helper)); [|intros [= <- _]; reflexivity].
  destruct (negb _); [intros [= <- _]; reflexivity|].
  apply assign_kv_list_flags. reflexivity.
Qed.

Lemma parse_if_modified_since_flags request helper m :
  flags (parse_if_modified_since strptime_timegm request helper m) = flags request.
Proof.
  unfold parse_if_modified_since.
  destruct (_ =? _)%nat; [reflexivity|].
  destruct (value _); [|reflexivity].
  destruct (strptime_timegm _) as [[processed t]|]; [|reflexivity].
  destruct (negb _); reflexivity.
Qed.

Lemma parse_range_flags request helper m :
  flags (parse_range sscanf_from_to sscanf_to sscanf_from request helper m)
  = flags request.
Proof.
  unfold parse_range.
  destruct (_ <=? _)%nat; [reflexivity|].
  destruct (value _); [|reflexivity].
  destruct (negb _); [reflexivity|]. cbv zeta.
  destruct (sscanf_from_to _) as [[from to]|]; [reflexivity|].
  destruct (sscanf_to _); [reflexivity|].
  destruct (sscanf_from _); reflexivity.
Qed.

Lemma parse_accept_encoding_post request helper m :
  REQUEST_METHOD_POST (flags (parse_accept_encoding request helper m))
  = REQUEST_METHOD_POST (flags request).
Proof.
  unfold parse_accept_encoding.
  destruct (_ =? _)%nat; [reflexivity|].
  destruct (value _) as [p|]; [|reflexivity].
  destruct (parse_accept_encoding_loop_adds (S (length m)) (flags request) m p)
    as [d [g ->]].
  reflexivity.
Qed.

(** X16. [prepare_for_response] gives 200, 405 or 401: 405 exactly for a POST
    to a handler that does not take post data, 401 only from a handler
    that asks for authorization. It never changes the method. With
    HANDLER_REMOVE_LEADING_SLASH and status 200 the URL it leaves is
    empty or starts with a byte other than '/'. *)
Theorem prepare_for_response_outcomes :
  forall (url_map : lwan_url_map_t) (request request' : lwan_request_t)
         (helper : request_parser_helper) (m m' : mem) (status : lwan_http_status_t),
    prepare_for_response qsort junk strptime_timegm sscanf_from_to sscanf_to
                         sscanf_from lwan_http_authorize url_map request helper m
    = Returns (request', m', status) ->
    let f := map_flags url_map in
    (status = HTTP_OK \/ status = HTTP_NOT_ALLOWED \/ status = HTTP_NOT_AUTHORIZED)
    /\ (status = HTTP_NOT_ALLOWED <->
        REQUEST_METHOD_POST (flags request) = true
        /\ HANDLER_PARSE_POST_DATA f = false)
    /\ (status = HTTP_NOT_AUTHORIZED -> HANDLER_MUST_AUTHORIZE f = true)
    /\ REQUEST_METHOD_POST (flags request') = REQUEST_METHOD_POST (flags request)
    /\ (status = HTTP_OK ->
        HANDLER_REMOVE_LEADING_SLASH f = true ->
        forall u, value (url request') = Some u ->
                  len (url request') = 0%nat \/ load m' u <> chr "/").
Proof.
  intros url_map request request' helper m m' status.
  unfold prepare_for_response. cbv zeta.
  set (f := map_flags url_map).
  set (rq0 := set_url _ request).
  assert (F0 : flags rq0 = flags request) by reflexivity.
  assert (Q : forall r1 m1,
             (if HANDLER_PARSE_QUERY_STRING f
              then parse_query_string qsort junk rq0 helper m
              else Returns (rq0, m)) = Returns (r1, m1) ->
             flags r1 = flags request).
  { intros r1 m1. destruct (HANDLER_PARSE_QUERY_STRING f).
    - intros H. apply parse_query_string_flags in H. congruence.
    - intros [= <- _]. exact F0. }
  destruct (if HANDLER_PARSE_QUERY_STRING f then _ else _)
    as [[r1 m1]| |]; try discriminate.
  specialize (Q r1 m1 eq_refl).
  set (r2 := if HANDLER_PARSE_IF_MODIFIED_SINCE f then _ else r1).
  assert (F2 : flags r2 = flags request).
  { subst r2. destruct (HANDLER_PARSE_IF_MODIFIED_SINCE f);
      [rewrite parse_if_modified_since_flags|]; exact Q. }
  set (r3 := if HANDLER_PARSE_RANGE f then _ else r2).
  assert (F3 : flags r3 = flags request).
  { subst r3. destruct (HANDLER_PARSE_RANGE f); [rewrite parse_range_flags|]; exact F2. }
  set (r4 := if HANDLER_PARSE_ACCEPT_ENCODING f then _ else r3).
  assert (F4 : REQUEST_METHOD_POST (flags r4) = REQUEST_METHOD_POST (flags request)).
  { subst r4. destruct (HANDLER_PARSE_ACCEPT_ENCODING f);
      [rewrite parse_accept_encoding_post|]; now rewrite F3. }
  assert (C : forall r5 m5,
             (if HANDLER_PARSE_COOKIES f
              then parse_cookies qsort junk r4 helper m1
              else Returns (r4, m1)) = Returns (r5, m5) ->
             flags r5 = flags r4).
  { intros r5 m5. destruct (HANDLER_PARSE_COOKIES f).
    - apply parse_cookies_flags.
    - intros [= <- _]. reflexivity. }
  destruct (if HANDLER_PARSE_COOKIES f then _ else _)
    as [[r5 m5]| |]; try discriminate.
  specialize (C r5 m5 eq_refl).
  assert (F5 : REQUEST_METHOD_POST (flags r5) = REQUEST_METHOD_POST (flags request))
    by (rewrite C; exact F4).
  rewrite F5.
  assert (Fin : forall r6 m6,
             REQUEST_METHOD_POST (flags r6) = REQUEST_METHOD_POST (flags request) ->
             (REQUEST_METHOD_POST (flags request) = true ->
              HANDLER_PARSE_POST_DATA f = true) ->
             (if HANDLER_MUST_AUTHORIZE f
                 && negb (lwan_http_authorize r6 (authorization helper) m6 url_map)
              then Returns (r6, m6, HTTP_NOT_AUTHORIZED)
              else
                Returns
                  (if HANDLER_REMOVE_LEADING_SLASH f
                   then
                     match value (url r6) with
                     | None => r6
                     | Some u =>
                         let k := leading_slashes (skipn u m6) (len (url r6)) in
                         set_url (mk_value (Some (u + k)%nat) (len (url r6) - k)%nat) r6
                     end
                   else r6, m6, HTTP_OK)) = Returns (request', m', status) ->
             (status = HTTP_OK \/ status = HTTP_NOT_ALLOWED
              \/ status = HTTP_NOT_AUTHORIZED)
             /\ (status = HTTP_NOT_ALLOWED <->
                 REQUEST_METHOD_POST (flags request) = true
                 /\ HANDLER_PARSE_POST_DATA f = false)
             /\ (status = HTTP_NOT_AUTHORIZED -> HANDLER_MUST_AUTHORIZE f = true)
             /\ REQUEST_METHOD_POST (flags request')
                = REQUEST_METHOD_POST (flags request)
             /\ (status = HTTP_OK ->
                 HANDLER_REMOVE_LEADING_SLASH f = true ->
                 forall u, value (url request') = Some u ->
                           len (url request') = 0%nat \/ load m' u <> chr "/")).
  { intros r6 m6 F6 Hpost.
    destruct (HANDLER_MUST_AUTHORIZE f) eqn:Ea; cbn [andb].
    - destruct (negb _).
      + intros [= <- <- <-]. split; [auto|]. split.
        * split; [discriminate|]. intros [H1 H2]. rewrite (Hpost H1) in H2. discriminate.
        * split; [auto|]. split; [exact F6|]. discriminate.
      + intros [= <- <- <-]. split; [auto|]. split.
        * split; [discriminate|]. intros [H1 H2]. rewrite (Hpost H1) in H2. discriminate.
        * split; [discriminate|]. split.
          -- destruct (HANDLER_REMOVE_LEADING_SLASH f); [|exact F6].
             destruct (value (url r6)); exact F6.
          -- intros _ ->. intros u. destruct (value (url r6)) as [u6|] eqn:Eu.
             ++ cbn [url set_url value len]. intros [= <-].
                destruct (leading_slashes_stop (skipn u6 m6) (len (url r6))) as [_ H].
                rewrite load_skipn in H. exact H.
             ++ rewrite Eu. discriminate.
    - intros [= <- <- <-]. split; [auto|]. split.
      + split; [discriminate|]. intros [H1 H2]. rewrite (Hpost H1) in H2. discriminate.
      + split; [discriminate|]. split.
        * destruct (HANDLER_REMOVE_LEADING_SLASH f); [|exact F6].
          destruct (value (url r6)); exact F6.
        * intros _ ->. intros u. destruct (value (url r6)) as [u6|] eqn:Eu.
          -- cbn [url set_url value len]. intros [= <-].
             destruct (leading_slashes_stop (skipn u6 m6) (len (url r6))) as [_ H].
             rewrite load_skipn in H. exact H.
          -- rewrite Eu. discriminate. }
  destruct (REQUEST_METHOD_POST (flags request)) eqn:EP.
  - destruct (HANDLER_PARSE_POST_DATA f) eqn:ED.
    + destruct (parse_post_data qsort junk r5 helper m5) as [[r6 m6]| |] eqn:E6;
        try discriminate.
      apply parse_post_data_flags in E6.
      apply Fin; [rewrite E6; exact F5|auto].
    + intros [= <- <- <-]. split; [auto|]. split; [tauto|].
      split; [discriminate|]. split; [exact F5|discriminate].
  - apply Fin; [exact F5|discriminate].
Qed.

End Prepare.

Lemma prepare_for_response_outcomes_witness :
  let request := set_url (mk_value (Some 4%nat) 14) fresh_request in
  exists request',
    prepare_for_response insertion_sort zeroed_block no_strptime no_sscanf2 no_sscanf1
                         no_sscanf1 authorize_all static_map request
                         (new_helper 18 None) static_request
    = Returns (request', static_request, HTTP_OK)
    /\ url request' = mk_value (Some 13%nat) 5
    /\ (len (url request') = 0%nat \/ load static_request 13 <> chr "/").
Proof.
  intros request. eexists.
  assert (E : prepare_for_response insertion_sort zeroed_block no_strptime no_sscanf2
                no_sscanf1 no_sscanf1 authorize_all static_map request
                (new_helper 18 None) static_request
              = Returns (_, static_request, HTTP_OK)) by (vm_compute; reflexivity).
  split; [exact E|]. split; [reflexivity|].
  destruct (prepare_for_response_outcomes _ _ _ _ _ _ _ _ _ _ _ _ _ _ E)
    as [_ [_ [_ [_ H]]]].
  apply (H eq_refl eq_refl 13%nat). reflexivity.
Defined.

(** ** Form bodies *)

Lemma strcmp_l_zero (a : list Z) :
  forall b : list Z,
    Forall (fun x => x <> NUL) a -> Forall (fun x => x <> NUL) b ->
    strcmp_l a b = 0 -> a = b.
Proof.
  induction a as [|x a IH]; intros [|y b] Ha Hb; simpl; auto.
  - inversion Hb; subst. unfold NUL in *. lia.
  - inversion Ha; subst. unfold NUL in *. lia.
  - inversion Ha; inversion Hb; subst.
    destruct (Z.eqb_spec x y); [|lia]. intros H. subst. f_equal. now apply IH.
Qed.

Section Form.

Variable qsort :
  (lwan_key_value_t -> lwan_key_value_t -> Z) ->
  list lwan_key_value_t -> list lwan_key_value_t.
Variable junk : option (nat -> lwan_key_value_t).

(** X17. [parse_post_data] touches the request or the buffer only when the
    Content-Type value is, byte for byte and to its end,
    "application/x-www-form-urlencoded": a value with a parameter behind
    it, such as a charset, leaves the body unparsed. *)
Theorem parse_post_data_form_only :
  forall (request request' : lwan_request_t) (helper : request_parser_helper)
         (m m' : mem),
    parse_post_data qsort junk request helper m = Returns (request', m') ->
    (request', m') <> (request, m) ->
    exists ct,
      value (content_type helper) = Some ct
      /\ len (content_type helper) = String.length form_content_type
      /\ cstr m ct = bytes form_content_type.
Proof.
  intros request request' helper m m'. unfold parse_post_data.
  destruct (len (content_type helper) =? String.length form_content_type)%nat eqn:El;
    cbn [negb]; [|intros [= <- <-] H; now elim H].
  destruct (value (content_type helper)) as [ct|]; [|intros [= <- <-] H; now elim H].
  destruct (strcmp_l (cstr m ct) (bytes form_content_type) =? 0) eqn:Ec;
    cbn [negb]; [|intros [= <- <-] H; now elim H].
  intros _ _. exists ct. split; [reflexivity|].
  split; [now apply Nat.eqb_eq|].
  apply Z.eqb_eq in Ec. apply strcmp_l_zero; [apply until_nul_nonzero| |exact Ec].
  nonzero_bytes.
Qed.

End Form.

Lemma parse_post_data_form_only_witness :
  let helper :=
    set_post_data (mk_value (Some 34%nat) 3)
      (set_content_type (mk_value (Some 0%nat) 33) (new_helper 38 None)) in
  exists request' m',
    parse_post_data insertion_sort zeroed_block fresh_request helper form_and_body
    = Returns (request', m')
    /\ (request', m') <> (fresh_request, form_and_body)
    /\ cstr form_and_body 0 = bytes form_content_type.
Proof.
  intros helper. eexists. eexists.
  assert (E : parse_post_data insertion_sort zeroed_block fresh_request helper
                form_and_body = Returns (_, _)) by (vm_compute; reflexivity).
  split; [exact E|].
  match type of E with
  | _ = Returns (?r, ?mm) =>
      assert (Hne : (r, mm) <> (fresh_request, form_and_body))
        by (vm_compute; discriminate)
  end.
  split; [exact Hne|].
  destruct (parse_post_data_form_only _ _ _ _ _ _ _ E Hne) as [ct [Hct [_ Hs]]].
  injection Hct as <-. exact Hs.
Defined.


(** ** The zero-byte test *)

Lemma high_bits_mask (k : Z) :
  0 <= k -> Z.testbit 2155905152 k = true -> k = 7 \/ k = 15 \/ k = 23 \/ k = 31.
Proof.
  intros Hk H.
  destruct (Z_lt_le_dec k 32) as [Hlt|Hge].
  - assert (C : k = 0 \/ k = 1 \/ k = 2 \/ k = 3 \/ k = 4 \/ k = 5 \/ k = 6 \/ k = 7
               \/ k = 8 \/ k = 9 \/ k = 10 \/ k = 11 \/ k = 12 \/ k = 13 \/ k = 14
               \/ k = 15 \/ k = 16 \/ k = 17 \/ k = 18 \/ k = 19 \/ k = 20 \/ k = 21
               \/ k = 22 \/ k = 23 \/ k = 24 \/ k = 25 \/ k = 26 \/ k = 27 \/ k = 28
               \/ k = 29 \/ k = 30 \/ k = 31) by lia.
    repeat (destruct C as [->|C]; [try (vm_compute in H; discriminate); lia|]).
    subst. lia.
  - rewrite Z.bits_above_log2 in H; [discriminate|lia|].
    change (Z.log2 2155905152) with 31. lia.
Qed.

Lemma has_zero_byte_bit (n k : Z) :
  0 <= k < 32 ->
  Z.testbit (has_zero_byte n) k
  = Z.testbit (n - 16843009) k && negb (Z.testbit n k) && Z.testbit 2155905152 k.
Proof.
  intros Hk. unfold has_zero_byte, uint32.
  rewrite !Z.land_spec.
  rewrite !Z.mod_pow2_bits_low by lia.
  rewrite Z.lnot_spec by lia. reflexivity.
Qed.

Lemma has_zero_byte_nonzero (n : Z) :
  has_zero_byte n <> 0 <->
  exists k, (k = 7 \/ k = 15 \/ k = 23 \/ k = 31)
            /\ Z.testbit (n - 16843009) k = true /\ Z.testbit n k = false.
Proof.
  split.
  - intros H.
    destruct (Z.testbit (has_zero_byte n) 7) eqn:E7.
    { exists 7. rewrite has_zero_byte_bit in E7 by lia.
      apply andb_prop in E7. destruct E7 as [E7 _]. apply andb_prop in E7.
      destruct E7 as [A B]. apply negb_true_iff in B. auto. }
    destruct (Z.testbit (has_zero_byte n) 15) eqn:E15.
    { exists 15. rewrite has_zero_byte_bit in E15 by lia.
      apply andb_prop in E15. destruct E15 as [E15 _]. apply andb_prop in E15.
      destruct E15 as [A B]. apply negb_true_iff in B. auto 6. }
    destruct (Z.testbit (has_zero_byte n) 23) eqn:E23.
    { exists 23. rewrite has_zero_byte_bit in E23 by lia.
      apply andb_prop in E23. destruct E23 as [E23 _]. apply andb_prop in E23.
      destruct E23 as [A B]. apply negb_true_iff in B. auto 6. }
    destruct (Z.testbit (has_zero_byte n) 31) eqn:E31.
    { exists 31. rewrite has_zero_byte_bit in E31 by lia.
      apply andb_prop in E31. destruct E31 as [E31 _]. apply andb_prop in E31.
      destruct E31 as [A B]. apply negb_true_iff in B. auto 6. }
    exfalso. apply H. apply Z.bits_inj'. intros k Hk. rewrite Z.bits_0.
    destruct (Z.testbit (has_zero_byte n) k) eqn:Ek; [|reflexivity].
    assert (Hm : Z.testbit 2155905152 k = true).
    { unfold has_zero_byte in Ek. rewrite Z.land_spec in Ek.
      apply andb_prop in Ek. tauto. }
    destruct (high_bits_mask k Hk Hm) as [-> | [-> | [-> | ->]]]; congruence.
  - intros [k [Hk [A B]]] H0.
    assert (Hr : 0 <= k < 32) by lia.
    pose proof (has_zero_byte_bit n k Hr) as Hb.
    rewrite H0, Z.bits_0, A, B in Hb.
    assert (Hm : Z.testbit 2155905152 k = true)
      by (destruct Hk as [-> | [-> | [-> | ->]]]; reflexivity).
    rewrite Hm in Hb. discriminate.
Qed.

(** X18. [has_zero_byte] is exact on 32-bit words: the result is non-zero
    exactly when one of the four bytes of the word is zero. *)
Theorem has_zero_byte_exact :
  forall n : Z,
    0 <= n < 2 ^ 32 ->
    (has_zero_byte n <> 0 <->
     byte_of n 0 = 0 \/ byte_of n 1 = 0 \/ byte_of n 2 = 0 \/ byte_of n 3 = 0).
Proof.
  intros n Hn. rewrite has_zero_byte_nonzero. unfold byte_of.
  change (2 ^ 32) with 4294967296 in Hn.
  change (2 ^ (8 * 0)) with 1. change (2 ^ (8 * 1)) with 256.
  change (2 ^ (8 * 2)) with 65536. change (2 ^ (8 * 3)) with 16777216.
  rewrite Z.div_1_r.
  split.
  - intros [k [Hk [A B]]].
    apply Z.testbit_true in A; [|lia].
    apply Z.testbit_false in B; [|lia].
    destruct Hk as [-> | [-> | [-> | ->]]].
    + change (2 ^ 7) with 128 in *. Z.div_mod_to_equations; lia.
    + change (2 ^ 15) with 32768 in *. Z.div_mod_to_equations; lia.
    + change (2 ^ 23) with 8388608 in *. Z.div_mod_to_equations; lia.
    + change (2 ^ 31) with 2147483648 in *. Z.div_mod_to_equations; lia.
  - intros H.
    assert (C : n mod 256 = 0
                \/ (n mod 256 <> 0 /\ (n / 256) mod 256 = 0)
                \/ (n mod 256 <> 0 /\ (n / 256) mod 256 <> 0
                    /\ (n / 65536) mod 256 = 0)
                \/ (n mod 256 <> 0 /\ (n / 256) mod 256 <> 0
                    /\ (n / 65536) mod 256 <> 0 /\ (n / 16777216) mod 256 = 0)).
    { lia. }
    destruct C as [C|[C|[C|C]]].
    + exists 7. split; [auto|].
      rewrite Z.testbit_true, Z.testbit_false by lia.
      change (2 ^ 7) with 128. Z.div_mod_to_equations; lia.
    + exists 15. split; [auto|].
      rewrite Z.testbit_true, Z.testbit_false by lia.
      change (2 ^ 15) with 32768. Z.div_mod_to_equations; lia.
    + exists 23. split; [auto|].
      rewrite Z.testbit_true, Z.testbit_false by lia.
      change (2 ^ 23) with 8388608. Z.div_mod_to_equations; lia.
    + exists 31. split; [auto 6|].
      rewrite Z.testbit_true, Z.testbit_false by lia.
      change (2 ^ 31) with 2147483648. Z.div_mod_to_equations; lia.
Qed.

Lemma has_zero_byte_exact_witness :
  0 <= 1090535745 < 2 ^ 32
  /\ byte_of 1090535745 2 = 0
  /\ has_zero_byte 1090535745 <> 0.
Proof.
  assert (Hr : 0 <= 1090535745 < 2 ^ 32)
    by (split; [apply Z.leb_le|apply Z.ltb_lt]; reflexivity).
  split; [exact Hr|]. split; [reflexivity|].
  apply (has_zero_byte_exact 1090535745 Hr). right. right. left. reflexivity.
Defined.
